(** * Project Synapse: the disruption-resolution pipeline

    A shallow embedding of the core of the repository:
    - [src/utils/cache.py]    the TTL cache ([CacheManager]);
    - [src/core/agent.py]     scenario classification and the orchestrator
                              ([SynapseAgent.solve_disruption]);
    - [src/core/optimizer.py] candidate generation, ROI evaluation and
                              selection ([ProfitOptimizer]).

    Modelling conventions.
    - Python [float]s are exact rationals ([Q]); rounding, infinities and NaN
      are outside the model.  Python [int]s are [Z].
    - Python [str] is [string] (one-byte characters, so [lower], the regular
      expression class [\d] and whitespace are the ASCII ones).
    - A [dict] used as a map is a [gmap]; a dict used as a loosely typed
      record is a [Record] whose fields are [option]s where the code reads
      them with [.get(key, default)].
    - Mutable objects live in a [World] that is threaded through a small
      state-and-exception monad.  The wall clock, the random generators, the
      MD5 digest, the JSON library, the multimodal analyser and the language
      model are oracles gathered in an [Env]; the [n]-th reading of the clock
      is [clock E n], the [n]-th random draw is [uniform E n lo hi]. *)

From Stdlib Require Import ZArith QArith Qminmax String Ascii List Lia Lqa.
From Stdlib Require Import Sorted Permutation.
From stdpp Require Import gmap strings pretty.
Import ListNotations.

(** ** Numbers *)

Definition Qlt_bool (x y : Q) : bool := negb (Qle_bool y x).

(** [max(a, b)]: the first argument unless the second is strictly greater. *)
Definition py_max (a b : Q) : Q := if Qlt_bool a b then b else a.

(** [min(a, b)]: the first argument unless the second is strictly smaller. *)
Definition py_min (a b : Q) : Q := if Qlt_bool b a then b else a.

(** [int(x)] on a float: truncation toward zero. *)
Definition py_int (x : Q) : Z := Z.quot (Qnum x) (Z.pos (Qden x)).

(** ** Exceptions and outcomes *)

Inductive PyExn : Type :=
| KeyError (key : string)
| TypeError (msg : string)
| IndexError (msg : string).

Inductive outcome (A : Type) : Type :=
| Returned (a : A)
| Raised (e : PyExn).
Arguments Returned {A} a.
Arguments Raised {A} e.

(** ** The state-and-exception monad *)

Definition M (S A : Type) : Type := S -> outcome A * S.

Definition ret {S A} (a : A) : M S A := fun s => (Returned a, s).

Definition bind {S A B} (c : M S A) (k : A -> M S B) : M S B :=
  fun s => match c s with
           | (Returned a, s') => k a s'
           | (Raised e, s') => (Raised e, s')
           end.

Definition raise {S A} (e : PyExn) : M S A := fun s => (Raised e, s).

(** [try: c  except Exception: h] *)
Definition try_except {S A} (c : M S A) (h : PyExn -> M S A) : M S A :=
  fun s => match c s with
           | (Returned a, s') => (Returned a, s')
           | (Raised e, s') => h e s'
           end.

Definition gets {S A} (f : S -> A) : M S A := fun s => (Returned (f s), s).
Definition modify {S} (f : S -> S) : M S unit := fun s => (Returned tt, f s).

Declare Scope py_scope.
Delimit Scope py_scope with py.
Notation "x <- c ;; k" := (bind c (fun x => k))
  (at level 100, c at next level, right associativity) : py_scope.
Notation "c ;;; k" := (bind c (fun _ => k))
  (at level 100, right associativity) : py_scope.

(** ** Data model *)

(** An action of a plan: [{'type': ..., 'description': ...}]. *)
Record Action : Type := mkAction {
  type : option string;
  description : option string
}.

(** The dict returned by [_calculate_roi]. *)
Record ROIAnalysis : Type := mkROI {
  immediate_profit : Q;
  long_term_profit : Q;
  operational_costs : Q;
  brand_impact : Q;
  customer_ltv_impact : Q;
  total_profit : Q;
  total_cost : Q;
  roi_percentage : Q;
  payback_period_days : option Q   (* [None] is [float('inf')] *)
}.

(** A candidate solution: a dict; a key that is absent is [None]. *)
Record Candidate : Type := mkCandidate {
  approach : option string;
  actions : option (list Action);
  predicted_profit : option Q;
  confidence : option Q;
  execution_time : option Q;
  roi_analysis : option ROIAnalysis
}.

(** The empty dict [{}]. *)
Definition empty_dict : Candidate := mkCandidate None None None None None None.

Record Scenario : Type := mkScenario {
  id : string;
  sc_description : string;
  timestamp : Q;
  affected_deliveries : Z;
  severity : Q;
  scenario_type : string;
  raw_input : string
}.

(** An interactive option: [{'text': ..., 'action': ..., 'description': ...}]. *)
Record InteractiveOption : Type := mkOption {
  opt_text : string;
  opt_action : string;
  opt_description : string
}.

Record Solution : Type := mkSolution {
  sol_id : string;
  scenario_id : string;
  sol_actions : list Action;
  sol_predicted_profit : Q;
  sol_confidence : Q;
  reasoning : string;
  sol_execution_time : Q;
  cache_hit : bool;
  interactive_options : option (list InteractiveOption)
}.

(** The dict built by [Solution.to_dict]. *)
Record SolutionDict : Type := mkSolutionDict {
  d_id : string;
  d_scenario_id : string;
  d_actions : list Action;
  d_predicted_profit : Q;
  d_confidence : Q;
  d_reasoning : string;
  d_execution_time : Q;
  d_cache_hit : bool;
  d_interactive_options : list InteractiveOption
}.

(** ** The cache manager's state ([CacheManager.__init__]) *)

Record Stats : Type := mkStats {
  hits : Z;
  misses : Z;
  sets : Z;
  deletes : Z
}.

Record CacheManager (Text : Type) : Type := mkCache {
  cache : gmap string Text;
  expiry_times : gmap string (option Q);   (* [Some None]: the value [None] *)
  access_times : gmap string Q;
  stats : Stats
}.
Arguments mkCache {Text}.
Arguments cache {Text}.
Arguments expiry_times {Text}.
Arguments access_times {Text}.
Arguments stats {Text}.

Definition CacheManager_init {Text} : CacheManager Text :=
  mkCache ∅ ∅ ∅ (mkStats 0 0 0 0).

(** What [get] hands back: the decoded value, or, when [json.loads] did not
    produce one, a [str]. *)
Inductive Cached (Value Text : Type) : Type :=
| Decoded (v : Value)
| Undecoded (t : Text).
Arguments Decoded {Value Text} v.
Arguments Undecoded {Value Text} t.

(** The JSON library as seen by the cache. *)
Record Codec (Value Text : Type) : Type := mkCodec {
  json_dumps : Value -> option Text;      (* [None]: [json.dumps] raised *)
  json_dumps_str : Value -> Text;         (* [json.dumps(str(value))] *)
  json_loads : Text -> option Value       (* [None]: raised, or not a [Value] *)
}.
Arguments json_dumps {Value Text}.
Arguments json_dumps_str {Value Text}.
Arguments json_loads {Value Text}.

(** ** Agent and optimizer state *)

Record PerformanceMetrics : Type := mkPerf {
  total_scenarios : Z;
  cache_hits : Z;
  average_response_time : Q;
  total_profit_generated : Q;
  accuracy_rate : Q
}.

Record ProfitMetrics : Type := mkProfit {
  pm_total_profit_generated : Q;
  average_roi : Q;
  successful_optimizations : Z;
  total_optimizations : Z
}.

Record OptimizationRecord : Type := mkRecord {
  rec_timestamp : Q;
  rec_scenario_id : string;
  rec_scenario_type : string;
  rec_approach : string;
  rec_roi_percentage : Q;
  rec_execution_time : Q;
  rec_affected_deliveries : Z
}.

Record World (Text : Type) : Type := mkWorld {
  cache_manager : CacheManager Text;
  performance_metrics : PerformanceMetrics;
  profit_metrics : ProfitMetrics;
  optimization_history : list OptimizationRecord;
  ticks : nat;    (* readings of the clock made so far *)
  draws : nat     (* random draws made so far *)
}.
Arguments mkWorld {Text}.
Arguments cache_manager {Text}.
Arguments performance_metrics {Text}.
Arguments profit_metrics {Text}.
Arguments optimization_history {Text}.
Arguments ticks {Text}.
Arguments draws {Text}.

(** The language-model client ([utils/gemini_client.py]); a call either
    returns or raises. *)
Record LLM : Type := mkLLM {
  generate_concise_logistics_solution : string -> Candidate -> outcome string;
  generate_interactive_options : string -> Candidate -> outcome (list InteractiveOption)
}.

(** The environment: everything the pipeline asks of the outside world. *)
Record Env : Type := mkEnv {
  Text : Type;                                   (* JSON text held by the cache *)
  solution_codec : Codec SolutionDict Text;
  clock : nat -> Q;                              (* [time.time()], [datetime.now()] *)
  uniform : nat -> Q -> Q -> Q;                  (* [random.uniform], [np.random.uniform] *)
  randint : nat -> Z -> Z -> Z;                  (* [np.random.randint(lo, hi)] *)
  md5_hexdigest : string -> string;              (* [hashlib.md5(s.encode()).hexdigest()] *)
  Ctx : Type;                                    (* the analysis context dict *)
  analyze_scenario : Scenario -> Ctx;            (* [MultimodalProcessor.analyze_scenario] *)
  llm : option LLM                               (* [self.llm], [None] when unavailable *)
}.

(** ** World updates *)

Section WorldUpdates.
Context {T : Type}.

Definition with_cache_manager (cm : CacheManager T) (w : World T) : World T :=
  mkWorld cm (performance_metrics w) (profit_metrics w)
          (optimization_history w) (ticks w) (draws w).

Definition with_performance_metrics (pm : PerformanceMetrics) (w : World T) : World T :=
  mkWorld (cache_manager w) pm (profit_metrics w)
          (optimization_history w) (ticks w) (draws w).

Definition with_profit_metrics (pm : ProfitMetrics) (w : World T) : World T :=
  mkWorld (cache_manager w) (performance_metrics w) pm
          (optimization_history w) (ticks w) (draws w).

Definition with_optimization_history (h : list OptimizationRecord) (w : World T) : World T :=
  mkWorld (cache_manager w) (performance_metrics w) (profit_metrics w)
          h (ticks w) (draws w).

Definition with_ticks (n : nat) (w : World T) : World T :=
  mkWorld (cache_manager w) (performance_metrics w) (profit_metrics w)
          (optimization_history w) n (draws w).

Definition with_draws (n : nat) (w : World T) : World T :=
  mkWorld (cache_manager w) (performance_metrics w) (profit_metrics w)
          (optimization_history w) (ticks w) n.

(** Apply [f] to [self.cache_manager]. *)
Definition update_cache (f : CacheManager T -> CacheManager T) : M (World T) unit :=
  modify (fun w => with_cache_manager (f (cache_manager w)) w).

Definition with_cache (c : gmap string T) (cm : CacheManager T) : CacheManager T :=
  mkCache c (expiry_times cm) (access_times cm) (stats cm).
Definition with_expiry_times (e : gmap string (option Q)) (cm : CacheManager T) : CacheManager T :=
  mkCache (cache cm) e (access_times cm) (stats cm).
Definition with_access_times (a : gmap string Q) (cm : CacheManager T) : CacheManager T :=
  mkCache (cache cm) (expiry_times cm) a (stats cm).
Definition with_stats (s : Stats) (cm : CacheManager T) : CacheManager T :=
  mkCache (cache cm) (expiry_times cm) (access_times cm) s.
End WorldUpdates.

Definition incr_hits (s : Stats) : Stats := mkStats (hits s + 1) (misses s) (sets s) (deletes s).
Definition incr_misses (s : Stats) : Stats := mkStats (hits s) (misses s + 1) (sets s) (deletes s).
Definition incr_sets (s : Stats) : Stats := mkStats (hits s) (misses s) (sets s + 1) (deletes s).
Definition incr_deletes (s : Stats) : Stats := mkStats (hits s) (misses s) (sets s) (deletes s + 1).

(** [del d[key]]: raises [KeyError] when the key is absent. *)
Definition dict_del {V} (key : string) (d : gmap string V) : outcome (gmap string V) :=
  match d !! key with
  | Some _ => Returned (delete key d)
  | None => Raised (KeyError key)
  end.

(** A program of the pipeline: it runs in the world of environment [E]. *)
Definition Prog (E : Env) (A : Type) : Type := M (World (Text E)) A.

(** ** [utils/cache.py] *)

Section Cache.
Variable E : Env.
Local Open Scope py_scope.

(** [time.time()]: the next reading of the clock. *)
Definition time_time : Prog E Q :=
  fun w => (Returned (clock E (ticks w)), with_ticks (S (ticks w)) w).

Section Generic.
Context {Value : Type} (codec : Codec Value (Text E)).

Definition _serialize_value (value : Value) : Text E :=
  match json_dumps codec value with
  | Some s => s
  | None => json_dumps_str codec value
  end.

Definition _deserialize_value (serialized_value : Text E) : Cached Value (Text E) :=
  match json_loads codec serialized_value with
  | Some v => Decoded v
  | None => Undecoded serialized_value
  end.
End Generic.

Definition _is_expired (key : string) : Prog E bool :=
  cm <- gets cache_manager ;;
  match expiry_times cm !! key with
  | None => ret false
  | Some None => ret false
  | Some (Some expiry_time) =>
      now <- time_time ;;
      ret (Qlt_bool expiry_time now)
  end.

Definition del_in {V} (proj : CacheManager (Text E) -> gmap string V)
    (upd : gmap string V -> CacheManager (Text E) -> CacheManager (Text E))
    (key : string) : Prog E unit :=
  cm <- gets cache_manager ;;
  match dict_del key (proj cm) with
  | Returned d => update_cache (upd d)
  | Raised e => raise e
  end.

Definition cache_delete (key : string) : Prog E bool :=
  try_except
    (cm <- gets cache_manager ;;
     match cache cm !! key with
     | Some _ =>
         del_in cache with_cache key ;;;
         del_in expiry_times with_expiry_times key ;;;
         del_in access_times with_access_times key ;;;
         update_cache (fun cm => with_stats (incr_deletes (stats cm)) cm) ;;;
         ret true
     | None => ret false
     end)
    (fun _ => ret false).

Definition cache_set {Value} (codec : Codec Value (Text E))
    (key : string) (value : Value) (ttl : Z) : Prog E bool :=
  try_except
    (let serialized_value := _serialize_value codec value in
     update_cache (fun cm => with_cache (<[key := serialized_value]> (cache cm)) cm) ;;;
     (if (0 <? ttl)%Z
      then now <- time_time ;;
           update_cache (fun cm =>
             with_expiry_times (<[key := Some (now + inject_Z ttl)%Q]> (expiry_times cm)) cm)
      else update_cache (fun cm =>
             with_expiry_times (<[key := None]> (expiry_times cm)) cm)) ;;;
     now <- time_time ;;
     update_cache (fun cm => with_access_times (<[key := now]> (access_times cm)) cm) ;;;
     update_cache (fun cm => with_stats (incr_sets (stats cm)) cm) ;;;
     ret true)
    (fun _ => ret false).

Definition cache_get {Value} (codec : Codec Value (Text E))
    (key : string) : Prog E (option (Cached Value (Text E))) :=
  try_except
    (cm <- gets cache_manager ;;
     match cache cm !! key with
     | None =>
         update_cache (fun cm => with_stats (incr_misses (stats cm)) cm) ;;;
         ret None
     | Some serialized_value =>
         expired <- _is_expired key ;;
         if expired : bool then
           cache_delete key ;;;
           update_cache (fun cm => with_stats (incr_misses (stats cm)) cm) ;;;
           ret None
         else
           let value := _deserialize_value codec serialized_value in
           now <- time_time ;;
           update_cache (fun cm => with_access_times (<[key := now]> (access_times cm)) cm) ;;;
           update_cache (fun cm => with_stats (incr_hits (stats cm)) cm) ;;;
           ret (Some value)
     end)
    (fun _ =>
       update_cache (fun cm => with_stats (incr_misses (stats cm)) cm) ;;;
       ret None).

Definition cache_exists (key : string) : Prog E bool :=
  cm <- gets cache_manager ;;
  match cache cm !! key with
  | None => ret false
  | Some _ =>
      expired <- _is_expired key ;;
      if expired : bool then cache_delete key ;;; ret false
      else ret true
  end.

Definition cache_expire (key : string) (ttl : Z) : Prog E bool :=
  cm <- gets cache_manager ;;
  match cache cm !! key with
  | None => ret false
  | Some _ =>
      (if (0 <? ttl)%Z
       then now <- time_time ;;
            update_cache (fun cm =>
              with_expiry_times (<[key := Some (now + inject_Z ttl)%Q]> (expiry_times cm)) cm)
       else update_cache (fun cm =>
              with_expiry_times (<[key := None]> (expiry_times cm)) cm)) ;;;
      ret true
  end.

(** [ttl]: [-2] for an absent key, [-1] for a key without expiry, else the
    remaining whole seconds, never negative.  [self.expiry_times[key]]
    raises [KeyError] outside a [try]. *)
Definition cache_ttl (key : string) : Prog E Z :=
  cm <- gets cache_manager ;;
  match cache cm !! key with
  | None => ret (-2)%Z
  | Some _ =>
      match expiry_times cm !! key with
      | None => raise (KeyError key)
      | Some None => ret (-1)%Z
      | Some (Some expiry_time) =>
          now <- time_time ;;
          let remaining := py_int (expiry_time - now) in
          ret (Z.max 0 remaining)
      end
  end.

Definition cache_clear : Prog E bool :=
  try_except
    (update_cache (fun cm => mkCache ∅ ∅ ∅ (stats cm)) ;;;
     ret true)
    (fun _ => ret false).
End Cache.

(** ** Strings *)

Local Open Scope string_scope.

Definition is_upper (c : ascii) : bool :=
  let n := nat_of_ascii c in (65 <=? n)%nat && (n <=? 90)%nat.

Definition lower_ascii (c : ascii) : ascii :=
  if is_upper c then ascii_of_nat (nat_of_ascii c + 32) else c.

(** [s.lower()] *)
Fixpoint lower (s : string) : string :=
  match s with
  | EmptyString => EmptyString
  | String c s' => String (lower_ascii c) (lower s')
  end.

Fixpoint starts_with (w s : string) : bool :=
  match w, s with
  | EmptyString, _ => true
  | String a w', String b s' => if Ascii.eqb a b then starts_with w' s' else false
  | String _ _, EmptyString => false
  end.

(** [w in text]: [w] occurs in [text] as a substring. *)
Fixpoint py_in (w text : string) : bool :=
  starts_with w text ||
  match text with
  | EmptyString => false
  | String _ text' => py_in w text'
  end.

(** [any(word in text for word in words)] *)
Definition any_in (words : list string) (text : string) : bool :=
  existsb (fun word => py_in word text) words.

(** The class [\d]. *)
Definition is_digit (c : ascii) : bool :=
  let n := nat_of_ascii c in (48 <=? n)%nat && (n <=? 57)%nat.

(** [c.isspace()] *)
Definition is_space (c : ascii) : bool :=
  let n := nat_of_ascii c in
  ((9 <=? n)%nat && (n <=? 13)%nat) || ((28 <=? n)%nat && (n <=? 32)%nat).

(** [s.strip() == ''] *)
Fixpoint is_blank (s : string) : bool :=
  match s with
  | EmptyString => true
  | String c s' => is_space c && is_blank s'
  end.

Definition snoc (run : string) (c : ascii) : string := run ++ String c EmptyString.

(** [re.findall(r'\d+', s)]: the maximal runs of digits, left to right;
    [run] is the run being read. *)
Fixpoint findall_digits_from (s : string) (run : option string) : list string :=
  match s with
  | EmptyString => match run with Some r => [r] | None => [] end
  | String c s' =>
      if is_digit c
      then findall_digits_from s' (Some (snoc (default EmptyString run) c))
      else match run with
           | Some r => r :: findall_digits_from s' None
           | None => findall_digits_from s' None
           end
  end.

Definition findall_digits (s : string) : list string := findall_digits_from s None.

Definition digit_value (c : ascii) : Z := Z.of_nat (nat_of_ascii c) - 48.

Fixpoint int_of_digits_from (acc : Z) (s : string) : Z :=
  match s with
  | EmptyString => acc
  | String c s' => int_of_digits_from (10 * acc + digit_value c) s'
  end.

(** [int(s)] on a run of digits. *)
Definition int_of_digits (s : string) : Z := int_of_digits_from 0 s.

(** ** [core/agent.py]: classification *)

Section Classifier.
Variable E : Env.
Local Open Scope py_scope.

(** [random.uniform(a, b)] and [np.random.uniform(a, b)] *)
Definition random_uniform (a b : Q) : Prog E Q :=
  fun w => (Returned (uniform E (draws w) a b), with_draws (S (draws w)) w).

(** [np.random.randint(lo, hi)] *)
Definition np_random_randint (lo hi : Z) : Prog E Z :=
  fun w => (Returned (randint E (draws w) lo hi), with_draws (S (draws w)) w).

Definition _classify_scenario (input_text : string) : string :=
  let text_lower := lower input_text in
  if any_in ["traffic"; "accident"; "jam"; "road"] text_lower then
    "traffic_disruption"
  else if any_in ["complaint"; "angry"; "cold"; "food"] text_lower then
    "customer_issue"
  else if any_in ["driver"; "voice"; "stress"] text_lower then
    "driver_wellbeing"
  else if any_in ["weather"; "rain"; "storm"] text_lower then
    "environmental"
  else
    "general_disruption".

Definition _assess_severity (input_text : string) : Prog E Q :=
  let text_lower := lower input_text in
  let high_severity := ["major"; "critical"; "emergency"; "accident"; "angry"] in
  let medium_severity := ["delay"; "problem"; "issue"; "cold"; "traffic"] in
  let low_severity := ["minor"; "slight"; "small"] in
  if any_in high_severity text_lower then random_uniform (7 # 10) 1
  else if any_in medium_severity text_lower then random_uniform (4 # 10) (7 # 10)
  else if any_in low_severity text_lower then random_uniform (1 # 10) (4 # 10)
  else random_uniform (3 # 10) (6 # 10).

Definition _estimate_affected_deliveries (input_text : string) : Prog E Z :=
  let text_lower := lower input_text in
  let numbers := findall_digits input_text in
  match numbers with
  | first :: _ => ret (int_of_digits first)
  | [] =>
      if any_in ["major"; "highway"; "multiple"] text_lower then
        np_random_randint 3 8
      else if any_in ["single"; "one"; "individual"] text_lower then
        ret 1%Z
      else
        np_random_randint 1 4
  end.

Definition _create_scenario (input_text : string) : Prog E Scenario :=
  let scenario_id := substring 0 8 (md5_hexdigest E input_text) in
  let scenario_type := _classify_scenario input_text in
  severity <- _assess_severity input_text ;;
  affected_deliveries <- _estimate_affected_deliveries input_text ;;
  now <- time_time E ;;
  ret (mkScenario scenario_id input_text now affected_deliveries severity
                  scenario_type input_text).
End Classifier.

(** ** [core/optimizer.py] *)

Definition act (kind descr : string) : Action := mkAction (Some kind) (Some descr).

(** The table [action_costs] of [_calculate_operational_costs]. *)
Definition action_costs : gmap string Q :=
  list_to_map
    [("compensation", 15%Q); ("priority_status", 5%Q); ("personal_apology", 8%Q);
     ("future_discount", 20%Q); ("loyalty_points", 12%Q); ("quality_assurance", 6%Q);
     ("incentive_bonus", 25%Q); ("training_opportunity", 15%Q);
     ("technology_upgrade", 30%Q); ("process_improvement", 18%Q)].

(** The body of the loop over the actions. *)
Definition add_action_cost (total_action_cost : Q) (action : Action) : Q :=
  let action_type := default "" (type action) in
  match action_costs !! action_type with
  | Some cost => (total_action_cost + cost)%Q
  | None => total_action_cost
  end.

Definition _calculate_operational_costs (solution : Candidate) (scenario : Scenario) : Q :=
  let base_cost := 10%Q in
  let total_action_cost := fold_left add_action_cost (default [] (actions solution)) 0%Q in
  let delivery_multiplier := Z.max 1 (affected_deliveries scenario) in
  (base_cost + total_action_cost * inject_Z delivery_multiplier)%Q.

Definition _calculate_payback_period (total_cost monthly_profit : Q) : option Q :=
  if Qle_bool monthly_profit 0 then None
  else
    let daily_profit := (monthly_profit / 30)%Q in
    if Qlt_bool 0 daily_profit
    then Some (py_min (total_cost / daily_profit)%Q 365)
    else Some 365%Q.                      (* [min(float('inf'), 365)] *)

(** The sort key of [_select_best_solution]:
    [x.get('roi_analysis', {}).get('roi_percentage', 0)]. *)
Definition roi_key (x : Candidate) : Q :=
  match roi_analysis x with
  | Some r => roi_percentage r
  | None => 0%Q
  end.

(** [sorted(l, key=key, reverse=True)]: a stable sort into descending order
    of the key; an element goes in front of the elements met so far whose
    key is not greater than its own. *)
Fixpoint insert_desc {A} (key : A -> Q) (x : A) (l : list A) : list A :=
  match l with
  | [] => [x]
  | y :: l' => if Qlt_bool (key x) (key y) then y :: insert_desc key x l' else x :: l
  end.

Definition sorted_reverse {A} (key : A -> Q) (l : list A) : list A :=
  fold_right (insert_desc key) [] l.

(** The order of the result: no key is smaller than the key after it. *)
Definition descending {A} (key : A -> Q) (x y : A) : Prop := (key y <= key x)%Q.

Definition _select_best_solution (candidates : list Candidate) : outcome Candidate :=
  match candidates with
  | [] => Returned empty_dict
  | _ :: _ =>
      let sorted_candidates := sorted_reverse roi_key candidates in
      match sorted_candidates with
      | best :: _ => Returned best
      | [] => Raised (IndexError "list index out of range")
      end
  end.

Definition with_roi_analysis (r : ROIAnalysis) (c : Candidate) : Candidate :=
  mkCandidate (approach c) (actions c) (predicted_profit c) (confidence c)
              (execution_time c) (Some r).

(** [l[-n:]] *)
Definition last_n {A} (n : nat) (l : list A) : list A := skipn (length l - n) l.

Section Optimizer.
Variable E : Env.
Local Open Scope py_scope.

Fixpoint for_each {A B} (f : A -> Prog E B) (l : list A) : Prog E (list B) :=
  match l with
  | [] => ret []
  | x :: l' => y <- f x ;; ys <- for_each f l' ;; ret (y :: ys)
  end.

Definition lift {A} (o : outcome A) : Prog E A :=
  match o with
  | Returned a => ret a
  | Raised e => raise e
  end.

Definition _generate_base_solution (scenario : Scenario) (context : Ctx E) : Candidate :=
  mkCandidate (Some "standard")
    (Some [act "investigate" "Investigate the issue";
           act "notify" "Notify relevant parties";
           act "monitor" "Monitor the situation"])
    (Some 0%Q) (Some (7 # 10)) (Some (3 # 10)) None.

Definition _generate_customer_solutions (scenario : Scenario) (context : Ctx E)
  : Prog E (list Candidate) :=
  profit1 <- random_uniform E 60 120 ;;
  let premium_solution :=
    mkCandidate (Some "premium_customer")
      (Some [act "compensation" "Offer generous compensation";
             act "priority_status" "Grant priority delivery status";
             act "personal_apology" "Personal apology call";
             act "future_discount" "20% off next 3 orders"])
      (Some profit1) (Some (9 # 10)) (Some (3 # 10)) None in
  profit2 <- random_uniform E 40 80 ;;
  let retention_solution :=
    mkCandidate (Some "retention_focused")
      (Some [act "modest_compensation" "Offer fair compensation";
             act "loyalty_points" "Bonus loyalty points";
             act "quality_assurance" "Quality guarantee for next order"])
      (Some profit2) (Some (85 # 100)) (Some (3 # 10)) None in
  ret [premium_solution; retention_solution].

Definition _generate_traffic_solutions (scenario : Scenario) (context : Ctx E)
  : Prog E (list Candidate) :=
  profit1 <- random_uniform E 50 100 ;;
  let proactive_solution :=
    mkCandidate (Some "proactive_rerouting")
      (Some [act "predict_traffic" "Predict traffic patterns";
             act "optimize_routes" "Optimize all affected routes";
             act "notify_drivers" "Alert drivers proactively";
             act "adjust_etas" "Update customer ETAs"])
      (Some profit1) (Some (9 # 10)) (Some (3 # 10)) None in
  profit2 <- random_uniform E 30 70 ;;
  let fleet_solution :=
    mkCandidate (Some "fleet_optimization")
      (Some [act "reposition_fleet" "Reposition available drivers";
             act "batch_deliveries" "Batch nearby deliveries";
             act "dynamic_pricing" "Adjust pricing for delays"])
      (Some profit2) (Some (8 # 10)) (Some (3 # 10)) None in
  ret [proactive_solution; fleet_solution].

Definition _generate_driver_solutions (scenario : Scenario) (context : Ctx E)
  : Prog E (list Candidate) :=
  profit1 <- random_uniform E 45 85 ;;
  let support_solution :=
    mkCandidate (Some "driver_support")
      (Some [act "emotional_support" "Provide emotional support";
             act "technical_assistance" "Offer technical help";
             act "incentive_bonus" "Performance bonus for handling";
             act "training_opportunity" "Additional training access"])
      (Some profit1) (Some (85 # 100)) (Some (3 # 10)) None in
  profit2 <- random_uniform E 35 65 ;;
  let team_solution :=
    mkCandidate (Some "team_collaboration")
      (Some [act "peer_support" "Connect with experienced drivers";
             act "shared_responsibility" "Share delivery load";
             act "recognition" "Recognize good performance"])
      (Some profit2) (Some (8 # 10)) (Some (3 # 10)) None in
  ret [support_solution; team_solution].

Definition _generate_general_solutions (scenario : Scenario) (context : Ctx E)
  : Prog E (list Candidate) :=
  profit <- random_uniform E 40 90 ;;
  let innovation_solution :=
    mkCandidate (Some "innovation_focused")
      (Some [act "creative_solution" "Develop innovative approach";
             act "partnership" "Partner with local services";
             act "technology_upgrade" "Deploy new technology";
             act "process_improvement" "Improve operational processes"])
      (Some profit) (Some (75 # 100)) (Some (3 # 10)) None in
  ret [innovation_solution].

Definition _generate_solution_candidates (scenario : Scenario) (context : Ctx E)
  : Prog E (list Candidate) :=
  let base_solution := _generate_base_solution scenario context in
  more <-
    (if String.eqb (scenario_type scenario) "customer_issue" then
       _generate_customer_solutions scenario context
     else if String.eqb (scenario_type scenario) "traffic_disruption" then
       _generate_traffic_solutions scenario context
     else if String.eqb (scenario_type scenario) "driver_wellbeing" then
       _generate_driver_solutions scenario context
     else
       _generate_general_solutions scenario context) ;;
  ret (base_solution :: more).

Definition _get_customer_ltv_impact (solution : Candidate) (scenario : Scenario)
    (context : Ctx E) : Prog E Q :=
  base_ltv <- random_uniform E 200 800 ;;
  let approach := default "standard" (approach solution) in
  ltv_multiplier <-
    (if String.eqb approach "premium_customer" then random_uniform E (13 # 10) (18 # 10)
     else if String.eqb approach "retention_focused" then random_uniform E (12 # 10) (15 # 10)
     else if String.eqb approach "driver_support" then random_uniform E (11 # 10) (14 # 10)
     else random_uniform E 1 (13 # 10)) ;;
  let daily_ltv_impact := ((base_ltv * ltv_multiplier - base_ltv) / 365)%Q in
  let monthly_impact := (daily_ltv_impact * 30)%Q in
  ret monthly_impact.

Definition _assess_brand_impact (solution : Candidate) (scenario : Scenario)
    (context : Ctx E) : Prog E Q :=
  base_brand_value <- random_uniform E 50 150 ;;
  let approach := default "standard" (approach solution) in
  brand_multiplier <-
    (if existsb (String.eqb approach) ["premium_customer"; "driver_support"] then
       random_uniform E (14 # 10) (19 # 10)
     else if existsb (String.eqb approach) ["retention_focused"; "proactive_rerouting"] then
       random_uniform E (12 # 10) (16 # 10)
     else random_uniform E 1 (13 # 10)) ;;
  let daily_brand_impact :=
    ((base_brand_value * brand_multiplier - base_brand_value) / 365)%Q in
  let monthly_impact := (daily_brand_impact * 30)%Q in
  ret monthly_impact.

Definition _calculate_roi (solution : Candidate) (scenario : Scenario)
    (context : Ctx E) : Prog E ROIAnalysis :=
  customer_ltv <- _get_customer_ltv_impact solution scenario context ;;
  let operational_costs := _calculate_operational_costs solution scenario in
  brand_impact <- _assess_brand_impact solution scenario context ;;
  let immediate_profit := default 0%Q (predicted_profit solution) in
  let long_term_profit := (customer_ltv + brand_impact)%Q in
  let total_profit := (immediate_profit + long_term_profit)%Q in
  let total_cost := operational_costs in
  let roi :=
    if Qlt_bool 0 total_cost
    then ((total_profit - total_cost) / py_max total_cost 1)%Q
    else total_profit in
  ret (mkROI immediate_profit long_term_profit operational_costs brand_impact
             customer_ltv total_profit total_cost (roi * 100)%Q
             (_calculate_payback_period total_cost long_term_profit)).

Definition _update_optimization_metrics (solution : Candidate) : Prog E unit :=
  modify (fun w =>
    let pm := profit_metrics w in
    let total_opt := (total_optimizations pm + 1)%Z in
    let new_roi := roi_key solution in
    let successful :=
      if Qlt_bool 0 new_roi
      then (successful_optimizations pm + 1)%Z
      else successful_optimizations pm in
    let total_profit :=
      match roi_analysis solution with
      | Some r => total_profit r
      | None => 0%Q
      end in
    let current_avg := average_roi pm in
    with_profit_metrics
      (mkProfit (pm_total_profit_generated pm + total_profit)%Q
                ((current_avg * inject_Z (total_opt - 1) + new_roi) / inject_Z total_opt)%Q
                successful total_opt) w).

Definition _record_optimization (scenario : Scenario) (solution : Candidate)
    (execution_time : Q) : Prog E unit :=
  now <- time_time E ;;
  let record :=
    mkRecord now (id scenario) (scenario_type scenario)
             (default "unknown" (approach solution)) (roi_key solution)
             execution_time (affected_deliveries scenario) in
  modify (fun w =>
    let history := (optimization_history w ++ [record])%list in
    with_optimization_history
      (if (1000 <? length history)%nat then last_n 1000 history else history) w).

Definition optimize (scenario : Scenario) (context : Ctx E) : Prog E Candidate :=
  start_time <- time_time E ;;
  candidates <- _generate_solution_candidates scenario context ;;
  evaluated_candidates <-
    for_each (fun candidate =>
                roi_analysis <- _calculate_roi candidate scenario context ;;
                ret (with_roi_analysis roi_analysis candidate))
             candidates ;;
  best_solution <- lift (_select_best_solution evaluated_candidates) ;;
  _update_optimization_metrics best_solution ;;;
  end_time <- time_time E ;;
  _record_optimization scenario best_solution (end_time - start_time)%Q ;;;
  ret best_solution.
End Optimizer.

(** ** [core/agent.py]: the orchestrator *)

(** [Solution.to_dict] *)
Definition to_dict (s : Solution) : SolutionDict :=
  mkSolutionDict (sol_id s) (scenario_id s) (sol_actions s) (sol_predicted_profit s)
                 (sol_confidence s) (reasoning s) (sol_execution_time s) (cache_hit s)
                 (default [] (interactive_options s)).

(** The constructor call [Solution] applied to the unpacked [cached_data], a
    dict with the nine keys of [to_dict]. *)
Definition Solution_of_dict (d : SolutionDict) : Solution :=
  mkSolution (d_id d) (d_scenario_id d) (d_actions d) (d_predicted_profit d)
             (d_confidence d) (d_reasoning d) (d_execution_time d) (d_cache_hit d)
             (Some (d_interactive_options d)).

Definition with_cache_hit (b : bool) (s : Solution) : Solution :=
  mkSolution (sol_id s) (scenario_id s) (sol_actions s) (sol_predicted_profit s)
             (sol_confidence s) (reasoning s) (sol_execution_time s) b
             (interactive_options s).

Definition with_execution_time (t : Q) (s : Solution) : Solution :=
  mkSolution (sol_id s) (scenario_id s) (sol_actions s) (sol_predicted_profit s)
             (sol_confidence s) (reasoning s) t (cache_hit s)
             (interactive_options s).

Definition default_reasoning : string := "Solution optimized for maximum profit.".

Definition default_interactive_options : list InteractiveOption :=
  [mkOption "Make Changes to Driver's Route" "route_change"
            "Update delivery route to avoid disruption";
   mkOption "Connect Customer Service Agent" "customer_service"
            "Get customer service agent involved"].

(** The cache key [f"scenario_{scenario.id}"]. *)
Definition scenario_key (scenario : Scenario) : string := "scenario_" ++ id scenario.

Section Agent.
Variable E : Env.
Local Open Scope py_scope.

(** [cached_data] is truthy in both cases: a dict with nine keys, or a
    non-empty [str], which cannot be unpacked into the constructor. *)
Definition _check_prediction_cache (scenario : Scenario) : Prog E (option Solution) :=
  let cache_key := scenario_key scenario in
  cached_data <- cache_get E (solution_codec E) cache_key ;;
  match cached_data with
  | Some (Decoded d) => ret (Some (Solution_of_dict d))
  | Some (Undecoded _) => raise (TypeError "argument after ** must be a mapping, not str")
  | None => ret None
  end.

Definition _cache_solution (scenario : Scenario) (solution : Solution) : Prog E unit :=
  let cache_key := scenario_key scenario in
  cache_set E (solution_codec E) cache_key (to_dict solution) 3600 ;;;
  ret tt.

(** The JSON-safe copies of [context] and [solution] and the prompt text are
    built and never read; the model omits them.  The client receives the
    candidate itself where the code passes [str(solution)]. *)
Definition _execute_with_reasoning (scenario : Scenario) (solution : Candidate)
    (context : Ctx E) : Prog E Solution :=
  explained <-
    try_except
      (match llm E with
       | Some client =>
           reasoning <- lift E (generate_concise_logistics_solution client
                                  (sc_description scenario) solution) ;;
           interactive_options <- lift E (generate_interactive_options client
                                  (sc_description scenario) solution) ;;
           ret (reasoning, interactive_options)
       | None => ret (default_reasoning, default_interactive_options)
       end)
      (fun _ => ret (default_reasoning, default_interactive_options)) ;;
  now <- time_time E ;;
  let solution_id := "sol_" ++ id scenario ++ "_" ++ pretty (py_int now) in
  ret (mkSolution solution_id (id scenario)
                  (default [] (actions solution))
                  (default 0%Q (predicted_profit solution))
                  (default (8 # 10) (confidence solution))
                  (fst explained) 0%Q false (Some (snd explained))).

Definition _update_metrics (solution : Solution) (cache_hit : bool) : Prog E unit :=
  modify (fun w =>
    let pm := performance_metrics w in
    let total_scenarios := (total_scenarios pm + 1)%Z in
    let cache_hits := if cache_hit then (cache_hits pm + 1)%Z else cache_hits pm in
    let current_avg := average_response_time pm in
    let base_accuracy := 85 # 100 in
    let improvement_factor := py_min (15 # 100) (inject_Z total_scenarios * (1 # 1000))%Q in
    with_performance_metrics
      (mkPerf total_scenarios cache_hits
              ((current_avg * inject_Z (total_scenarios - 1) + sol_execution_time solution)
               / inject_Z total_scenarios)%Q
              (total_profit_generated pm + sol_predicted_profit solution)%Q
              (base_accuracy + improvement_factor)%Q) w).

Definition solve_disruption (scenario_input : string) : Prog E Solution :=
  start_time <- time_time E ;;
  scenario <- _create_scenario E scenario_input ;;
  cached_solution <- _check_prediction_cache scenario ;;
  match cached_solution with
  | Some cached_solution =>
      now <- time_time E ;;
      let cached_solution :=
        with_execution_time (now - start_time)%Q (with_cache_hit true cached_solution) in
      _update_metrics cached_solution true ;;;
      ret cached_solution
  | None =>
      let context := analyze_scenario E scenario in
      solution <- optimize E scenario context ;;
      final_solution <- _execute_with_reasoning scenario solution context ;;
      now <- time_time E ;;
      let final_solution := with_execution_time (now - start_time)%Q final_solution in
      _cache_solution scenario final_solution ;;;
      _update_metrics final_solution false ;;;
      ret final_solution
  end.
End Agent.

(** ** A concrete environment and initial world *)

(** The first readings are one second apart. *)
Definition demo_clock (n : nat) : Q := inject_Z (1700000000 + Z.of_nat n).

(** MD5 digests of the texts used below. *)
Definition demo_md5 (s : string) : string :=
  if String.eqb s "" then "d41d8cd98f00b204e9800998ecf8427e"
  else if String.eqb s "   " then "628631f07321b22d8c176c200c855e1b"
  else if String.eqb s "Major accident on Highway 1 affects 5 active deliveries"
       then "0a30e4ac6ba9ce119c3293a149f0a3d1"
  else "ffffffffffffffffffffffffffffffff".

(** A JSON library whose text is the value itself. *)
Definition identity_codec : Codec SolutionDict SolutionDict :=
  mkCodec SolutionDict SolutionDict Some (fun d => d) Some.

Definition demo_env : Env :=
  mkEnv SolutionDict identity_codec demo_clock
        (fun _ a b => ((a + b) / 2)%Q) (fun _ lo _ => lo)
        demo_md5 unit (fun _ => tt) None.

Definition initial_world {T} : World T :=
  mkWorld CacheManager_init (mkPerf 0 0 0 0 0) (mkProfit 0 0 0 0) [] 0 0.

(** The world after a first resolution of the empty text, and its result. *)
Definition demo_first_world : World (Text demo_env) :=
  snd (solve_disruption demo_env "" initial_world).

Definition demo_first_solution : Solution :=
  match fst (solve_disruption demo_env "" initial_world) with
  | Returned s => s
  | Raised _ => mkSolution "" "" [] 0 0 "" 0 false None
  end.

(** A world in which the key [k] was stored with a TTL of one second. *)
Definition demo_stored_world : World (Text demo_env) :=
  snd (cache_set demo_env identity_codec "k" (to_dict demo_first_solution) 1
                 initial_world).

(** A premium candidate and a scenario with five affected deliveries. *)
Definition demo_premium : Candidate :=
  mkCandidate (Some "premium_customer")
    (Some [act "compensation" "Offer generous compensation";
           act "priority_status" "Grant priority delivery status";
           act "personal_apology" "Personal apology call";
           act "future_discount" "20% off next 3 orders"])
    (Some 90%Q) (Some (9 # 10)) (Some (3 # 10)) None.

Definition demo_scenario (units : Z) : Scenario :=
  mkScenario "bbfdd998" "angry customer after accident" 1700000000 units (8 # 10)
             "customer_issue" "angry customer after accident".

(** A candidate that only carries an ROI percentage. *)
Definition with_roi (tag : string) (roi : Q) : Candidate :=
  mkCandidate (Some tag) (Some []) (Some 0%Q) (Some (7 # 10)) (Some (3 # 10))
              (Some (mkROI 0 0 0 0 0 0 0 roi None)).

(** ** Specification-side definitions *)

(** The flat fee of an action: its entry in the cost table, zero for a kind
    the table does not list. *)
Definition action_fee (a : Action) : Q :=
  default 0%Q (action_costs !! default "" (type a)).

Definition sum_fees (l : list Action) : Q :=
  fold_right (fun a s => (action_fee a + s)%Q) 0%Q l.

(** The operational cost as the specification words it: base cost and fees
    are both multiplied by the number of affected units. *)
Definition spec_operational_cost (solution : Candidate) (scenario : Scenario) : Q :=
  ((10 + sum_fees (default [] (actions solution)))
   * inject_Z (Z.max 1 (affected_deliveries scenario)))%Q.

(** The keyword categories in their priority order. *)
Definition traffic_keywords : list string := ["traffic"; "accident"; "jam"; "road"].
Definition customer_keywords : list string := ["complaint"; "angry"; "cold"; "food"].
Definition driver_keywords : list string := ["driver"; "voice"; "stress"].
Definition environmental_keywords : list string := ["weather"; "rain"; "storm"].

Definition keyword_priority : list (list string * string) :=
  [(traffic_keywords, "traffic_disruption");
   (customer_keywords, "customer_issue");
   (driver_keywords, "driver_wellbeing");
   (environmental_keywords, "environmental")].

(** The first category of the table one of whose keywords occurs in the
    text, and [general_disruption] when there is none. *)
Fixpoint first_matching_category (table : list (list string * string))
    (text_lower : string) : string :=
  match table with
  | [] => "general_disruption"
  | (keywords, category) :: rest =>
      if any_in keywords text_lower then category
      else first_matching_category rest text_lower
  end.

Definition spec_classify (input_text : string) : string :=
  first_matching_category keyword_priority (lower input_text).

(** The text mentions the keyword: the keyword occurs in it, in any mix of
    upper and lower case. *)
Definition mentions (text keyword : string) : Prop :=
  exists pre occurrence post,
    text = pre ++ occurrence ++ post /\ lower occurrence = keyword.

(** A resolution started in world [w] probes the cache at its third reading
    of the clock (after the start time and the scenario timestamp); the entry
    under [key] is within its TTL window when that reading is not past the
    expiry instant. *)
Definition within_ttl (E : Env) (w : World (Text E)) (key : string) : Prop :=
  forall e, expiry_times (cache_manager w) !! key = Some (Some e) ->
            (clock E (2 + ticks w) <= e)%Q.

(** The cache key of a text: [scenario_] and the first eight hexadecimal
    digits of its MD5 digest. *)
Definition text_key (E : Env) (text : string) : string :=
  "scenario_" ++ substring 0 8 (md5_hexdigest E text).

(** The program returns, whatever the world it starts in. *)
Definition returns {S A} (c : M S A) : Prop :=
  forall s, exists a s', c s = (Returned a, s').

(** [np.random.randint(lo, hi)] draws from [lo, hi). *)
Definition randint_in_range (E : Env) : Prop :=
  forall n lo hi, (lo < hi)%Z -> (lo <= randint E n lo hi < hi)%Z.

(** Every value is serialisable, and [json.loads] inverts [json.dumps]. *)
Definition codec_roundtrip {Value Text} (c : Codec Value Text) : Prop :=
  forall v, exists t, json_dumps c v = Some t /\ json_loads c t = Some v.

Fixpoint has_digit (s : string) : bool :=
  match s with
  | EmptyString => false
  | String c s' => is_digit c || has_digit s'
  end.

Fixpoint all_digits (s : string) : bool :=
  match s with
  | EmptyString => true
  | String c s' => is_digit c && all_digits s'
  end.

(** [s] does not begin with a digit. *)
Definition no_leading_digit (s : string) : bool :=
  match s with
  | EmptyString => true
  | String c _ => negb (is_digit c)
  end.

(** ** Further operations of the cache, the agent and the optimizer *)

(** The three dicts of the cache manager hold the same keys. *)
Definition cache_consistent {T} (cm : CacheManager T) : Prop :=
  dom (cache cm) =@{gset string} dom (expiry_times cm) /\
  dom (cache cm) =@{gset string} dom (access_times cm).

(** No counter of the second record is below its value in the first. *)
Definition stats_le (s s' : Stats) : Prop :=
  (hits s <= hits s')%Z /\ (misses s <= misses s')%Z /\
  (sets s <= sets s')%Z /\ (deletes s <= deletes s')%Z.

(** [random.uniform(a, b)] draws from [a, b]. *)
Definition uniform_in_range (E : Env) : Prop :=
  forall n a b, (a <= b)%Q -> (a <= uniform E n a b <= b)%Q.

(** [l[start:]] *)
Definition py_slice_from {A} (start : Z) (l : list A) : list A :=
  let len := Z.of_nat (length l) in
  let i := if (start <? 0)%Z then Z.max 0 (len + start) else Z.min start len in
  skipn (Z.to_nat i) l.

(** [l[:stop]] *)
Definition py_slice_to {A} (stop : Z) (l : list A) : list A :=
  let len := Z.of_nat (length l) in
  let j := if (stop <? 0)%Z then Z.max 0 (len + stop) else Z.min stop len in
  firstn (Z.to_nat j) l.

(** An entry of the list returned by [get_top_performing_approaches]. *)
Record ApproachAverage : Type := mkAverage {
  avg_approach : string;
  avg_average_roi : Q;
  usage_count : Z
}.

(** The dict [approach_stats], in insertion order: an approach met for the
    first time goes to the end with [total_roi = 0] and [count = 0], then its
    entry is updated in place. *)
Fixpoint add_to_approach_stats (approach : string) (roi : Q)
    (approach_stats : list (string * (Q * Z))) : list (string * (Q * Z)) :=
  match approach_stats with
  | [] => [(approach, ((0 + roi)%Q, (0 + 1)%Z))]
  | (a, (total_roi, count)) :: rest =>
      if String.eqb a approach
      then (a, ((total_roi + roi)%Q, (count + 1)%Z)) :: rest
      else (a, (total_roi, count)) :: add_to_approach_stats approach roi rest
  end.

Definition group_by_approach (history : list OptimizationRecord)
  : list (string * (Q * Z)) :=
  fold_left (fun approach_stats record =>
               add_to_approach_stats (rec_approach record) (rec_roi_percentage record)
                                     approach_stats)
            history [].

Definition approach_average (entry : string * (Q * Z)) : ApproachAverage :=
  let '(approach, (total_roi, count)) := entry in
  mkAverage approach (total_roi / inject_Z count)%Q count.

Section MoreOperations.
Variable E : Env.
Local Open Scope py_scope.

(** [set_with_tags]: the tags go under the shadow key [tags:{key}]. *)
Definition set_with_tags {Value} (codec : Codec Value (Text E))
    (tags_codec : Codec (list string) (Text E))
    (key : string) (value : Value) (tags : list string) (ttl : Z) : Prog E bool :=
  success <- cache_set E codec key value ttl ;;
  (if success : bool
   then let tag_key := "tags:" ++ key in
        cache_set E tags_codec tag_key tags ttl ;;; ret tt
   else ret tt) ;;;
  ret success.

(** [get_optimization_history]: [self.optimization_history[-limit:]], or the
    empty list when there is no history. *)
Definition get_optimization_history (limit : Z) : Prog E (list OptimizationRecord) :=
  history <- gets optimization_history ;;
  match history with
  | [] => ret []
  | _ :: _ => ret (py_slice_from (- limit) history)
  end.

Definition get_top_performing_approaches (limit : Z) : Prog E (list ApproachAverage) :=
  history <- gets optimization_history ;;
  match history with
  | [] => ret []
  | _ :: _ =>
      let approach_stats := group_by_approach history in
      let approach_averages := map approach_average approach_stats in
      let approach_averages := sorted_reverse avg_average_roi approach_averages in
      ret (py_slice_to limit approach_averages)
  end.

(** [get_performance_metrics]: a copy of the metrics. *)
Definition get_performance_metrics : Prog E PerformanceMetrics :=
  gets performance_metrics.

End MoreOperations.

(** The readings of the clock never go back. *)
Definition clock_monotone (E : Env) : Prop :=
  forall m n, (m <= n)%nat -> (clock E m <= clock E n)%Q.

(** The program leaves the component [f] of the state as it found it. *)
Definition preserves {S A X} (f : S -> X) (c : M S A) : Prop :=
  forall s r s', c s = (r, s') -> f s' = f s.




(** A world in which the key [k] was stored with a TTL of one hour. *)
Definition demo_cached_world : World (Text demo_env) :=
  snd (cache_set demo_env identity_codec "k" (to_dict demo_first_solution) 3600
                 initial_world).


(** ** More of the optimizer, for the properties below *)

(** The approaches from which the optimizer chooses for a scenario type: the
    baseline and the variants of the type. *)
Definition dispatch_approaches (scenario_type : string) : list string :=
  if String.eqb scenario_type "customer_issue" then
    ["standard"; "premium_customer"; "retention_focused"]
  else if String.eqb scenario_type "traffic_disruption" then
    ["standard"; "proactive_rerouting"; "fleet_optimization"]
  else if String.eqb scenario_type "driver_wellbeing" then
    ["standard"; "driver_support"; "team_collaboration"]
  else
    ["standard"; "innovation_focused"].

(** A candidate as the generator hands it out: it has an approach of the
    dispatch set, at least one action, no analysis yet, a predicted profit between 0 and
    120 and a confidence between 0.7 and 0.9. *)
Definition generated_candidate (scenario_type : string) (c : Candidate) : Prop :=
  (exists a, approach c = Some a /\ In a (dispatch_approaches scenario_type)) /\
  (exists l, actions c = Some l /\ l <> []) /\
  roi_analysis c = None /\
  (exists p, predicted_profit c = Some p /\ (0 <= p <= 120)%Q) /\
  (exists k, confidence c = Some k /\ (7 # 10 <= k <= 9 # 10)%Q).

(** The candidate [e] is the candidate [c] with its analysis attached: the
    cost and the immediate profit of the analysis are those of [c]. *)
Definition evaluates (scenario : Scenario) (c e : Candidate) : Prop :=
  exists r,
    e = with_roi_analysis r c /\
    total_cost r = _calculate_operational_costs c scenario /\
    immediate_profit r = default 0%Q (predicted_profit c).

(** The records of the history that used an approach, and the sum of their
    ROI percentages. *)
Definition records_of (approach : string) (history : list OptimizationRecord)
  : list OptimizationRecord :=
  List.filter (fun record => String.eqb (rec_approach record) approach) history.

Definition sum_roi (records : list OptimizationRecord) : Q :=
  fold_right (fun (record : OptimizationRecord) total =>
                (rec_roi_percentage record + total)%Q) 0%Q records.

(** What [approach_stats] holds once the records of [history] are counted:
    one entry per approach met, with the number and the ROI total of the
    records of that approach. *)
Definition counts (history : list OptimizationRecord)
    (approach_stats : list (string * (Q * Z))) : Prop :=
  List.NoDup (map fst approach_stats) /\
  (forall record, In record history ->
                  In (rec_approach record) (map fst approach_stats)) /\
  (forall a t c, In (a, (t, c)) approach_stats ->
     c = Z.of_nat (length (records_of a history)) /\
     (0 < c)%Z /\
     (t == sum_roi (records_of a history))%Q).

(** * Properties *)

(** ** Rationals *)

Lemma Qlt_bool_iff (x y : Q) : Qlt_bool x y = true <-> (x < y)%Q.
Proof.
  unfold Qlt_bool. rewrite negb_true_iff. split.
  - intros H. apply Qnot_le_lt. intros Hle.
    apply Qle_bool_iff in Hle. congruence.
  - intros H. destruct (Qle_bool y x) eqn:Hb; [|reflexivity].
    apply Qle_bool_iff in Hb. exfalso. exact (Qlt_not_le _ _ H Hb).
Qed.

Lemma Qlt_bool_false (x y : Q) : Qlt_bool x y = false <-> (y <= x)%Q.
Proof.
  unfold Qlt_bool. rewrite negb_false_iff. apply Qle_bool_iff.
Qed.

Lemma py_max_Qmax (a b : Q) : (py_max a b == Qmax a b)%Q.
Proof.
  unfold py_max. destruct (Qlt_bool a b) eqn:Hb.
  - apply Qlt_bool_iff in Hb. symmetry. apply Q.max_r. apply Qlt_le_weak, Hb.
  - apply Qlt_bool_false in Hb. symmetry. apply Q.max_l. exact Hb.
Qed.

(** [int] of a negative difference is not positive. *)
Lemma py_int_negative_difference (e now : Q) :
  (e < now)%Q -> (py_int (e - now) <= 0)%Z.
Proof.
  intros Hlt. unfold py_int.
  apply Z.quot_le_upper_bound; [reflexivity|].
  unfold Qlt in Hlt. unfold Qminus, Qplus, Qopp. simpl. lia.
Qed.

(** ** Operational cost *)

Lemma add_action_cost_fee (acc : Q) (a : Action) :
  (add_action_cost acc a == acc + action_fee a)%Q.
Proof.
  unfold add_action_cost, action_fee.
  destruct (action_costs !! default "" (type a)); simpl; ring.
Qed.

Lemma fold_add_action_cost (l : list Action) :
  forall acc, (fold_left add_action_cost l acc == acc + sum_fees l)%Q.
Proof.
  induction l as [|a l IH]; intros acc; simpl.
  - ring.
  - rewrite IH, add_action_cost_fee. ring.
Qed.

Lemma action_costs_nonneg (k : string) (c : Q) :
  action_costs !! k = Some c -> (0 <= c)%Q.
Proof.
  intros H. apply elem_of_list_to_map_2 in H.
  repeat (apply elem_of_cons in H as [H|H]; [inversion H; subst; discriminate|]).
  apply elem_of_nil in H. contradiction.
Qed.

Lemma action_fee_nonneg (a : Action) : (0 <= action_fee a)%Q.
Proof.
  unfold action_fee.
  destruct (action_costs !! default "" (type a)) eqn:H; simpl.
  - eapply action_costs_nonneg, H.
  - apply Qle_refl.
Qed.

Lemma sum_fees_nonneg (l : list Action) : (0 <= sum_fees l)%Q.
Proof.
  induction l as [|a l IH]; simpl.
  - apply Qle_refl.
  - replace 0%Q with (0 + 0)%Q by reflexivity.
    apply Qplus_le_compat; [apply action_fee_nonneg | exact IH].
Qed.

Lemma operational_costs_unfold (solution : Candidate) (scenario : Scenario) :
  (_calculate_operational_costs solution scenario ==
   10 + sum_fees (default [] (actions solution))
        * inject_Z (Z.max 1 (affected_deliveries scenario)))%Q.
Proof.
  unfold _calculate_operational_costs. rewrite fold_add_action_cost. ring.
Qed.

Lemma operational_costs_at_least_base (solution : Candidate) (scenario : Scenario) :
  (10 <= _calculate_operational_costs solution scenario)%Q.
Proof.
  rewrite operational_costs_unfold.
  rewrite <- (Qplus_0_r 10) at 1.
  apply Qplus_le_compat; [apply Qle_refl|].
  apply Qmult_le_0_compat; [apply sum_fees_nonneg|].
  change 0%Q with (inject_Z 0). rewrite <- Zle_Qle. lia.
Qed.

(** C3, as stated, fails: for the premium candidate and five affected
    deliveries the code charges 10 + 48 * 5 = 250, whereas the stated formula
    (base cost scaled too) gives (10 + 48) * 5 = 290. *)
Lemma operational_cost_base_not_scaled :
  _calculate_operational_costs demo_premium (demo_scenario 5) = 250%Q /\
  spec_operational_cost demo_premium (demo_scenario 5) = 290%Q /\
  ~ (_calculate_operational_costs demo_premium (demo_scenario 5)
     == spec_operational_cost demo_premium (demo_scenario 5))%Q.
Proof.
  split; [vm_compute; reflexivity|].
  split; [vm_compute; reflexivity|].
  intros H. vm_compute in H. discriminate H.
Qed.

(** C3 (amended): the operational cost is the fixed base cost 10 plus the sum
    of the per-action fees multiplied by [max(1, affected_deliveries)]; only
    the fees are scaled.  An action whose kind the cost table does not list
    leaves the cost unchanged. *)
Theorem operational_cost_formula :
  (forall solution scenario,
     (_calculate_operational_costs solution scenario ==
      10 + sum_fees (default [] (actions solution))
           * inject_Z (Z.max 1 (affected_deliveries scenario)))%Q) /\
  (forall a l ap p c t r scenario,
     action_costs !! default "" (type a) = None ->
     _calculate_operational_costs (mkCandidate ap (Some (a :: l)) p c t r) scenario =
     _calculate_operational_costs (mkCandidate ap (Some l) p c t r) scenario).
Proof.
  split.
  - apply operational_costs_unfold.
  - intros a l ap p c t r scenario Hnone.
    unfold _calculate_operational_costs. simpl.
    unfold add_action_cost at 2. rewrite Hnone. reflexivity.
Qed.

Lemma operational_cost_formula_witness :
  (_calculate_operational_costs demo_premium (demo_scenario 5) == 10 + 48 * 5)%Q /\
  _calculate_operational_costs
    (mkCandidate None (Some [act "notify" "Notify relevant parties"]) None None None None)
    (demo_scenario 5) =
  _calculate_operational_costs (mkCandidate None (Some []) None None None None)
    (demo_scenario 5).
Proof.
  split.
  - rewrite (proj1 operational_cost_formula demo_premium (demo_scenario 5)).
    vm_compute. reflexivity.
  - apply (proj2 operational_cost_formula). vm_compute. reflexivity.
Defined.

(** ** Return on investment *)

Section ROI.
Variable E : Env.

(** [_calculate_roi] always returns, and what it returns is determined by
    the two long-term impacts it drew. *)
Lemma _calculate_roi_returns solution scenario context (w : World (Text E)) :
  exists customer_ltv brand_impact w',
    _calculate_roi E solution scenario context w =
    (Returned
       (let operational_costs := _calculate_operational_costs solution scenario in
        let immediate_profit := default 0%Q (predicted_profit solution) in
        let long_term_profit := (customer_ltv + brand_impact)%Q in
        let total_profit := (immediate_profit + long_term_profit)%Q in
        let roi :=
          if Qlt_bool 0 operational_costs
          then ((total_profit - operational_costs) / py_max operational_costs 1)%Q
          else total_profit in
        mkROI immediate_profit long_term_profit operational_costs brand_impact
              customer_ltv total_profit operational_costs (roi * 100)%Q
              (_calculate_payback_period operational_costs long_term_profit)),
     w') /\
    cache_manager w' = cache_manager w /\
    performance_metrics w' = performance_metrics w /\
    ticks w' = ticks w.
Proof.
  unfold _calculate_roi, _get_customer_ltv_impact, _assess_brand_impact,
    bind, random_uniform, ret.
  repeat match goal with
         | |- context [if ?b then _ else _] =>
             match b with
             | String.eqb _ _ => destruct b
             | existsb _ _ => destruct b
             end
         end;
    simpl; eexists _, _, _; (split; [reflexivity|]); auto.
Qed.

(** C1: the analysis returned by the evaluator has
    [total_profit = immediate_profit + long_term_profit] and
    [total_cost = operational_costs]; when [total_cost > 0] its
    [roi_percentage] is [(total_profit - total_cost) / max(total_cost, 1)]
    times 100, and when [total_cost = 0] it is [total_profit] times 100.
    The evaluator always returns, and its [total_cost] is at least the base
    cost 10. *)
Theorem roi_percentage_formula solution scenario context (w : World (Text E)) :
  exists r w',
    _calculate_roi E solution scenario context w = (Returned r, w') /\
    total_cost r = _calculate_operational_costs solution scenario /\
    (10 <= total_cost r)%Q /\
    ((0 < total_cost r)%Q ->
     (roi_percentage r ==
      (total_profit r - total_cost r) / Qmax (total_cost r) 1 * 100)%Q) /\
    ((total_cost r == 0)%Q ->
     (roi_percentage r == total_profit r * 100)%Q).
Proof.
  destruct (_calculate_roi_returns solution scenario context w)
    as (ltv & brand & w' & Heq & _).
  eexists _, w'. split; [exact Heq|]. simpl.
  split; [reflexivity|].
  split; [apply operational_costs_at_least_base|].
  split.
  - intros Hpos. apply Qlt_bool_iff in Hpos. rewrite Hpos.
    rewrite py_max_Qmax. reflexivity.
  - intros Hzero.
    destruct (Qlt_bool 0 (_calculate_operational_costs solution scenario)) eqn:Hb;
      [|reflexivity].
    apply Qlt_bool_iff in Hb. rewrite Hzero in Hb.
    exfalso. exact (Qlt_irrefl 0 Hb).
Qed.
End ROI.

Lemma roi_percentage_formula_witness :
  exists r w',
    _calculate_roi demo_env demo_premium (demo_scenario 5) tt initial_world
    = (Returned r, w') /\
    total_cost r = _calculate_operational_costs demo_premium (demo_scenario 5) /\
    (10 <= total_cost r)%Q /\
    ((0 < total_cost r)%Q ->
     (roi_percentage r ==
      (total_profit r - total_cost r) / Qmax (total_cost r) 1 * 100)%Q) /\
    ((total_cost r == 0)%Q ->
     (roi_percentage r == total_profit r * 100)%Q).
Proof.
  exact (roi_percentage_formula demo_env demo_premium (demo_scenario 5) tt initial_world).
Defined.

(** ** Selection *)

Section Sorting.
Context {A : Type} (key : A -> Q).

Lemma sorted_reverse_cons (x : A) (l : list A) :
  sorted_reverse key (x :: l) = insert_desc key x (sorted_reverse key l).
Proof. reflexivity. Qed.

Lemma insert_desc_Permutation (x : A) (l : list A) :
  Permutation (insert_desc key x l) (x :: l).
Proof.
  induction l as [|y l IH]; simpl.
  - reflexivity.
  - destruct (Qlt_bool (key x) (key y)).
    + rewrite IH. apply perm_swap.
    + reflexivity.
Qed.

Lemma sorted_reverse_Permutation (l : list A) :
  Permutation (sorted_reverse key l) l.
Proof.
  induction l as [|x l IH].
  - reflexivity.
  - rewrite sorted_reverse_cons, insert_desc_Permutation, IH. reflexivity.
Qed.

Lemma sorted_reverse_nonempty (x : A) (l : list A) :
  sorted_reverse key (x :: l) <> [].
Proof.
  intros H. pose proof (sorted_reverse_Permutation (x :: l)) as HP.
  rewrite H in HP. apply Permutation_nil in HP. discriminate HP.
Qed.

Lemma insert_desc_Sorted (x : A) (l : list A) :
  Sorted (descending key) l -> Sorted (descending key) (insert_desc key x l).
Proof.
  induction 1 as [|y l Hs IH Hhd]; simpl.
  - repeat constructor.
  - destruct (Qlt_bool (key x) (key y)) eqn:Hb.
    + constructor; [exact IH|].
      destruct l as [|z l]; simpl.
      * constructor. apply Qlt_bool_iff in Hb. apply Qlt_le_weak, Hb.
      * destruct (Qlt_bool (key x) (key z)).
        -- constructor. inversion Hhd; assumption.
        -- constructor. apply Qlt_bool_iff in Hb. apply Qlt_le_weak, Hb.
    + constructor; [constructor; assumption|].
      constructor. apply Qlt_bool_false in Hb. exact Hb.
Qed.

Lemma sorted_reverse_Sorted (l : list A) : Sorted (descending key) (sorted_reverse key l).
Proof.
  induction l as [|x l IH].
  - constructor.
  - rewrite sorted_reverse_cons. apply insert_desc_Sorted, IH.
Qed.

(** The head of the sorted list is the first element of maximal key. *)
Lemma sorted_reverse_head (l : list A) :
  l <> [] ->
  exists l1 best l2 rest,
    l = (l1 ++ best :: l2)%list /\
    sorted_reverse key l = best :: rest /\
    Forall (fun x => key x < key best)%Q l1 /\
    Forall (fun x => key x <= key best)%Q l2.
Proof.
  induction l as [|x l IH]; [congruence|]. intros _.
  destruct l as [|y l].
  - exists [], x, [], []. repeat split; constructor.
  - destruct IH as (l1 & best & l2 & rest & Hl & Hs & H1 & H2); [discriminate|].
    rewrite sorted_reverse_cons, Hs. simpl.
    destruct (Qlt_bool (key x) (key best)) eqn:Hb.
    + apply Qlt_bool_iff in Hb.
      exists (x :: l1), best, l2, (insert_desc key x rest).
      rewrite Hl. repeat split; auto.
    + apply Qlt_bool_false in Hb.
      exists [], x, (y :: l), (best :: rest).
      repeat split; auto. rewrite Hl.
      apply Forall_app. split.
      * eapply Forall_impl; [exact H1|]. simpl. intros a Ha.
        apply Qlt_le_weak. eapply Qlt_le_trans; eauto.
      * constructor; [exact Hb|].
        eapply Forall_impl; [exact H2|]. simpl. intros a Ha.
        eapply Qle_trans; eauto.
Qed.
End Sorting.

(** C4: on a non-empty sequence the Selector returns a candidate of maximal
    ROI percentage, and of those the one generated first: every candidate
    before it has a strictly smaller ROI percentage and every candidate after
    it has one that is not greater. *)
Theorem select_best_first_maximum (candidates : list Candidate) :
  candidates <> [] ->
  exists l1 best l2,
    candidates = (l1 ++ best :: l2)%list /\
    _select_best_solution candidates = Returned best /\
    Forall (fun x => roi_key x < roi_key best)%Q l1 /\
    Forall (fun x => roi_key x <= roi_key best)%Q l2.
Proof.
  intros Hne.
  destruct (sorted_reverse_head roi_key candidates Hne)
    as (l1 & best & l2 & rest & Hl & Hs & H1 & H2).
  exists l1, best, l2. repeat split; auto.
  unfold _select_best_solution. rewrite Hs.
  destruct candidates; [congruence|reflexivity].
Qed.

Lemma select_best_first_maximum_witness :
  exists l1 best l2,
    [with_roi "a" 12; with_roi "b" (455 # 10); with_roi "c" (455 # 10)]
    = (l1 ++ best :: l2)%list /\
    _select_best_solution
      [with_roi "a" 12; with_roi "b" (455 # 10); with_roi "c" (455 # 10)]
    = Returned best /\
    Forall (fun x => roi_key x < roi_key best)%Q l1 /\
    Forall (fun x => roi_key x <= roi_key best)%Q l2.
Proof.
  apply select_best_first_maximum. discriminate.
Defined.

(** The tie of the specification: ROI percentages 12.0, 45.5, 45.5. *)
Example select_best_tie :
  _select_best_solution
    [with_roi "a" 12; with_roi "b" (455 # 10); with_roi "c" (455 # 10)]
  = Returned (with_roi "b" (455 # 10)).
Proof. vm_compute. reflexivity. Qed.

Lemma select_best_returns (candidates : list Candidate) :
  exists best, _select_best_solution candidates = Returned best.
Proof.
  unfold _select_best_solution. destruct candidates as [|c l].
  - eexists. reflexivity.
  - destruct (sorted_reverse roi_key (c :: l)) eqn:Hs.
    + exfalso. exact (sorted_reverse_nonempty roi_key c l Hs).
    + eexists. reflexivity.
Qed.

(** C9, as stated, fails: on the empty sequence the Selector raises nothing;
    it returns the empty dict. *)
Lemma select_empty_does_not_fail :
  _select_best_solution [] = Returned empty_dict /\
  ~ (exists e, _select_best_solution [] = Raised e).
Proof.
  split; [reflexivity|]. intros [e He]. discriminate He.
Qed.

(** C9 (amended): given an empty candidate sequence the Selector returns the
    empty dict in place of a candidate; it raises on no input at all. *)
Theorem select_empty_returns_empty_dict :
  _select_best_solution [] = Returned empty_dict /\
  (forall candidates e, _select_best_solution candidates <> Raised e).
Proof.
  split; [reflexivity|].
  intros candidates e H.
  destruct (select_best_returns candidates) as [best Hb]. congruence.
Qed.

(** ** Strings *)

Lemma py_in_unfold (w text : string) :
  py_in w text =
  starts_with w text ||
  match text with
  | EmptyString => false
  | String _ text' => py_in w text'
  end.
Proof. destruct text; reflexivity. Qed.

Lemma append_nil_l (s : string) : "" ++ s = s.
Proof. reflexivity. Qed.

Lemma append_cons_l (a : ascii) (s t : string) : String a s ++ t = String a (s ++ t).
Proof. reflexivity. Qed.

Lemma starts_with_app (w post : string) : starts_with w (w ++ post) = true.
Proof.
  induction w as [|a w IH].
  - reflexivity.
  - rewrite append_cons_l. simpl. rewrite Ascii.eqb_refl. exact IH.
Qed.

Lemma py_in_app (pre w post : string) : py_in w (pre ++ w ++ post) = true.
Proof.
  induction pre as [|a pre IH].
  - rewrite append_nil_l, py_in_unfold, starts_with_app. reflexivity.
  - rewrite append_cons_l. simpl. rewrite IH. apply orb_true_r.
Qed.

Lemma lower_app (a b : string) : lower (a ++ b) = lower a ++ lower b.
Proof.
  induction a as [|c a IH].
  - reflexivity.
  - rewrite append_cons_l. simpl. rewrite IH. reflexivity.
Qed.

Lemma mentions_py_in (text keyword : string) :
  mentions text keyword -> py_in keyword (lower text) = true.
Proof.
  intros (pre & occ & post & -> & <-).
  rewrite !lower_app. apply py_in_app.
Qed.

Lemma any_in_intro (words : list string) (text word : string) :
  In word words -> py_in word text = true -> any_in words text = true.
Proof.
  intros Hin Hw. unfold any_in. apply existsb_exists. eauto.
Qed.

Lemma is_space_not_upper (c : ascii) : is_space c = true -> lower_ascii c = c.
Proof.
  destruct c as [[] [] [] [] [] [] [] []]; vm_compute; congruence.
Qed.

Lemma lower_blank (s : string) : is_blank s = true -> lower s = s.
Proof.
  induction s as [|c s IH]; simpl; [reflexivity|].
  intros [Hc Hs]%andb_true_iff.
  rewrite (is_space_not_upper c Hc), (IH Hs). reflexivity.
Qed.

Lemma starts_with_blank (a : ascii) (w s : string) :
  is_space a = false -> is_blank s = true -> starts_with (String a w) s = false.
Proof.
  intros Ha Hs. destruct s as [|b s]; simpl; [reflexivity|].
  simpl in Hs. apply andb_true_iff in Hs as [Hb _].
  destruct (Ascii.eqb a b) eqn:Hab; [|reflexivity].
  apply Ascii.eqb_eq in Hab. congruence.
Qed.

Lemma py_in_blank (a : ascii) (w s : string) :
  is_space a = false -> is_blank s = true -> py_in (String a w) s = false.
Proof.
  intros Ha. induction s as [|b s IH]; intros Hs.
  - reflexivity.
  - rewrite py_in_unfold, (starts_with_blank a w _ Ha Hs). simpl.
    simpl in Hs. apply andb_true_iff in Hs as [_ Hs]. exact (IH Hs).
Qed.

(** ** Classification *)

Lemma classify_blank (text : string) :
  is_blank text = true -> _classify_scenario text = "general_disruption".
Proof.
  intros Hb. unfold _classify_scenario, any_in. rewrite (lower_blank text Hb).
  simpl. rewrite !py_in_blank by (reflexivity || exact Hb). reflexivity.
Qed.

(** C7: classification checks the keyword categories in the order traffic,
    customer, driver, environmental, returns the first category one of whose
    keywords occurs in the lower-cased text and [general_disruption] when
    none does; so a text that mentions a traffic keyword and a customer
    keyword is a [traffic_disruption]. *)
Theorem classify_priority :
  (forall text, _classify_scenario text = spec_classify text) /\
  (forall text traffic_word customer_word,
      In traffic_word traffic_keywords ->
      In customer_word customer_keywords ->
      mentions text traffic_word ->
      mentions text customer_word ->
      _classify_scenario text = "traffic_disruption").
Proof.
  split.
  - intros text. reflexivity.
  - intros text tw cw Ht _ Hmt _.
    pose proof (any_in_intro _ _ tw Ht (mentions_py_in _ _ Hmt)) as Hany.
    unfold traffic_keywords in Hany.
    unfold _classify_scenario. rewrite Hany. reflexivity.
Qed.

Lemma classify_priority_witness :
  _classify_scenario "Angry customer after ACCIDENT on the ring road"
  = "traffic_disruption".
Proof.
  apply (proj2 classify_priority _ "accident" "angry").
  - simpl. auto.
  - simpl. auto.
  - exists "Angry customer after ", "ACCIDENT", " on the ring road".
    split; reflexivity.
  - exists "", "Angry", " customer after ACCIDENT on the ring road".
    split; reflexivity.
Defined.

(** A customer keyword alone gives [customer_issue]; no keyword at all gives
    [general_disruption]. *)
Example classify_examples :
  _classify_scenario "The customer is angry" = "customer_issue" /\
  _classify_scenario "Driver sounds tired" = "driver_wellbeing" /\
  _classify_scenario "Heavy storm expected" = "environmental" /\
  _classify_scenario "Parcel lost" = "general_disruption".
Proof. repeat split; vm_compute; reflexivity. Qed.

(** ** Affected deliveries *)

Lemma findall_skip_prefix (pre s : string) :
  has_digit pre = false ->
  findall_digits_from (pre ++ s) None = findall_digits_from s None.
Proof.
  induction pre as [|c pre IH]; intros H.
  - reflexivity.
  - simpl in H. apply orb_false_iff in H as [Hc Hp].
    rewrite append_cons_l. simpl. rewrite Hc. exact (IH Hp).
Qed.

Lemma append_snoc (r : string) (c : ascii) (s : string) :
  snoc r c ++ s = r ++ String c s.
Proof.
  unfold snoc. induction r as [|a r IH].
  - reflexivity.
  - rewrite !append_cons_l, IH. reflexivity.
Qed.

Lemma append_nil_r (s : string) : s ++ "" = s.
Proof.
  induction s as [|a s IH]; [reflexivity|].
  rewrite append_cons_l, IH. reflexivity.
Qed.

Lemma findall_read_run (ds s : string) :
  all_digits ds = true ->
  forall run,
    ds <> "" \/ run <> None ->
    findall_digits_from (ds ++ s) run =
    findall_digits_from s (Some (default "" run ++ ds)).
Proof.
  induction ds as [|c ds IH]; intros Hd run Hne.
  - destruct Hne as [Hne|Hne]; [congruence|].
    destruct run as [r|]; [|congruence].
    simpl. rewrite append_nil_r. reflexivity.
  - simpl in Hd. apply andb_true_iff in Hd as [Hc Hd].
    rewrite append_cons_l. simpl. rewrite Hc.
    rewrite (IH Hd (Some (snoc (default "" run) c))) by (right; discriminate).
    simpl. rewrite append_snoc. reflexivity.
Qed.

Lemma findall_close_run (rest r : string) :
  no_leading_digit rest = true ->
  exists more, findall_digits_from rest (Some r) = r :: more.
Proof.
  destruct rest as [|c rest]; simpl; intros H.
  - eexists. reflexivity.
  - apply negb_true_iff in H. rewrite H. eexists. reflexivity.
Qed.

(** The first match of [\d+] is the first maximal run of digits. *)
Lemma findall_digits_first (pre ds rest : string) :
  has_digit pre = false -> ds <> "" -> all_digits ds = true ->
  no_leading_digit rest = true ->
  exists more, findall_digits (pre ++ ds ++ rest) = ds :: more.
Proof.
  intros Hpre Hne Hds Hrest. unfold findall_digits.
  rewrite (findall_skip_prefix _ _ Hpre).
  rewrite (findall_read_run _ _ Hds None) by (left; exact Hne).
  simpl. rewrite append_nil_l. apply findall_close_run, Hrest.
Qed.

Lemma findall_digits_none (s : string) :
  has_digit s = false -> findall_digits s = [].
Proof.
  unfold findall_digits. induction s as [|c s IH]; simpl; intros H.
  - reflexivity.
  - apply orb_false_iff in H as [Hc Hs]. rewrite Hc. exact (IH Hs).
Qed.

Lemma digit_value_range (c : ascii) :
  is_digit c = true -> (0 <= digit_value c <= 9)%Z.
Proof.
  unfold is_digit, digit_value.
  intros [H1 H2]%andb_true_iff.
  apply Nat.leb_le in H1, H2. lia.
Qed.

Lemma int_of_digits_from_nonneg (s : string) :
  all_digits s = true ->
  forall acc, (0 <= acc)%Z -> (0 <= int_of_digits_from acc s)%Z.
Proof.
  induction s as [|c s IH]; simpl; intros Hd acc Hacc.
  - exact Hacc.
  - apply andb_true_iff in Hd as [Hc Hd].
    apply (IH Hd). pose proof (digit_value_range c Hc). lia.
Qed.

(** C8, as stated, fails on its second half: the literal [0] is returned as
    it is, and it is not positive. *)
Lemma affected_deliveries_zero_literal :
  fst (_estimate_affected_deliveries demo_env "0 deliveries affected" initial_world)
  = Returned 0%Z /\
  ~ (forall E text w n w',
       _estimate_affected_deliveries E text w = (Returned n, w') -> (0 < n)%Z).
Proof.
  split; [vm_compute; reflexivity|].
  intros H.
  specialize (H demo_env "0 deliveries affected" initial_world 0%Z initial_world).
  assert (Hpos : (0 < 0)%Z) by (apply H; vm_compute; reflexivity).
  lia.
Qed.

(** C8 (amended): when the text holds an integer literal, the affected units
    are the value of the first one (the first maximal run of digits), a
    non-negative integer that is zero when the literal is; no random draw is
    made.  When the text holds no literal, the affected units are a positive
    integer, between 1 and 7. *)
Theorem affected_deliveries_first_literal (E : Env) :
  randint_in_range E ->
  (forall pre ds rest (w : World (Text E)),
      has_digit pre = false -> ds <> "" -> all_digits ds = true ->
      no_leading_digit rest = true ->
      _estimate_affected_deliveries E (pre ++ ds ++ rest) w
      = (Returned (int_of_digits ds), w) /\
      (0 <= int_of_digits ds)%Z) /\
  (forall text (w : World (Text E)),
      has_digit text = false ->
      exists n w',
        _estimate_affected_deliveries E text w = (Returned n, w') /\
        (1 <= n <= 7)%Z).
Proof.
  intros Hrand. split.
  - intros pre ds rest w Hpre Hne Hds Hrest.
    destruct (findall_digits_first pre ds rest Hpre Hne Hds Hrest) as [more Hf].
    split.
    + unfold _estimate_affected_deliveries. rewrite Hf. reflexivity.
    + apply int_of_digits_from_nonneg; [exact Hds|lia].
  - intros text w Hnone.
    unfold _estimate_affected_deliveries.
    rewrite (findall_digits_none text Hnone).
    destruct (any_in ["major"; "highway"; "multiple"] (lower text)).
    + eexists _, _. split; [reflexivity|].
      pose proof (Hrand (draws w) 3 8 ltac:(lia))%Z. lia.
    + destruct (any_in ["single"; "one"; "individual"] (lower text)).
      * eexists _, _. split; [reflexivity|]. lia.
      * eexists _, _. split; [reflexivity|].
        pose proof (Hrand (draws w) 1 4 ltac:(lia))%Z. lia.
Qed.

Lemma demo_randint_in_range : randint_in_range demo_env.
Proof. intros n lo hi H. simpl. lia. Qed.

Lemma affected_deliveries_first_literal_witness :
  _estimate_affected_deliveries demo_env
    ("Major accident on Highway " ++ "1" ++ " affects 5 active deliveries")
    initial_world
  = (Returned 1%Z, initial_world).
Proof.
  apply (proj1 (affected_deliveries_first_literal demo_env demo_randint_in_range)
               "Major accident on Highway " "1" " affects 5 active deliveries"
               initial_world);
    [reflexivity | discriminate | reflexivity | reflexivity].
Defined.

(** ** Running programs *)

Section MonadLaws.
Context {S A B : Type}.

Lemma bind_returned (c : M S A) (k : A -> M S B) (s s1 : S) (a : A) :
  c s = (Returned a, s1) -> bind c k s = k a s1.
Proof. intros H. unfold bind. rewrite H. reflexivity. Qed.


Lemma bind_inv (c : M S A) (k : A -> M S B) (s s' : S) (b : B) :
  bind c k s = (Returned b, s') ->
  exists a s1, c s = (Returned a, s1) /\ k a s1 = (Returned b, s').
Proof.
  unfold bind. destruct (c s) as [[a|e] s1]; intros H.
  - eauto.
  - discriminate H.
Qed.

Lemma bind_gets (f : S -> A) (k : A -> M S B) (s : S) :
  bind (gets f) k s = k (f s) s.
Proof. reflexivity. Qed.

Lemma bind_ret (a : A) (k : A -> M S B) (s : S) : bind (ret a) k s = k a s.
Proof. reflexivity. Qed.

Lemma try_except_returned (c : M S A) (h : PyExn -> M S A) (s s' : S) (a : A) :
  c s = (Returned a, s') -> try_except c h s = (Returned a, s').
Proof. intros H. unfold try_except. rewrite H. reflexivity. Qed.
End MonadLaws.

Lemma bind_modify {S B} (f : S -> S) (k : unit -> M S B) (s : S) :
  bind (modify f) k s = k tt (f s).
Proof. reflexivity. Qed.

(** ** The cache *)

Section CacheProperties.
Variable E : Env.
Implicit Types (w : World (Text E)) (key : string) (e : Q).

Lemma _is_expired_past w key e :
  expiry_times (cache_manager w) !! key = Some (Some e) ->
  (e < clock E (ticks w))%Q ->
  _is_expired E key w = (Returned true, with_ticks (S (ticks w)) w).
Proof.
  intros He Hlt. unfold _is_expired, bind, gets, time_time, ret.
  rewrite He. apply Qlt_bool_iff in Hlt. rewrite Hlt. reflexivity.
Qed.

Lemma _is_expired_within w key e :
  expiry_times (cache_manager w) !! key = Some (Some e) ->
  (clock E (ticks w) <= e)%Q ->
  _is_expired E key w = (Returned false, with_ticks (S (ticks w)) w).
Proof.
  intros He Hle. unfold _is_expired, bind, gets, time_time, ret.
  rewrite He. apply Qlt_bool_false in Hle. rewrite Hle. reflexivity.
Qed.

Lemma _is_expired_no_expiry w key :
  expiry_times (cache_manager w) !! key = None \/
  expiry_times (cache_manager w) !! key = Some None ->
  _is_expired E key w = (Returned false, w).
Proof.
  intros He. unfold _is_expired. rewrite bind_gets.
  destruct He as [He|He]; rewrite He; reflexivity.
Qed.

(** [delete] on a key that is stored: afterwards the key is in neither
    [cache] nor [expiry_times], and only the [deletes] counter may move. *)
Lemma cache_delete_stored w key t oe :
  cache (cache_manager w) !! key = Some t ->
  expiry_times (cache_manager w) !! key = Some oe ->
  exists b w',
    cache_delete E key w = (Returned b, w') /\
    cache (cache_manager w') !! key = None /\
    expiry_times (cache_manager w') !! key = None /\
    hits (stats (cache_manager w')) = hits (stats (cache_manager w)) /\
    misses (stats (cache_manager w')) = misses (stats (cache_manager w)) /\
    sets (stats (cache_manager w')) = sets (stats (cache_manager w)).
Proof.
  intros Hc He.
  unfold cache_delete, del_in, dict_del, update_cache.
  unfold try_except, bind, gets, modify, raise, ret.
  rewrite !Hc. simpl. rewrite !He. simpl.
  destruct (access_times (cache_manager w) !! key) eqn:Ha; simpl;
    eexists _, _; (split; [reflexivity|]); simpl;
    rewrite !lookup_delete_eq; auto.
Qed.

(** When a stored key carries an expiry instant that the clock has passed,
    [get] returns nothing, removes the entry from the cache and from the
    expiry map, and adds exactly one to [misses]; [hits] does not move. *)
Lemma cache_get_expired {Value} (codec : Codec Value (Text E)) w key t e :
  cache (cache_manager w) !! key = Some t ->
  expiry_times (cache_manager w) !! key = Some (Some e) ->
  (e < clock E (ticks w))%Q ->
  exists w',
    cache_get E codec key w = (Returned None, w') /\
    cache (cache_manager w') !! key = None /\
    expiry_times (cache_manager w') !! key = None /\
    misses (stats (cache_manager w')) = (misses (stats (cache_manager w)) + 1)%Z /\
    hits (stats (cache_manager w')) = hits (stats (cache_manager w)).
Proof.
  intros Hc He Hlt.
  destruct (cache_delete_stored (with_ticks (S (ticks w)) w) key t (Some e) Hc He)
    as (b & w1 & Hdel & Hc1 & He1 & Hh & Hm & _).
  eexists. split.
  - unfold cache_get. apply try_except_returned.
    rewrite bind_gets, Hc.
    rewrite (bind_returned _ _ _ _ _ (_is_expired_past w key e He Hlt)).
    rewrite (bind_returned _ _ _ _ _ Hdel).
    unfold update_cache. rewrite bind_modify. reflexivity.
  - simpl. rewrite Hh, Hm. auto.
Qed.

(** [set] with a positive TTL stores the key with the expiry instant
    [now + ttl]. *)
Lemma cache_set_positive_ttl {Value} (codec : Codec Value (Text E)) w key value ttl :
  (0 < ttl)%Z ->
  exists w',
    cache_set E codec key value ttl w = (Returned true, w') /\
    cache (cache_manager w') !! key = Some (_serialize_value E codec value) /\
    expiry_times (cache_manager w') !! key
    = Some (Some (clock E (ticks w) + inject_Z ttl)%Q) /\
    ticks w' = (2 + ticks w)%nat /\
    draws w' = draws w /\
    hits (stats (cache_manager w')) = hits (stats (cache_manager w)) /\
    misses (stats (cache_manager w')) = misses (stats (cache_manager w)).
Proof.
  intros Httl. apply Z.ltb_lt in Httl.
  unfold cache_set, update_cache. rewrite Httl.
  unfold try_except, bind, modify, time_time, ret. simpl.
  eexists. split; [reflexivity|]. simpl.
  rewrite !lookup_insert_eq. repeat split; reflexivity.
Qed.

(** C6: store a key with a positive TTL; the expiry instant is the clock
    reading of the [set] plus the TTL.  In any later world where the entry is
    untouched, a [get] whose clock reading is past that instant returns
    nothing, removes the entry from the cache and from the expiry map, and
    adds exactly one to [misses]; [hits] does not move. *)
Theorem get_after_expiry {Value} (codec : Codec Value (Text E)) w0 key value ttl w1 w :
  (0 < ttl)%Z ->
  cache_set E codec key value ttl w0 = (Returned true, w1) ->
  cache (cache_manager w) !! key = cache (cache_manager w1) !! key ->
  expiry_times (cache_manager w) !! key = expiry_times (cache_manager w1) !! key ->
  (clock E (ticks w0) + inject_Z ttl < clock E (ticks w))%Q ->
  exists w',
    cache_get E codec key w = (Returned None, w') /\
    cache (cache_manager w') !! key = None /\
    expiry_times (cache_manager w') !! key = None /\
    misses (stats (cache_manager w')) = (misses (stats (cache_manager w)) + 1)%Z /\
    hits (stats (cache_manager w')) = hits (stats (cache_manager w)).
Proof.
  intros Httl Hset Hc He Hlt.
  destruct (cache_set_positive_ttl codec w0 key value ttl Httl)
    as (w1' & Hset' & Hc1 & He1 & _).
  rewrite Hset in Hset'. injection Hset' as <-.
  rewrite Hc1 in Hc. rewrite He1 in He.
  exact (cache_get_expired codec w key _ _ Hc He Hlt).
Qed.

(** C10: on a stored key whose expiry instant has passed, [ttl] returns 0
    and leaves the cache manager as it was: the entry stays stored and no
    counter moves.  More generally [ttl] never changes the cache manager. *)
Theorem ttl_of_expired_entry w key t e :
  cache (cache_manager w) !! key = Some t ->
  expiry_times (cache_manager w) !! key = Some (Some e) ->
  (e < clock E (ticks w))%Q ->
  (exists w',
     cache_ttl E key w = (Returned 0%Z, w') /\
     cache_manager w' = cache_manager w /\
     cache (cache_manager w') !! key = Some t /\
     stats (cache_manager w') = stats (cache_manager w)) /\
  (forall key0 w0, cache_manager (snd (cache_ttl E key0 w0)) = cache_manager w0).
Proof.
  intros Hc He Hlt. split.
  - unfold cache_ttl. rewrite bind_gets, Hc, He.
    unfold bind, time_time, ret.
    exists (with_ticks (S (ticks w)) w). split; [|simpl; auto].
    f_equal. f_equal. apply Z.max_l.
    apply py_int_negative_difference, Hlt.
  - intros key0 w0. unfold cache_ttl. rewrite bind_gets.
    destruct (cache (cache_manager w0) !! key0); [|reflexivity].
    destruct (expiry_times (cache_manager w0) !! key0) as [[e0|]|]; reflexivity.
Qed.
End CacheProperties.

Lemma get_after_expiry_witness :
  exists w',
    cache_get demo_env identity_codec "k" demo_stored_world = (Returned None, w') /\
    cache (cache_manager w') !! "k" = None /\
    expiry_times (cache_manager w') !! "k" = None /\
    misses (stats (cache_manager w'))
    = (misses (stats (cache_manager demo_stored_world)) + 1)%Z /\
    hits (stats (cache_manager w')) = hits (stats (cache_manager demo_stored_world)).
Proof.
  apply (get_after_expiry demo_env identity_codec initial_world "k"
           (to_dict demo_first_solution) 1 demo_stored_world demo_stored_world);
    vm_compute; reflexivity.
Defined.

Lemma ttl_of_expired_entry_witness :
  exists w',
    cache_ttl demo_env "k" demo_stored_world = (Returned 0%Z, w') /\
    cache_manager w' = cache_manager demo_stored_world /\
    cache (cache_manager w') !! "k" = Some (to_dict demo_first_solution) /\
    stats (cache_manager w') = stats (cache_manager demo_stored_world).
Proof.
  apply (ttl_of_expired_entry demo_env demo_stored_world "k"
           (to_dict demo_first_solution) 1700000001%Q);
    vm_compute; reflexivity.
Defined.

(** ** Programs that always return *)

Section Returns.
Context {S A B : Type}.

Lemma returns_ret (a : A) : returns (ret a : M S A).
Proof. intros s. eexists _, _. reflexivity. Qed.

Lemma returns_gets (f : S -> A) : returns (gets f).
Proof. intros s. eexists _, _. reflexivity. Qed.

Lemma returns_bind (c : M S A) (k : A -> M S B) :
  returns c -> (forall a, returns (k a)) -> returns (bind c k).
Proof.
  intros Hc Hk s. destruct (Hc s) as (a & s1 & Ha).
  rewrite (bind_returned _ _ _ _ _ Ha). apply Hk.
Qed.

Lemma returns_try_except (c : M S A) (h : PyExn -> M S A) :
  (forall e, returns (h e)) -> returns (try_except c h).
Proof.
  intros Hh s. unfold try_except.
  destruct (c s) as [[a|e] s1].
  - eexists _, _. reflexivity.
  - apply Hh.
Qed.
End Returns.

Lemma returns_modify {S} (f : S -> S) : returns (modify f).
Proof. intros s. eexists _, _. reflexivity. Qed.

Section PipelineReturns.
Variable E : Env.

Lemma time_time_eq (w : World (Text E)) :
  time_time E w = (Returned (clock E (ticks w)), with_ticks (S (ticks w)) w).
Proof. reflexivity. Qed.

Lemma returns_time_time : returns (time_time E).
Proof. intros w. eexists _, _. reflexivity. Qed.

Lemma returns_random_uniform a b : returns (random_uniform E a b).
Proof. intros w. eexists _, _. reflexivity. Qed.

Lemma returns_for_each {A B} (f : A -> Prog E B) (l : list A) :
  (forall x, returns (f x)) -> returns (for_each E f l).
Proof.
  intros Hf. induction l as [|x l IH]; simpl.
  - apply returns_ret.
  - apply returns_bind; [apply Hf|]. intros y.
    apply returns_bind; [exact IH|]. intros ys. apply returns_ret.
Qed.

Ltac returns_step :=
  first [ apply returns_ret
        | apply returns_time_time
        | apply returns_random_uniform
        | apply returns_modify
        | apply returns_gets
        | apply returns_bind; [|intros ?] ].

Lemma returns_generate_solution_candidates scenario context :
  returns (_generate_solution_candidates E scenario context).
Proof.
  unfold _generate_solution_candidates.
  apply returns_bind; [|intros more; apply returns_ret].
  unfold _generate_customer_solutions, _generate_traffic_solutions,
    _generate_driver_solutions, _generate_general_solutions.
  repeat match goal with
         | |- context [if ?b then _ else _] => destruct b
         end;
    repeat returns_step.
Qed.

Lemma returns_calculate_roi solution scenario context :
  returns (_calculate_roi E solution scenario context).
Proof.
  intros w.
  destruct (_calculate_roi_returns E solution scenario context w)
    as (ltv & brand & w' & Heq & _).
  eauto.
Qed.

Lemma returns_optimize scenario context : returns (optimize E scenario context).
Proof.
  unfold optimize.
  apply returns_bind; [apply returns_time_time|]. intros start_time.
  apply returns_bind; [apply returns_generate_solution_candidates|]. intros candidates.
  apply returns_bind.
  { apply returns_for_each. intros c.
    apply returns_bind; [apply returns_calculate_roi|]. intros r. apply returns_ret. }
  intros evaluated.
  destruct (select_best_returns evaluated) as [best Hbest]. rewrite Hbest. simpl.
  unfold _update_optimization_metrics, _record_optimization.
  repeat returns_step.
Qed.

(** The explanation step returns, and what it returns is not marked as a
    cache hit. *)
Lemma _execute_with_reasoning_returns scenario solution context (w : World (Text E)) :
  exists sol w',
    _execute_with_reasoning E scenario solution context w = (Returned sol, w') /\
    cache_hit sol = false.
Proof.
  unfold _execute_with_reasoning.
  match goal with
  | |- context [bind (try_except ?c ?h) ?k] =>
      destruct (returns_try_except c h (fun _ => returns_ret _) w)
        as (explained & w1 & Hx);
      rewrite (bind_returned _ k _ _ _ Hx)
  end.
  rewrite (bind_returned _ _ _ _ _ (time_time_eq w1)).
  eexists _, _. split; reflexivity.
Qed.

(** Creating the scenario returns; the identifier is the digest prefix of
    the text and the cache manager is not touched. *)
Lemma _create_scenario_returns text (w : World (Text E)) :
  exists scenario w',
    _create_scenario E text w = (Returned scenario, w') /\
    scenario_key scenario = text_key E text /\
    scenario_type scenario = _classify_scenario text /\
    cache_manager w' = cache_manager w /\
    ticks w' = S (ticks w).
Proof.
  unfold _create_scenario, _assess_severity, _estimate_affected_deliveries.
  unfold bind, random_uniform, np_random_randint, time_time, ret.
  repeat match goal with
         | |- context [if ?b then _ else _] => destruct b
         end;
    destruct (findall_digits text);
    repeat match goal with
         | |- context [if ?b then _ else _] => destruct b
         end;
    eexists _, _; (split; [reflexivity|]); repeat split; reflexivity.
Qed.
End PipelineReturns.

(** ** The orchestrator and its cache *)

Section Resolve.
Variable E : Env.
Implicit Types (w : World (Text E)) (key : string).

Lemma cache_get_absent {Value} (codec : Codec Value (Text E)) w key :
  cache (cache_manager w) !! key = None ->
  exists w',
    cache_get E codec key w = (Returned None, w') /\
    cache (cache_manager w') = cache (cache_manager w).
Proof.
  intros Hc. unfold cache_get. eexists. split.
  - apply try_except_returned. rewrite bind_gets, Hc. reflexivity.
  - reflexivity.
Qed.

(** A stored entry that is not past its expiry instant is a hit: [get]
    returns the deserialized text and keeps the entry. *)
Lemma cache_get_hit {Value} (codec : Codec Value (Text E)) w key t :
  cache (cache_manager w) !! key = Some t ->
  (forall e, expiry_times (cache_manager w) !! key = Some (Some e) ->
             (clock E (ticks w) <= e)%Q) ->
  exists w',
    cache_get E codec key w
    = (Returned (Some (_deserialize_value E codec t)), w') /\
    cache (cache_manager w') = cache (cache_manager w) /\
    expiry_times (cache_manager w') = expiry_times (cache_manager w) /\
    hits (stats (cache_manager w')) = (hits (stats (cache_manager w)) + 1)%Z.
Proof.
  intros Hc Hfresh. unfold cache_get.
  destruct (expiry_times (cache_manager w) !! key) as [[e|]|] eqn:He.
  - eexists. split.
    + apply try_except_returned. rewrite bind_gets, Hc.
      rewrite (bind_returned _ _ _ _ _ (_is_expired_within E w key e He (Hfresh e eq_refl))).
      reflexivity.
    + repeat split; reflexivity.
  - eexists. split.
    + apply try_except_returned. rewrite bind_gets, Hc.
      rewrite (bind_returned _ _ _ _ _ (_is_expired_no_expiry E w key (or_intror He))).
      reflexivity.
    + repeat split; reflexivity.
  - eexists. split.
    + apply try_except_returned. rewrite bind_gets, Hc.
      rewrite (bind_returned _ _ _ _ _ (_is_expired_no_expiry E w key (or_introl He))).
      reflexivity.
    + repeat split; reflexivity.
Qed.

(** When [get] returns a value, the key was stored, the value is the
    deserialized text, and the entry is kept. *)
Lemma cache_get_inv {Value} (codec : Codec Value (Text E)) w key v w' :
  cache_get E codec key w = (Returned (Some v), w') ->
  exists t,
    cache (cache_manager w) !! key = Some t /\
    v = _deserialize_value E codec t /\
    cache (cache_manager w') = cache (cache_manager w) /\
    expiry_times (cache_manager w') = expiry_times (cache_manager w).
Proof.
  unfold cache_get, try_except. rewrite bind_gets.
  destruct (cache (cache_manager w) !! key) as [t|] eqn:Hc;
    [|simpl; intros H; discriminate H].
  destruct (expiry_times (cache_manager w) !! key) as [[e|]|] eqn:He.
  - destruct (Qlt_bool e (clock E (ticks w))) eqn:Hlt.
    + apply Qlt_bool_iff in Hlt.
      rewrite (bind_returned _ _ _ _ _ (_is_expired_past E w key e He Hlt)).
      unfold bind.
      destruct (cache_delete E key (with_ticks (S (ticks w)) w)) as [[b|e'] wd];
        simpl; intros H; discriminate H.
    + apply Qlt_bool_false in Hlt.
      rewrite (bind_returned _ _ _ _ _ (_is_expired_within E w key e He Hlt)).
      simpl. intros H. injection H as <- <-. exists t. repeat split; reflexivity.
  - rewrite (bind_returned _ _ _ _ _ (_is_expired_no_expiry E w key (or_intror He))).
    simpl. intros H. injection H as <- <-. exists t. repeat split; reflexivity.
  - rewrite (bind_returned _ _ _ _ _ (_is_expired_no_expiry E w key (or_introl He))).
    simpl. intros H. injection H as <- <-. exists t. repeat split; reflexivity.
Qed.

Lemma _check_prediction_cache_miss scenario w :
  cache (cache_manager w) !! scenario_key scenario = None ->
  exists w', _check_prediction_cache E scenario w = (Returned None, w').
Proof.
  intros Hc.
  destruct (cache_get_absent (solution_codec E) w _ Hc) as (w' & Hget & _).
  exists w'. unfold _check_prediction_cache.
  rewrite (bind_returned _ _ _ _ _ Hget). reflexivity.
Qed.

Lemma _check_prediction_cache_hit scenario w t d :
  cache (cache_manager w) !! scenario_key scenario = Some t ->
  json_loads (solution_codec E) t = Some d ->
  (forall e, expiry_times (cache_manager w) !! scenario_key scenario = Some (Some e) ->
             (clock E (ticks w) <= e)%Q) ->
  exists w',
    _check_prediction_cache E scenario w = (Returned (Some (Solution_of_dict d)), w').
Proof.
  intros Hc Hd Hfresh.
  destruct (cache_get_hit (solution_codec E) w _ t Hc Hfresh) as (w' & Hget & _).
  exists w'. unfold _check_prediction_cache.
  rewrite (bind_returned _ _ _ _ _ Hget).
  unfold _deserialize_value. rewrite Hd. reflexivity.
Qed.

Lemma _check_prediction_cache_inv scenario w cached w' :
  _check_prediction_cache E scenario w = (Returned (Some cached), w') ->
  exists t d,
    cache (cache_manager w) !! scenario_key scenario = Some t /\
    json_loads (solution_codec E) t = Some d /\
    cached = Solution_of_dict d /\
    cache (cache_manager w') = cache (cache_manager w).
Proof.
  unfold _check_prediction_cache. intros H.
  apply bind_inv in H as (cached_data & w1 & Hget & H).
  destruct cached_data as [[d|t]|]; try discriminate H.
  injection H as <- <-.
  apply cache_get_inv in Hget as (t & Hc & Hv & Hsame & _).
  exists t, d. repeat split; auto.
  unfold _deserialize_value in Hv.
  destruct (json_loads (solution_codec E) t); congruence.
Qed.

Lemma _cache_solution_stores scenario solution w :
  exists w',
    _cache_solution E scenario solution w = (Returned tt, w') /\
    cache (cache_manager w') !! scenario_key scenario
    = Some (_serialize_value E (solution_codec E) (to_dict solution)).
Proof.
  destruct (cache_set_positive_ttl E (solution_codec E) w (scenario_key scenario)
              (to_dict solution) 3600 eq_refl) as (w' & Hset & Hc & _).
  exists w'. unfold _cache_solution.
  rewrite (bind_returned _ _ _ _ _ Hset). auto.
Qed.

(** A resolution that finds nothing under the key of its text runs the
    pipeline, returns its solution and stores it under that key. *)
Lemma solve_disruption_miss text w :
  cache (cache_manager w) !! text_key E text = None ->
  exists sol w',
    solve_disruption E text w = (Returned sol, w') /\
    cache_hit sol = false /\
    cache (cache_manager w') !! text_key E text
    = Some (_serialize_value E (solution_codec E) (to_dict sol)).
Proof.
  intros Hnone. unfold solve_disruption.
  rewrite (bind_returned _ _ _ _ _ (time_time_eq E w)).
  destruct (_create_scenario_returns E text (with_ticks (S (ticks w)) w))
    as (sc & w2 & Hsc & Hkey & _ & Hcm & _).
  rewrite (bind_returned _ _ _ _ _ Hsc).
  assert (Hc2 : cache (cache_manager w2) !! scenario_key sc = None)
    by (rewrite Hkey, Hcm; exact Hnone).
  destruct (_check_prediction_cache_miss sc w2 Hc2) as (w3 & Hchk).
  rewrite (bind_returned _ _ _ _ _ Hchk). cbv zeta.
  destruct (returns_optimize E sc (analyze_scenario E sc) w3) as (best & w4 & Hopt).
  rewrite (bind_returned _ _ _ _ _ Hopt).
  destruct (_execute_with_reasoning_returns E sc best (analyze_scenario E sc) w4)
    as (final & w5 & Hex & Hhit).
  rewrite (bind_returned _ _ _ _ _ Hex).
  rewrite (bind_returned _ _ _ _ _ (time_time_eq E w5)).
  match goal with
  | |- context [_cache_solution E sc ?final'] =>
      destruct (_cache_solution_stores sc final' (with_ticks (S (ticks w5)) w5))
        as (w7 & Hstore & Hlook)
  end.
  rewrite (bind_returned _ _ _ _ _ Hstore).
  unfold _update_metrics. rewrite bind_modify.
  eexists _, _. split; [reflexivity|]. split; [exact Hhit|].
  simpl. rewrite <- Hkey. exact Hlook.
Qed.

(** A resolution that finds a decodable entry within its TTL window under
    the key of its text returns that entry, marked as a cache hit. *)
Lemma solve_disruption_hit text w t d :
  cache (cache_manager w) !! text_key E text = Some t ->
  json_loads (solution_codec E) t = Some d ->
  within_ttl E w (text_key E text) ->
  exists sol w',
    solve_disruption E text w = (Returned sol, w') /\
    cache_hit sol = true /\
    sol_predicted_profit sol = d_predicted_profit d /\
    sol_actions sol = d_actions d.
Proof.
  intros Hc Hd Httl. unfold solve_disruption.
  rewrite (bind_returned _ _ _ _ _ (time_time_eq E w)).
  destruct (_create_scenario_returns E text (with_ticks (S (ticks w)) w))
    as (sc & w2 & Hsc & Hkey & _ & Hcm & Htk).
  rewrite (bind_returned _ _ _ _ _ Hsc).
  assert (Hc2 : cache (cache_manager w2) !! scenario_key sc = Some t)
    by (rewrite Hkey, Hcm; exact Hc).
  assert (Hfresh : forall e,
             expiry_times (cache_manager w2) !! scenario_key sc = Some (Some e) ->
             (clock E (ticks w2) <= e)%Q).
  { intros e He. rewrite Hkey, Hcm in He. rewrite Htk. exact (Httl e He). }
  destruct (_check_prediction_cache_hit sc w2 t d Hc2 Hd Hfresh) as (w3 & Hchk).
  rewrite (bind_returned _ _ _ _ _ Hchk).
  rewrite (bind_returned _ _ _ _ _ (time_time_eq E w3)).
  unfold _update_metrics. rewrite bind_modify.
  eexists _, _. split; [reflexivity|]. repeat split; reflexivity.
Qed.

(** Whatever path a resolution takes, when it returns, the cache holds
    under the key of the text an entry that decodes to the profit and the
    actions of the returned solution. *)
Lemma solve_disruption_leaves_entry text w sol w' :
  codec_roundtrip (solution_codec E) ->
  solve_disruption E text w = (Returned sol, w') ->
  exists t d,
    cache (cache_manager w') !! text_key E text = Some t /\
    json_loads (solution_codec E) t = Some d /\
    d_predicted_profit d = sol_predicted_profit sol /\
    d_actions d = sol_actions sol.
Proof.
  intros Hcodec H. unfold solve_disruption in H.
  rewrite (bind_returned _ _ _ _ _ (time_time_eq E w)) in H.
  destruct (_create_scenario_returns E text (with_ticks (S (ticks w)) w))
    as (sc & w2 & Hsc & Hkey & _ & Hcm & _).
  rewrite (bind_returned _ _ _ _ _ Hsc) in H.
  apply bind_inv in H as (cached & w3 & Hchk & H).
  destruct cached as [cached|].
  - apply _check_prediction_cache_inv in Hchk as (t & d & Hc & Hd & -> & Hsame).
    rewrite (bind_returned _ _ _ _ _ (time_time_eq E w3)) in H.
    unfold _update_metrics in H. rewrite bind_modify in H.
    injection H as <- <-.
    exists t, d. simpl. rewrite Hsame, <- Hkey. auto.
  - cbv zeta in H.
    apply bind_inv in H as (best & w4 & _ & H).
    apply bind_inv in H as (final & w5 & _ & H).
    rewrite (bind_returned _ _ _ _ _ (time_time_eq E w5)) in H.
    match type of H with
    | context [_cache_solution E sc ?final'] =>
        destruct (_cache_solution_stores sc final' (with_ticks (S (ticks w5)) w5))
          as (w7 & Hstore & Hlook)
    end.
    rewrite (bind_returned _ _ _ _ _ Hstore) in H.
    unfold _update_metrics in H. rewrite bind_modify in H.
    injection H as <- <-.
    match type of Hlook with
    | _ = Some (_serialize_value E _ ?v) =>
        destruct (Hcodec v) as (t & Hdumps & Hloads);
        exists t, v
    end.
    simpl. rewrite <- Hkey, Hlook.
    unfold _serialize_value. rewrite Hdumps. auto.
Qed.

(** C2: resolve a text, and resolve it again while the cached entry is
    still the one the first resolution left and within its TTL window: the
    second resolution returns a solution marked as a cache hit whose
    predicted profit and actions are those the first one returned.  The
    JSON library is assumed to read back what it wrote. *)
Theorem cache_idempotence text w0 sol1 w1 w1' :
  codec_roundtrip (solution_codec E) ->
  solve_disruption E text w0 = (Returned sol1, w1) ->
  cache (cache_manager w1') !! text_key E text
  = cache (cache_manager w1) !! text_key E text ->
  within_ttl E w1' (text_key E text) ->
  exists sol2 w2,
    solve_disruption E text w1' = (Returned sol2, w2) /\
    cache_hit sol2 = true /\
    sol_predicted_profit sol2 = sol_predicted_profit sol1 /\
    sol_actions sol2 = sol_actions sol1.
Proof.
  intros Hcodec Hfirst Hkept Httl.
  destruct (solve_disruption_leaves_entry text w0 sol1 w1 Hcodec Hfirst)
    as (t & d & Hc & Hd & Hprofit & Hactions).
  rewrite <- Hkept in Hc.
  destruct (solve_disruption_hit text w1' t d Hc Hd Httl)
    as (sol2 & w2 & Hsecond & Hhit & Hp & Ha).
  exists sol2, w2. rewrite Hp, Ha. auto.
Qed.

(** C5 (amended): [solve_disruption] validates nothing.  A text that is
    empty or only whitespace is classified as [general_disruption]; when
    the cache holds nothing under its key, the pipeline runs, a solution is
    returned (not marked as a cache hit) and it is stored under that key. *)
Theorem blank_text_is_resolved text w :
  is_blank text = true ->
  cache (cache_manager w) !! text_key E text = None ->
  _classify_scenario text = "general_disruption" /\
  exists sol w',
    solve_disruption E text w = (Returned sol, w') /\
    cache_hit sol = false /\
    cache (cache_manager w') !! text_key E text
    = Some (_serialize_value E (solution_codec E) (to_dict sol)).
Proof.
  intros Hblank Hnone. split.
  - apply classify_blank, Hblank.
  - apply solve_disruption_miss, Hnone.
Qed.
End Resolve.

Lemma identity_codec_roundtrip : codec_roundtrip identity_codec.
Proof. intros v. exists v. split; reflexivity. Qed.

Lemma cache_idempotence_witness :
  exists sol2 w2,
    solve_disruption demo_env "" demo_first_world = (Returned sol2, w2) /\
    cache_hit sol2 = true /\
    sol_predicted_profit sol2 = sol_predicted_profit demo_first_solution /\
    sol_actions sol2 = sol_actions demo_first_solution.
Proof.
  apply (cache_idempotence demo_env "" initial_world demo_first_solution
           demo_first_world demo_first_world identity_codec_roundtrip).
  - vm_compute. reflexivity.
  - reflexivity.
  - intros e He. vm_compute in He. injection He as <-. vm_compute. discriminate.
Defined.

(** C5, as stated, fails: a text of three spaces is not rejected; the
    optimizer runs, a solution is returned and the cache stores it. *)
Lemma blank_text_not_rejected :
  is_blank "   " = true /\
  exists sol w',
    solve_disruption demo_env "   " initial_world = (Returned sol, w') /\
    total_optimizations (profit_metrics w') = 1%Z /\
    sets (stats (cache_manager w')) = 1%Z /\
    cache (cache_manager w') !! "scenario_628631f0" = Some (to_dict sol).
Proof.
  split; [reflexivity|].
  eexists _, _. split; [vm_compute; reflexivity|].
  repeat split; vm_compute; reflexivity.
Qed.

Lemma blank_text_is_resolved_witness :
  _classify_scenario "   " = "general_disruption" /\
  exists sol w',
    solve_disruption demo_env "   " initial_world = (Returned sol, w') /\
    cache_hit sol = false /\
    cache (cache_manager w') !! text_key demo_env "   "
    = Some (_serialize_value demo_env (solution_codec demo_env) (to_dict sol)).
Proof.
  apply (blank_text_is_resolved demo_env "   " initial_world); reflexivity.
Defined.

(** ** More on the cache *)

Section CacheMore.
Variable E : Env.
Implicit Types (w : World (Text E)) (key : string).

(** What [set] does, for any TTL. *)
Lemma cache_set_result {Value} (codec : Codec Value (Text E)) w key value ttl :
  exists now,
    cache_set E codec key value ttl w =
    (Returned true,
     with_ticks (if (0 <? ttl)%Z then S (S (ticks w)) else S (ticks w))
       (with_cache_manager
          (mkCache
             (<[key := _serialize_value E codec value]> (cache (cache_manager w)))
             (<[key := if (0 <? ttl)%Z
                       then Some (clock E (ticks w) + inject_Z ttl)%Q
                       else None]> (expiry_times (cache_manager w)))
             (<[key := now]> (access_times (cache_manager w)))
             (incr_sets (stats (cache_manager w))))
          w)).
Proof.
  unfold cache_set, update_cache, try_except, bind, modify, time_time, ret.
  destruct (0 <? ttl)%Z; simpl; eexists; reflexivity.
Qed.

(** What [delete] does when the three dicts hold the same keys. *)
Lemma cache_delete_result w key :
  cache_consistent (cache_manager w) ->
  cache_delete E key w =
  match cache (cache_manager w) !! key with
  | Some _ =>
      (Returned true,
       with_cache_manager
         (mkCache (delete key (cache (cache_manager w)))
                  (delete key (expiry_times (cache_manager w)))
                  (delete key (access_times (cache_manager w)))
                  (incr_deletes (stats (cache_manager w))))
         w)
  | None => (Returned false, w)
  end.
Proof.
  intros [He Ha].
  unfold cache_delete, del_in, dict_del, update_cache.
  unfold try_except, bind, gets, modify, raise, ret.
  destruct (cache (cache_manager w) !! key) as [t|] eqn:Hc; [|reflexivity].
  assert (Hin : key ∈ dom (cache (cache_manager w))) by (apply elem_of_dom; eauto).
  assert (He' : is_Some (expiry_times (cache_manager w) !! key))
    by (apply elem_of_dom; rewrite <- He; exact Hin).
  assert (Ha' : is_Some (access_times (cache_manager w) !! key))
    by (apply elem_of_dom; rewrite <- Ha; exact Hin).
  destruct He' as [oe He'], Ha' as [at' Ha'].
  simpl. rewrite !Hc. simpl. rewrite !He'. simpl. rewrite !Ha'. reflexivity.
Qed.

(** [delete] without any assumption: it returns, touches neither [hits],
    [misses] nor [sets], and adds at most one to [deletes]. *)
Lemma cache_delete_stats w key :
  exists b w',
    cache_delete E key w = (Returned b, w') /\
    hits (stats (cache_manager w')) = hits (stats (cache_manager w)) /\
    misses (stats (cache_manager w')) = misses (stats (cache_manager w)) /\
    sets (stats (cache_manager w')) = sets (stats (cache_manager w)) /\
    (deletes (stats (cache_manager w')) = deletes (stats (cache_manager w)) \/
     deletes (stats (cache_manager w')) = (deletes (stats (cache_manager w)) + 1)%Z) /\
    performance_metrics w' = performance_metrics w /\
    ticks w' = ticks w.
Proof.
  unfold cache_delete, del_in, dict_del, update_cache.
  unfold try_except, bind, gets, modify, raise, ret.
  destruct (cache (cache_manager w) !! key) as [t|] eqn:Hc.
  - simpl. rewrite !Hc. simpl.
    destruct (expiry_times (cache_manager w) !! key) as [oe|] eqn:He; simpl.
    + destruct (access_times (cache_manager w) !! key) as [a|] eqn:Ha; simpl;
        eexists _, _; (split; [reflexivity|]); simpl; auto 10.
    + eexists _, _; (split; [reflexivity|]); simpl; auto 10.
  - eexists _, _; (split; [reflexivity|]); simpl; auto 10.
Qed.
End CacheMore.

Section CacheCases.
Variable E : Env.
Implicit Types (w : World (Text E)) (key : string).

(** The three ways a [get] can go: the key is absent; the entry is past its
    expiry instant and is deleted; the entry is live and is returned. *)
Lemma cache_get_cases {Value} (codec : Codec Value (Text E)) w key :
  exists r w',
    cache_get E codec key w = (Returned r, w') /\
    performance_metrics w' = performance_metrics w /\
    ((r = None /\ cache (cache_manager w) !! key = None /\
      cache_manager w'
      = with_stats (incr_misses (stats (cache_manager w))) (cache_manager w))
     \/
     (r = None /\
      exists t e b wd,
        cache (cache_manager w) !! key = Some t /\
        expiry_times (cache_manager w) !! key = Some (Some e) /\
        (e < clock E (ticks w))%Q /\
        cache_delete E key (with_ticks (S (ticks w)) w) = (Returned b, wd) /\
        cache_manager w'
        = with_stats (incr_misses (stats (cache_manager wd))) (cache_manager wd))
     \/
     (exists t now,
        r = Some (_deserialize_value E codec t) /\
        cache (cache_manager w) !! key = Some t /\
        (forall e, expiry_times (cache_manager w) !! key = Some (Some e) ->
                   (clock E (ticks w) <= e)%Q) /\
        cache_manager w'
        = mkCache (cache (cache_manager w)) (expiry_times (cache_manager w))
                  (<[key := now]> (access_times (cache_manager w)))
                  (incr_hits (stats (cache_manager w))))).
Proof.
  unfold cache_get.
  destruct (cache (cache_manager w) !! key) as [t|] eqn:Hc.
  - destruct (expiry_times (cache_manager w) !! key) as [[e|]|] eqn:He.
    + destruct (Qlt_bool e (clock E (ticks w))) eqn:Hlt.
      * apply Qlt_bool_iff in Hlt.
        destruct (cache_delete_stats E (with_ticks (S (ticks w)) w) key)
          as (b & wd & Hdel & _ & _ & _ & _ & Hpm & _).
        eexists _, _. split.
        { apply try_except_returned. rewrite bind_gets, Hc.
          rewrite (bind_returned _ _ _ _ _ (_is_expired_past E w key e He Hlt)).
          rewrite (bind_returned _ _ _ _ _ Hdel).
          unfold update_cache. rewrite bind_modify. reflexivity. }
        split; [simpl; rewrite Hpm; reflexivity|].
        right. left. split; [reflexivity|].
        exists t, e, b, wd. auto.
      * apply Qlt_bool_false in Hlt.
        eexists _, _. split.
        { apply try_except_returned. rewrite bind_gets, Hc.
          rewrite (bind_returned _ _ _ _ _ (_is_expired_within E w key e He Hlt)).
          reflexivity. }
        split; [reflexivity|].
        right. right. eexists t, _. repeat split; try reflexivity.
        intros e' He'. congruence.
    + eexists _, _. split.
      { apply try_except_returned. rewrite bind_gets, Hc.
        rewrite (bind_returned _ _ _ _ _
                   (_is_expired_no_expiry E w key (or_intror He))).
        reflexivity. }
      split; [reflexivity|].
      right. right. eexists t, _. repeat split; try reflexivity.
      intros e' He'. congruence.
    + eexists _, _. split.
      { apply try_except_returned. rewrite bind_gets, Hc.
        rewrite (bind_returned _ _ _ _ _
                   (_is_expired_no_expiry E w key (or_introl He))).
        reflexivity. }
      split; [reflexivity|].
      right. right. eexists t, _. repeat split; try reflexivity.
      intros e' He'. congruence.
  - eexists _, _. split.
    { apply try_except_returned. rewrite bind_gets, Hc. reflexivity. }
    split; [reflexivity|].
    left. auto.
Qed.
End CacheCases.

Lemma py_int_upper_bound (x : Q) (n : Z) :
  (x <= inject_Z n)%Q -> (py_int x <= n)%Z.
Proof.
  intros H. unfold py_int. apply Z.quot_le_upper_bound; [reflexivity|].
  unfold Qle in H. simpl in H. lia.
Qed.

Lemma length_append (a b : string) :
  String.length (a ++ b) = (String.length a + String.length b)%nat.
Proof.
  induction a as [|c a IH]; [reflexivity|].
  rewrite append_cons_l. simpl. rewrite IH. reflexivity.
Qed.

Lemma tag_key_differs (key : string) : "tags:" ++ key <> key.
Proof.
  intros H. apply (f_equal String.length) in H.
  rewrite length_append in H. simpl in H. lia.
Qed.

Section CacheTheorems.
Variable E : Env.
Implicit Types (w : World (Text E)) (key : string).

(** X1: a value stored by [set] is what a later [get] returns: while the
    entry is untouched and either the TTL was not positive or the clock has
    not passed the expiry instant, [get] returns the stored value (the JSON
    library reading back what it wrote), counts one hit and no miss, and
    keeps the entry. *)
Theorem set_then_get_returns_value {Value} (codec : Codec Value (Text E))
    w0 key value ttl w1 w t :
  cache_set E codec key value ttl w0 = (Returned true, w1) ->
  json_dumps codec value = Some t ->
  json_loads codec t = Some value ->
  cache (cache_manager w) !! key = cache (cache_manager w1) !! key ->
  expiry_times (cache_manager w) !! key = expiry_times (cache_manager w1) !! key ->
  (ttl <= 0)%Z \/ (clock E (ticks w) <= clock E (ticks w0) + inject_Z ttl)%Q ->
  exists w',
    cache_get E codec key w = (Returned (Some (Decoded value)), w') /\
    hits (stats (cache_manager w')) = (hits (stats (cache_manager w)) + 1)%Z /\
    misses (stats (cache_manager w')) = misses (stats (cache_manager w)) /\
    cache (cache_manager w') !! key = Some t.
Proof.
  intros Hset Hdumps Hloads Hc He Hlive.
  destruct (cache_set_result E codec w0 key value ttl) as [now Hres].
  rewrite Hset in Hres. injection Hres as ->.
  simpl in Hc, He.
  rewrite lookup_insert_eq in Hc. rewrite lookup_insert_eq in He.
  unfold _serialize_value in Hc. rewrite Hdumps in Hc.
  destruct (cache_get_cases E codec w key)
    as (r & w' & Hget & _ & [(_ & Hnone & _)|[(_ & Hexp)|Hhit]]).
  - congruence.
  - destruct Hexp as (t' & e & b & wd & _ & He' & Hlt & _).
    rewrite He in He'. exfalso.
    destruct (0 <? ttl)%Z eqn:Httl; [|discriminate He'].
    injection He' as <-.
    destruct Hlive as [Hle|Hle].
    + apply Z.ltb_lt in Httl. lia.
    + exact (Qlt_not_le _ _ Hlt Hle).
  - destruct Hhit as (t' & now' & -> & Hc' & _ & Hcm).
    assert (t' = t) by congruence. subst t'.
    exists w'. rewrite Hget, Hcm. simpl.
    unfold _deserialize_value. rewrite Hloads. auto.
Qed.

(** X2: [ttl] after [set].  For a TTL that is not positive the key never
    expires and [ttl] answers -1; for a positive TTL, asked when the clock
    has not gone back behind the [set], it answers a number of seconds
    between 0 and the TTL. *)
Theorem ttl_after_set {Value} (codec : Codec Value (Text E)) w0 key value ttl w1 w :
  cache_set E codec key value ttl w0 = (Returned true, w1) ->
  cache (cache_manager w) !! key = cache (cache_manager w1) !! key ->
  expiry_times (cache_manager w) !! key = expiry_times (cache_manager w1) !! key ->
  (clock E (ticks w0) <= clock E (ticks w))%Q ->
  exists r w',
    cache_ttl E key w = (Returned r, w') /\
    ((ttl <= 0)%Z -> r = (-1)%Z) /\
    ((0 < ttl)%Z -> (0 <= r <= ttl)%Z).
Proof.
  intros Hset Hc He Hclock.
  destruct (cache_set_result E codec w0 key value ttl) as [now Hres].
  rewrite Hset in Hres. injection Hres as ->.
  simpl in Hc, He.
  rewrite lookup_insert_eq in Hc. rewrite lookup_insert_eq in He.
  unfold cache_ttl. rewrite bind_gets, Hc, He.
  destruct (0 <? ttl)%Z eqn:Httl.
  - apply Z.ltb_lt in Httl.
    unfold bind, time_time, ret. eexists _, _. split; [reflexivity|].
    split; [lia|]. intros _. split; [apply Z.le_max_l|].
    apply Z.max_lub; [lia|]. apply py_int_upper_bound. lra.
  - apply Z.ltb_ge in Httl.
    eexists _, _. split; [reflexivity|]. split; [reflexivity|]. lia.
Qed.

(** X3: when the three dicts hold the same keys, [ttl] never raises; it
    answers -2 exactly for a key that is not stored, -1 exactly for a stored
    key without expiry, and never less than -2. *)
Theorem ttl_codes w key :
  cache_consistent (cache_manager w) ->
  exists r w',
    cache_ttl E key w = (Returned r, w') /\
    (r = (-2)%Z <-> cache (cache_manager w) !! key = None) /\
    (r = (-1)%Z <->
     is_Some (cache (cache_manager w) !! key) /\
     expiry_times (cache_manager w) !! key = Some None) /\
    (-2 <= r)%Z.
Proof.
  intros [Hdom _]. unfold cache_ttl. rewrite bind_gets.
  destruct (cache (cache_manager w) !! key) as [t|] eqn:Hc.
  - assert (He : is_Some (expiry_times (cache_manager w) !! key)).
    { apply elem_of_dom. rewrite <- Hdom. apply elem_of_dom. eauto. }
    destruct He as [[e|] He]; rewrite He.
    + unfold bind, time_time, ret. eexists _, _. split; [reflexivity|].
      pose proof (Z.le_max_l 0 (py_int (e - clock E (ticks w)))).
      repeat split; try lia; try congruence.
      * intros [_ H']. congruence.
    + eexists _, _. split; [reflexivity|].
      repeat split; try lia; try congruence; eauto.
  - eexists _, _. split; [reflexivity|].
    repeat split; try lia; try congruence.
    intros [[? H'] _]. congruence.
Qed.
End CacheTheorems.

Lemma stats_le_refl (s : Stats) : stats_le s s.
Proof. unfold stats_le. lia. Qed.

Section CacheInvariants.
Variable E : Env.
Implicit Types (w : World (Text E)) (key : string).

Lemma cache_consistent_insert {T} (cm : CacheManager T) key t oe a s :
  cache_consistent cm ->
  cache_consistent
    (mkCache (<[key := t]> (cache cm)) (<[key := oe]> (expiry_times cm))
             (<[key := a]> (access_times cm)) s).
Proof.
  intros [He Ha]. split; simpl; rewrite !dom_insert_L; congruence.
Qed.

Lemma cache_consistent_delete {T} (cm : CacheManager T) key s :
  cache_consistent cm ->
  cache_consistent
    (mkCache (delete key (cache cm)) (delete key (expiry_times cm))
             (delete key (access_times cm)) s).
Proof.
  intros [He Ha]. split; simpl; rewrite !dom_delete_L; congruence.
Qed.

Lemma cache_consistent_touch {T} (cm : CacheManager T) key t a s :
  cache_consistent cm ->
  cache cm !! key = Some t ->
  cache_consistent
    (mkCache (cache cm) (expiry_times cm) (<[key := a]> (access_times cm)) s).
Proof.
  intros [He Ha] Hc. split; simpl; [exact He|].
  rewrite dom_insert_lookup_L; [exact Ha|].
  apply elem_of_dom. rewrite <- Ha. apply elem_of_dom. eauto.
Qed.

Lemma cache_consistent_set_expiry {T} (cm : CacheManager T) key t oe :
  cache_consistent cm ->
  cache cm !! key = Some t ->
  cache_consistent (with_expiry_times (<[key := oe]> (expiry_times cm)) cm).
Proof.
  intros [He Ha] Hc. split; simpl; [|exact Ha].
  rewrite dom_insert_lookup_L; [exact He|].
  apply elem_of_dom. rewrite <- He. apply elem_of_dom. eauto.
Qed.

Lemma cache_consistent_stats {T} (cm : CacheManager T) s :
  cache_consistent cm -> cache_consistent (with_stats s cm).
Proof. intros H. exact H. Qed.

Lemma cache_delete_consistent w key b w' :
  cache_consistent (cache_manager w) ->
  cache_delete E key w = (Returned b, w') ->
  cache_consistent (cache_manager w').
Proof.
  intros Hcons Hdel. rewrite (cache_delete_result E w key Hcons) in Hdel.
  destruct (cache (cache_manager w) !! key); injection Hdel as <- <-.
  - simpl. apply cache_consistent_delete, Hcons.
  - exact Hcons.
Qed.

Lemma cache_exists_cases w key :
  exists b w',
    cache_exists E key w = (Returned b, w') /\
    ((b = false /\ cache (cache_manager w) !! key = None /\ w' = w)
     \/
     (b = false /\
      exists t e bd,
        cache (cache_manager w) !! key = Some t /\
        expiry_times (cache_manager w) !! key = Some (Some e) /\
        (e < clock E (ticks w))%Q /\
        cache_delete E key (with_ticks (S (ticks w)) w) = (Returned bd, w'))
     \/
     (b = true /\
      exists t,
        cache (cache_manager w) !! key = Some t /\
        (forall e, expiry_times (cache_manager w) !! key = Some (Some e) ->
                   (clock E (ticks w) <= e)%Q) /\
        cache_manager w' = cache_manager w)).
Proof.
  unfold cache_exists. rewrite bind_gets.
  destruct (cache (cache_manager w) !! key) as [t|] eqn:Hc.
  - destruct (expiry_times (cache_manager w) !! key) as [[e|]|] eqn:He.
    + destruct (Qlt_bool e (clock E (ticks w))) eqn:Hlt.
      * apply Qlt_bool_iff in Hlt.
        destruct (cache_delete_stats E (with_ticks (S (ticks w)) w) key)
          as (bd & wd & Hdel & _).
        rewrite (bind_returned _ _ _ _ _ (_is_expired_past E w key e He Hlt)).
        rewrite (bind_returned _ _ _ _ _ Hdel).
        eexists _, _. split; [reflexivity|].
        right. left. split; [reflexivity|]. exists t, e, bd. auto.
      * apply Qlt_bool_false in Hlt.
        rewrite (bind_returned _ _ _ _ _ (_is_expired_within E w key e He Hlt)).
        eexists _, _. split; [reflexivity|].
        right. right. split; [reflexivity|]. exists t.
        repeat split; auto. intros e' He'. congruence.
    + rewrite (bind_returned _ _ _ _ _
                 (_is_expired_no_expiry E w key (or_intror He))).
      eexists _, _. split; [reflexivity|].
      right. right. split; [reflexivity|]. exists t.
      repeat split; auto. intros e' He'. congruence.
    + rewrite (bind_returned _ _ _ _ _
                 (_is_expired_no_expiry E w key (or_introl He))).
      eexists _, _. split; [reflexivity|].
      right. right. split; [reflexivity|]. exists t.
      repeat split; auto. intros e' He'. congruence.
  - eexists _, _. split; [reflexivity|]. left. auto.
Qed.

Lemma cache_expire_result w key ttl :
  cache_expire E key ttl w =
  match cache (cache_manager w) !! key with
  | None => (Returned false, w)
  | Some _ =>
      (Returned true,
       with_ticks (if (0 <? ttl)%Z then S (ticks w) else ticks w)
         (with_cache_manager
            (with_expiry_times
               (<[key := if (0 <? ttl)%Z
                         then Some (clock E (ticks w) + inject_Z ttl)%Q
                         else None]> (expiry_times (cache_manager w)))
               (cache_manager w))
            w))
  end.
Proof.
  unfold cache_expire. rewrite bind_gets.
  destruct (cache (cache_manager w) !! key); [|reflexivity].
  unfold update_cache, bind, modify, time_time, ret.
  destruct (0 <? ttl)%Z; simpl; [reflexivity|].
  destruct w; reflexivity.
Qed.

(** X4: the three dicts of the cache manager hold the same keys, and every
    operation keeps it so: [set], [get], [delete], [exists], [expire], [ttl]
    and [clear]. *)
Theorem cache_consistent_kept w :
  cache_consistent (cache_manager w) ->
  (forall Value (codec : Codec Value (Text E)) key value ttl,
      cache_consistent (cache_manager (snd (cache_set E codec key value ttl w)))) /\
  (forall Value (codec : Codec Value (Text E)) key,
      cache_consistent (cache_manager (snd (cache_get E codec key w)))) /\
  (forall key, cache_consistent (cache_manager (snd (cache_delete E key w)))) /\
  (forall key, cache_consistent (cache_manager (snd (cache_exists E key w)))) /\
  (forall key ttl, cache_consistent (cache_manager (snd (cache_expire E key ttl w)))) /\
  (forall key, cache_consistent (cache_manager (snd (cache_ttl E key w)))) /\
  cache_consistent (cache_manager (snd (cache_clear E w))).
Proof.
  intros Hcons.
  split; [|split; [|split; [|split; [|split; [|split]]]]].
  - intros Value codec key value ttl.
    destruct (cache_set_result E codec w key value ttl) as [now ->]. simpl.
    apply cache_consistent_insert, Hcons.
  - intros Value codec key.
    destruct (cache_get_cases E codec w key) as (r & w' & Hget & _ & Hcases).
    rewrite Hget. simpl.
    destruct Hcases as [(_ & _ & ->)|[(_ & Hexp)|Hhit]].
    + apply Hcons.
    + destruct Hexp as (t & e & b & wd & _ & _ & _ & Hdel & ->).
      apply cache_consistent_stats.
      eapply cache_delete_consistent; [|exact Hdel]. exact Hcons.
    + destruct Hhit as (t & now & _ & Hc & _ & ->).
      apply (cache_consistent_touch _ _ t); assumption.
  - intros key.
    destruct (cache_delete_stats E w key) as (b & w' & Hdel & _).
    rewrite Hdel. simpl. eapply cache_delete_consistent; eauto.
  - intros key.
    destruct (cache_exists_cases w key) as (b & w' & Hex & Hcases).
    rewrite Hex. simpl.
    destruct Hcases as [(_ & _ & ->)|[(_ & Hexp)|(_ & t & _ & _ & Hcm)]].
    + apply Hcons.
    + destruct Hexp as (t & e & bd & _ & _ & _ & Hdel).
      eapply cache_delete_consistent; [|exact Hdel]. exact Hcons.
    + rewrite Hcm. exact Hcons.
  - intros key ttl. rewrite cache_expire_result.
    destruct (cache (cache_manager w) !! key) as [t|] eqn:Hc; simpl.
    + apply (cache_consistent_set_expiry _ _ t); assumption.
    + exact Hcons.
  - intros key. unfold cache_ttl. rewrite bind_gets.
    destruct (cache (cache_manager w) !! key); [|exact Hcons].
    destruct (expiry_times (cache_manager w) !! key) as [[e|]|]; exact Hcons.
  - simpl. split; reflexivity.
Qed.
End CacheInvariants.

Section CacheOperations.
Variable E : Env.
Implicit Types (w : World (Text E)) (key : string).

(** X5: when the three dicts hold the same keys, [delete] returns [True]
    exactly for a stored key; afterwards the key is in none of the dicts,
    every other key is as before, [deletes] has grown by one for a stored
    key, and nothing at all has changed for a key that was not stored. *)
Theorem delete_removes_entry w key :
  cache_consistent (cache_manager w) ->
  exists b w',
    cache_delete E key w = (Returned b, w') /\
    (b = true <-> is_Some (cache (cache_manager w) !! key)) /\
    cache (cache_manager w') !! key = None /\
    expiry_times (cache_manager w') !! key = None /\
    access_times (cache_manager w') !! key = None /\
    (forall k, k <> key ->
       cache (cache_manager w') !! k = cache (cache_manager w) !! k /\
       expiry_times (cache_manager w') !! k = expiry_times (cache_manager w) !! k /\
       access_times (cache_manager w') !! k = access_times (cache_manager w) !! k) /\
    deletes (stats (cache_manager w'))
    = (deletes (stats (cache_manager w)) + if b then 1 else 0)%Z /\
    (b = false -> w' = w).
Proof.
  intros Hcons. pose proof Hcons as [He Ha].
  rewrite (cache_delete_result E w key Hcons).
  destruct (cache (cache_manager w) !! key) as [t|] eqn:Hc.
  - eexists _, _. split; [reflexivity|]. simpl.
    rewrite !lookup_delete_eq.
    split; [split; eauto|].
    repeat split; auto.
    + rewrite lookup_delete_ne by congruence. reflexivity.
    + rewrite lookup_delete_ne by congruence. reflexivity.
    + rewrite lookup_delete_ne by congruence. reflexivity.
    + discriminate.
  - eexists _, _. split; [reflexivity|].
    assert (Hnot : key ∉ dom (cache (cache_manager w)))
      by (apply not_elem_of_dom; exact Hc).
    split.
    { split; [discriminate|]. intros [? H']. congruence. }
    split; [exact Hc|].
    split; [apply not_elem_of_dom; rewrite <- He; exact Hnot|].
    split; [apply not_elem_of_dom; rewrite <- Ha; exact Hnot|].
    repeat split; auto. lia.
Qed.

(** X6: [exists] answers [True] exactly when the key is stored and not past
    its expiry instant, and then changes nothing in the cache manager; when
    it answers [False] the key is not stored afterwards.  Unlike [get] it
    counts neither a hit nor a miss. *)
Theorem exists_reports_live_entries w key :
  exists b w',
    cache_exists E key w = (Returned b, w') /\
    (b = true <->
     is_Some (cache (cache_manager w) !! key) /\
     forall e, expiry_times (cache_manager w) !! key = Some (Some e) ->
               (clock E (ticks w) <= e)%Q) /\
    (b = true -> cache_manager w' = cache_manager w) /\
    (b = false -> cache (cache_manager w') !! key = None) /\
    hits (stats (cache_manager w')) = hits (stats (cache_manager w)) /\
    misses (stats (cache_manager w')) = misses (stats (cache_manager w)).
Proof.
  destruct (cache_exists_cases E w key) as (b & w' & Hex & Hcases).
  exists b, w'. split; [exact Hex|].
  destruct Hcases as [(-> & Hnone & ->)|[(-> & Hexp)|(-> & t & Hc & Hlive & Hcm)]].
  - repeat split; try discriminate; auto.
    intros [[? H'] _]. congruence.
  - destruct Hexp as (t & e & bd & Hc & He & Hlt & Hdel).
    destruct (cache_delete_stored E (with_ticks (S (ticks w)) w) key t (Some e) Hc He)
      as (b2 & w2 & Hdel2 & Hgone & _ & Hh & Hm & _).
    rewrite Hdel in Hdel2. injection Hdel2 as <- <-.
    repeat split; try discriminate; auto.
    intros [_ Hlive]. exfalso.
    exact (Qlt_not_le _ _ Hlt (Hlive e He)).
  - rewrite Hcm. repeat split; eauto; discriminate.
Qed.

(** X7: [expire] on a key that is not stored returns [False] and changes
    nothing.  On a stored key it returns [True] without looking at the old
    expiry instant, keeps the value and the counters, and the entry is live
    again: a [get] issued at once within the new window (or after a TTL that
    is not positive) returns the value, even if the old instant had passed. *)
Theorem expire_renews_entry {Value} (codec : Codec Value (Text E)) w key ttl :
  (cache (cache_manager w) !! key = None ->
   cache_expire E key ttl w = (Returned false, w)) /\
  (forall t,
      cache (cache_manager w) !! key = Some t ->
      exists w1,
        cache_expire E key ttl w = (Returned true, w1) /\
        cache (cache_manager w1) = cache (cache_manager w) /\
        stats (cache_manager w1) = stats (cache_manager w) /\
        ((ttl <= 0)%Z \/
         (clock E (ticks w1) <= clock E (ticks w) + inject_Z ttl)%Q ->
         exists w2,
           cache_get E codec key w1
           = (Returned (Some (_deserialize_value E codec t)), w2))).
Proof.
  rewrite cache_expire_result. split.
  - intros ->. reflexivity.
  - intros t Hc. rewrite Hc. eexists. split; [reflexivity|].
    split; [reflexivity|]. split; [reflexivity|].
    intros Hlive.
    match goal with
    | |- exists w2, cache_get E codec key ?w1 = _ =>
        destruct (cache_get_hit E codec w1 key t) as (w2 & Hget & _)
    end.
    + exact Hc.
    + simpl. rewrite lookup_insert_eq. intros e He.
      destruct (0 <? ttl)%Z eqn:Httl; [|discriminate He].
      injection He as <-.
      destruct Hlive as [Hle|Hle]; [apply Z.ltb_lt in Httl; lia|].
      simpl in Hle. exact Hle.
    + exists w2. exact Hget.
Qed.

Lemma cache_clear_result w :
  cache_clear E w
  = (Returned true, with_cache_manager (mkCache ∅ ∅ ∅ (stats (cache_manager w))) w).
Proof. reflexivity. Qed.

(** X8: [clear] empties the three dicts and keeps the counters; a
    resolution that follows it finds nothing in the cache, runs the pipeline,
    returns a solution that is not a cache hit and stores it. *)
Theorem resolve_after_clear_is_a_miss text w :
  exists w1 sol w2,
    cache_clear E w = (Returned true, w1) /\
    cache (cache_manager w1) = ∅ /\
    expiry_times (cache_manager w1) = ∅ /\
    access_times (cache_manager w1) = ∅ /\
    stats (cache_manager w1) = stats (cache_manager w) /\
    solve_disruption E text w1 = (Returned sol, w2) /\
    cache_hit sol = false /\
    is_Some (cache (cache_manager w2) !! text_key E text).
Proof.
  destruct (solve_disruption_miss E text
              (with_cache_manager (mkCache ∅ ∅ ∅ (stats (cache_manager w))) w))
    as (sol & w2 & Hs & Hhit & Hc).
  - simpl. apply lookup_empty.
  - eexists _, sol, w2. split; [apply cache_clear_result|].
    simpl. repeat split; eauto.
Qed.

(** X9: every [get] returns and counts exactly once: one hit and no miss
    when it returns a value, one miss and no hit when it returns nothing;
    [sets] does not move. *)
Theorem get_counts_once {Value} (codec : Codec Value (Text E)) w key :
  exists r w',
    cache_get E codec key w = (Returned r, w') /\
    (is_Some r ->
     hits (stats (cache_manager w')) = (hits (stats (cache_manager w)) + 1)%Z /\
     misses (stats (cache_manager w')) = misses (stats (cache_manager w))) /\
    (r = None ->
     hits (stats (cache_manager w')) = hits (stats (cache_manager w)) /\
     misses (stats (cache_manager w')) = (misses (stats (cache_manager w)) + 1)%Z) /\
    sets (stats (cache_manager w')) = sets (stats (cache_manager w)).
Proof.
  destruct (cache_get_cases E codec w key) as (r & w' & Hget & _ & Hcases).
  exists r, w'. split; [exact Hget|].
  destruct Hcases as [(-> & _ & ->)|[(-> & Hexp)|Hhit]].
  - simpl. split; [intros [? H']; discriminate H'|].
    split; [intros _; split; reflexivity|reflexivity].
  - destruct Hexp as (t & e & b & wd & _ & _ & _ & Hdel & ->).
    destruct (cache_delete_stats E (with_ticks (S (ticks w)) w) key)
      as (b2 & w2 & Hdel2 & Hh & Hm & Hs & _).
    rewrite Hdel in Hdel2. injection Hdel2 as <- <-.
    simpl. rewrite Hh, Hm, Hs. simpl.
    split; [intros [? H']; discriminate H'|].
    split; [intros _; split; reflexivity|reflexivity].
  - destruct Hhit as (t & now & -> & _ & _ & ->). simpl.
    split; [intros _; split; reflexivity|].
    split; [discriminate|reflexivity].
Qed.

(** X10: no operation of the cache lowers a counter: [set], [get],
    [delete] and [exists] leave every counter at least where it was, and
    [expire], [ttl] and [clear] leave the counters unchanged. *)
Theorem stats_never_decrease w :
  (forall Value (codec : Codec Value (Text E)) key value ttl,
      stats_le (stats (cache_manager w))
               (stats (cache_manager (snd (cache_set E codec key value ttl w))))) /\
  (forall Value (codec : Codec Value (Text E)) key,
      stats_le (stats (cache_manager w))
               (stats (cache_manager (snd (cache_get E codec key w))))) /\
  (forall key,
      stats_le (stats (cache_manager w))
               (stats (cache_manager (snd (cache_delete E key w))))) /\
  (forall key,
      stats_le (stats (cache_manager w))
               (stats (cache_manager (snd (cache_exists E key w))))) /\
  (forall key ttl,
      stats (cache_manager (snd (cache_expire E key ttl w))) = stats (cache_manager w)) /\
  (forall key,
      stats (cache_manager (snd (cache_ttl E key w))) = stats (cache_manager w)) /\
  stats (cache_manager (snd (cache_clear E w))) = stats (cache_manager w).
Proof.
  split; [|split; [|split; [|split; [|split; [|split]]]]].
  - intros Value codec key value ttl.
    destruct (cache_set_result E codec w key value ttl) as [now ->]. simpl.
    unfold stats_le. simpl. lia.
  - intros Value codec key.
    destruct (cache_get_cases E codec w key) as (r & w' & Hget & _ & Hcases).
    rewrite Hget. simpl.
    destruct Hcases as [(_ & _ & ->)|[(_ & Hexp)|Hhit]].
    + unfold stats_le. simpl. lia.
    + destruct Hexp as (t & e & b & wd & _ & _ & _ & Hdel & ->).
      destruct (cache_delete_stats E (with_ticks (S (ticks w)) w) key)
        as (b2 & w2 & Hdel2 & Hh & Hm & Hs & Hd & _).
      rewrite Hdel in Hdel2. injection Hdel2 as <- <-.
      unfold stats_le. simpl. simpl in Hh, Hm, Hs, Hd. lia.
    + destruct Hhit as (t & now & _ & _ & _ & ->).
      unfold stats_le. simpl. lia.
  - intros key.
    destruct (cache_delete_stats E w key) as (b & w' & Hdel & Hh & Hm & Hs & Hd & _).
    rewrite Hdel. unfold stats_le. simpl. lia.
  - intros key.
    destruct (cache_exists_cases E w key) as (b & w' & Hex & Hcases).
    rewrite Hex. simpl.
    destruct Hcases as [(_ & _ & ->)|[(_ & Hexp)|(_ & t & _ & _ & ->)]].
    + apply stats_le_refl.
    + destruct Hexp as (t & e & bd & _ & _ & _ & Hdel).
      destruct (cache_delete_stats E (with_ticks (S (ticks w)) w) key)
        as (b2 & w2 & Hdel2 & Hh & Hm & Hs & Hd & _).
      rewrite Hdel in Hdel2. injection Hdel2 as <- <-.
      unfold stats_le. simpl in Hh, Hm, Hs, Hd. lia.
    + apply stats_le_refl.
  - intros key ttl. rewrite cache_expire_result.
    destruct (cache (cache_manager w) !! key); reflexivity.
  - intros key. unfold cache_ttl. rewrite bind_gets.
    destruct (cache (cache_manager w) !! key); [|reflexivity].
    destruct (expiry_times (cache_manager w) !! key) as [[e|]|]; reflexivity.
  - reflexivity.
Qed.

(** X11: [set_with_tags] returns [True] and stores two entries, the value
    under the key and the tags under the shadow key [tags:] followed by the
    key; the second [set] does not overwrite the first, both carry an expiry
    entry (none for a TTL that is not positive), and [sets] grows by two. *)
Theorem set_with_tags_stores_both {Value} (codec : Codec Value (Text E))
    (tags_codec : Codec (list string) (Text E)) w key value tags ttl :
  exists w',
    set_with_tags E codec tags_codec key value tags ttl w = (Returned true, w') /\
    cache (cache_manager w') !! key = Some (_serialize_value E codec value) /\
    cache (cache_manager w') !! ("tags:" ++ key)
    = Some (_serialize_value E tags_codec tags) /\
    (is_Some (expiry_times (cache_manager w') !! key) /\
     is_Some (expiry_times (cache_manager w') !! ("tags:" ++ key))) /\
    ((ttl <= 0)%Z ->
     expiry_times (cache_manager w') !! key = Some None /\
     expiry_times (cache_manager w') !! ("tags:" ++ key) = Some None) /\
    sets (stats (cache_manager w')) = (sets (stats (cache_manager w)) + 2)%Z.
Proof.
  unfold set_with_tags.
  destruct (cache_set_result E codec w key value ttl) as [now Hset].
  rewrite (bind_returned _ _ _ _ _ Hset). cbv zeta.
  match goal with
  | |- context [bind (bind (cache_set E tags_codec ?k tags ttl) _) _ ?w1] =>
      destruct (cache_set_result E tags_codec w1 k tags ttl) as [now2 Hset2];
      rewrite (bind_returned _ _ _ _ _ (bind_returned _ _ _ _ _ Hset2))
  end.
  eexists. split; [reflexivity|]. simpl.
  pose proof (tag_key_differs key) as Hne.
  rewrite !lookup_insert_eq.
  rewrite !(lookup_insert_ne _ ("tags:" ++ key) key) by exact Hne.
  rewrite !lookup_insert_eq.
  split; [reflexivity|]. split; [reflexivity|].
  split; [split; eauto|].
  split; [|lia].
  intros Httl. apply Z.ltb_ge in Httl. rewrite Httl. auto.
Qed.
End CacheOperations.

(** ** More on classification *)

Lemma lower_ascii_idempotent (c : ascii) : lower_ascii (lower_ascii c) = lower_ascii c.
Proof.
  destruct c as [[] [] [] [] [] [] [] []]; vm_compute; reflexivity.
Qed.

Lemma lower_idempotent (s : string) : lower (lower s) = lower s.
Proof.
  induction s as [|c s IH]; simpl; [reflexivity|].
  rewrite lower_ascii_idempotent, IH. reflexivity.
Qed.

Lemma all_digits_snoc (r : string) (c : ascii) :
  all_digits r = true -> is_digit c = true -> all_digits (snoc r c) = true.
Proof.
  intros Hr Hc. unfold snoc. induction r as [|a r IH].
  - rewrite append_nil_l. simpl. rewrite Hc. reflexivity.
  - rewrite append_cons_l. simpl in *.
    apply andb_true_iff in Hr as [Ha Hr]. rewrite Ha, (IH Hr). reflexivity.
Qed.

Lemma findall_digits_from_all_digits (s : string) :
  forall run,
    all_digits (default "" run) = true ->
    Forall (fun m => all_digits m = true) (findall_digits_from s run).
Proof.
  induction s as [|c s IH]; intros run Hrun; simpl.
  - destruct run; repeat constructor. exact Hrun.
  - destruct (is_digit c) eqn:Hc.
    + apply IH. simpl. apply all_digits_snoc; assumption.
    + destruct run as [r|].
      * constructor; [exact Hrun|]. apply IH. reflexivity.
      * apply IH. reflexivity.
Qed.

(** X12: classification does not depend on the case of the letters. *)
Theorem classification_ignores_case (text : string) :
  _classify_scenario (lower text) = _classify_scenario text.
Proof.
  unfold _classify_scenario. rewrite lower_idempotent. reflexivity.
Qed.

Section ScenarioProperties.
Variable E : Env.
Implicit Types (w : World (Text E)).

(** X13: the severity lies between 0.1 and 1.  A text that mentions a
    high-severity keyword gets at least 0.7; a text that mentions a
    medium-severity keyword and no high-severity one gets between 0.4 and
    0.7. *)
Theorem severity_bands text w :
  uniform_in_range E ->
  exists s w',
    _assess_severity E text w = (Returned s, w') /\
    (1 # 10 <= s <= 1)%Q /\
    (forall word,
        In word ["major"; "critical"; "emergency"; "accident"; "angry"] ->
        mentions text word -> (7 # 10 <= s)%Q) /\
    (any_in ["major"; "critical"; "emergency"; "accident"; "angry"] (lower text) = false ->
     forall word,
       In word ["delay"; "problem"; "issue"; "cold"; "traffic"] ->
       mentions text word -> (4 # 10 <= s <= 7 # 10)%Q).
Proof.
  intros Hu. unfold _assess_severity, random_uniform.
  destruct (any_in ["major"; "critical"; "emergency"; "accident"; "angry"] (lower text))
    eqn:Hhigh.
  - eexists _, _. split; [reflexivity|].
    pose proof (Hu (draws w) (7 # 10) 1 ltac:(discriminate))%Q as [H1 H2].
    split; [split; [|exact H2]|split].
    + eapply Qle_trans; [|exact H1]. discriminate.
    + intros _ _ _. exact H1.
    + discriminate.
  - assert (Hnohigh : forall word,
               In word ["major"; "critical"; "emergency"; "accident"; "angry"] ->
               mentions text word -> False).
    { intros word Hin Hm.
      pose proof (any_in_intro _ _ word Hin (mentions_py_in _ _ Hm)). congruence. }
    destruct (any_in ["delay"; "problem"; "issue"; "cold"; "traffic"] (lower text))
      eqn:Hmed.
    + eexists _, _. split; [reflexivity|].
      pose proof (Hu (draws w) (4 # 10) (7 # 10) ltac:(discriminate))%Q as [H1 H2].
      split; [split|split].
      * eapply Qle_trans; [|exact H1]. discriminate.
      * eapply Qle_trans; [exact H2|]. discriminate.
      * intros word Hin Hm. destruct (Hnohigh word Hin Hm).
      * intros _ _ _ _. split; assumption.
    + assert (Hnomed : forall word,
                 In word ["delay"; "problem"; "issue"; "cold"; "traffic"] ->
                 mentions text word -> False).
      { intros word Hin Hm.
        pose proof (any_in_intro _ _ word Hin (mentions_py_in _ _ Hm)). congruence. }
      destruct (any_in ["minor"; "slight"; "small"] (lower text)).
      * eexists _, _. split; [reflexivity|].
        pose proof (Hu (draws w) (1 # 10) (4 # 10) ltac:(discriminate))%Q as [H1 H2].
        split; [split|split].
        -- exact H1.
        -- eapply Qle_trans; [exact H2|]. discriminate.
        -- intros word Hin Hm. destruct (Hnohigh word Hin Hm).
        -- intros _ word Hin Hm. destruct (Hnomed word Hin Hm).
      * eexists _, _. split; [reflexivity|].
        pose proof (Hu (draws w) (3 # 10) (6 # 10) ltac:(discriminate))%Q as [H1 H2].
        split; [split|split].
        -- eapply Qle_trans; [|exact H1]. discriminate.
        -- eapply Qle_trans; [exact H2|]. discriminate.
        -- intros word Hin Hm. destruct (Hnohigh word Hin Hm).
        -- intros _ word Hin Hm. destruct (Hnomed word Hin Hm).
Qed.

(** X14: for a text without digits the affected deliveries follow the
    keywords: between 3 and 7 when a multi-unit keyword is mentioned;
    exactly 1, without a random draw, when a singular keyword is mentioned
    and no multi-unit one; between 1 and 3 otherwise. *)
Theorem affected_deliveries_bands text w :
  randint_in_range E ->
  has_digit text = false ->
  exists n w',
    _estimate_affected_deliveries E text w = (Returned n, w') /\
    (forall word, In word ["major"; "highway"; "multiple"] ->
                  mentions text word -> (3 <= n <= 7)%Z) /\
    (any_in ["major"; "highway"; "multiple"] (lower text) = false ->
     forall word, In word ["single"; "one"; "individual"] ->
                  mentions text word -> n = 1%Z /\ w' = w) /\
    (any_in ["major"; "highway"; "multiple"] (lower text) = false ->
     any_in ["single"; "one"; "individual"] (lower text) = false ->
     (1 <= n <= 3)%Z).
Proof.
  intros Hr Hnone. unfold _estimate_affected_deliveries.
  rewrite (findall_digits_none text Hnone).
  destruct (any_in ["major"; "highway"; "multiple"] (lower text)) eqn:Hmulti.
  - eexists _, _. split; [reflexivity|].
    pose proof (Hr (draws w) 3 8 ltac:(lia))%Z.
    split; [intros; lia|]. split; discriminate.
  - assert (Hno : forall word, In word ["major"; "highway"; "multiple"] ->
                               mentions text word -> False).
    { intros word Hin Hm.
      pose proof (any_in_intro _ _ word Hin (mentions_py_in _ _ Hm)). congruence. }
    destruct (any_in ["single"; "one"; "individual"] (lower text)) eqn:Hone.
    + eexists _, _. split; [reflexivity|].
      split; [intros word Hin Hm; destruct (Hno word Hin Hm)|].
      split; [auto|discriminate].
    + eexists _, _. split; [reflexivity|].
      pose proof (Hr (draws w) 1 4 ltac:(lia))%Z.
      split; [intros word Hin Hm; destruct (Hno word Hin Hm)|].
      split; [|intros; lia].
      intros _ word Hin Hm.
      pose proof (any_in_intro _ _ word Hin (mentions_py_in _ _ Hm)). congruence.
Qed.
End ScenarioProperties.

(** ** Running metrics *)

Section Metrics.
Variable E : Env.
Implicit Types (w : World (Text E)).

Lemma _update_metrics_result solution hit w :
  _update_metrics E solution hit w =
  (Returned tt,
   with_performance_metrics
     (mkPerf (total_scenarios (performance_metrics w) + 1)%Z
        (if hit then (cache_hits (performance_metrics w) + 1)%Z
         else cache_hits (performance_metrics w))
        ((average_response_time (performance_metrics w)
          * inject_Z (total_scenarios (performance_metrics w) + 1 - 1)
          + sol_execution_time solution)
         / inject_Z (total_scenarios (performance_metrics w) + 1))%Q
        (total_profit_generated (performance_metrics w) + sol_predicted_profit solution)%Q
        ((85 # 100)
         + py_min (15 # 100)
             (inject_Z (total_scenarios (performance_metrics w) + 1) * (1 # 1000)))%Q)
     w).
Proof. reflexivity. Qed.

(** X15: [_update_metrics] adds one to [total_scenarios], keeps
    [cache_hits] at most [total_scenarios], and sets an accuracy rate above
    0.85 and at most 1, which is 1 from the 150th scenario on. *)
Theorem update_metrics_accuracy solution hit w :
  (0 <= total_scenarios (performance_metrics w))%Z ->
  (cache_hits (performance_metrics w) <= total_scenarios (performance_metrics w))%Z ->
  exists w',
    _update_metrics E solution hit w = (Returned tt, w') /\
    total_scenarios (performance_metrics w')
    = (total_scenarios (performance_metrics w) + 1)%Z /\
    (cache_hits (performance_metrics w') <= total_scenarios (performance_metrics w'))%Z /\
    (85 # 100 < accuracy_rate (performance_metrics w'))%Q /\
    (accuracy_rate (performance_metrics w') <= 1)%Q /\
    ((150 <= total_scenarios (performance_metrics w'))%Z ->
     (accuracy_rate (performance_metrics w') == 1)%Q).
Proof.
  intros Hn Hh. rewrite _update_metrics_result. eexists. split; [reflexivity|].
  simpl. set (n := (total_scenarios (performance_metrics w) + 1)%Z).
  assert (Hn1 : (1 <= n)%Z) by (unfold n; lia).
  assert (HnQ : (1 <= inject_Z n)%Q)
    by (change 1%Q with (inject_Z 1); rewrite <- Zle_Qle; exact Hn1).
  split; [reflexivity|].
  split; [destruct hit; fold n; lia|].
  unfold py_min.
  destruct (Qlt_bool (inject_Z n * (1 # 1000)) (15 # 100)) eqn:Hlt.
  - apply Qlt_bool_iff in Hlt. repeat split; try lra.
    intros H150.
    assert (150 <= inject_Z n)%Q
      by (change 150%Q with (inject_Z 150); rewrite <- Zle_Qle; exact H150).
    lra.
  - apply Qlt_bool_false in Hlt. repeat split; try lra.
Qed.


End Metrics.

(** ** Frames: what a program leaves alone *)

Section Preserves.
Context {S A B X : Type} (f : S -> X).

Lemma preserves_ret (a : A) : preserves f (ret a : M S A).
Proof. intros s r s' H. injection H as _ <-. reflexivity. Qed.

Lemma preserves_raise (e : PyExn) : preserves f (raise e : M S A).
Proof. intros s r s' H. injection H as _ <-. reflexivity. Qed.

Lemma preserves_gets (g : S -> A) : preserves f (gets g).
Proof. intros s r s' H. injection H as _ <-. reflexivity. Qed.

Lemma preserves_bind (c : M S A) (k : A -> M S B) :
  preserves f c -> (forall a, preserves f (k a)) -> preserves f (bind c k).
Proof.
  intros Hc Hk s r s'. unfold bind.
  destruct (c s) as [[a|e] s1] eqn:Hcs; intros H.
  - rewrite (Hk a s1 r s' H). exact (Hc s _ s1 Hcs).
  - injection H as _ <-. exact (Hc s _ s1 Hcs).
Qed.

Lemma preserves_try_except (c : M S A) (h : PyExn -> M S A) :
  preserves f c -> (forall e, preserves f (h e)) -> preserves f (try_except c h).
Proof.
  intros Hc Hh s r s'. unfold try_except.
  destruct (c s) as [[a|e] s1] eqn:Hcs; intros H.
  - injection H as _ <-. exact (Hc s _ s1 Hcs).
  - rewrite (Hh e s1 r s' H). exact (Hc s _ s1 Hcs).
Qed.
End Preserves.

Lemma preserves_modify {S X} (f : S -> X) (g : S -> S) :
  (forall s, f (g s) = f s) -> preserves f (modify g).
Proof. intros Hg s r s' H. injection H as _ <-. apply Hg. Qed.

(** A component of the world that the clock, the random generators and the
    optimizer's own records do not touch is left alone by the optimizer and
    by the explanation step. *)
Section PipelineFrame.
Variable E : Env.
Context {X : Type} (f : World (Text E) -> X).
Hypothesis f_ticks : forall n w, f (with_ticks n w) = f w.
Hypothesis f_draws : forall n w, f (with_draws n w) = f w.
Hypothesis f_profit_metrics : forall pm w, f (with_profit_metrics pm w) = f w.
Hypothesis f_history : forall h w, f (with_optimization_history h w) = f w.

Lemma preserves_time_time : preserves f (time_time E).
Proof. intros w r w' H. injection H as _ <-. apply f_ticks. Qed.

Lemma preserves_random_uniform a b : preserves f (random_uniform E a b).
Proof. intros w r w' H. injection H as _ <-. apply f_draws. Qed.

Lemma preserves_np_random_randint lo hi : preserves f (np_random_randint E lo hi).
Proof. intros w r w' H. injection H as _ <-. apply f_draws. Qed.

Lemma preserves_lift {A} (o : outcome A) : preserves f (lift E o).
Proof. destruct o; [apply preserves_ret|apply preserves_raise]. Qed.

Lemma preserves_for_each {A B} (g : A -> Prog E B) (l : list A) :
  (forall x, preserves f (g x)) -> preserves f (for_each E g l).
Proof.
  intros Hg. induction l as [|x l IH]; simpl.
  - apply preserves_ret.
  - apply preserves_bind; [apply Hg|]. intros y.
    apply preserves_bind; [exact IH|]. intros ys. apply preserves_ret.
Qed.

Ltac frame_step :=
  first [ apply preserves_ret
        | apply preserves_time_time
        | apply preserves_random_uniform
        | apply preserves_np_random_randint
        | apply preserves_lift
        | apply preserves_gets
        | apply preserves_modify; intros ?; first [apply f_profit_metrics | apply f_history]
        | apply preserves_bind; [|intros ?] ].

Lemma preserves_create_scenario text : preserves f (_create_scenario E text).
Proof.
  unfold _create_scenario, _assess_severity, _estimate_affected_deliveries.
  repeat match goal with
         | |- context [if ?b then _ else _] => destruct b
         end;
    destruct (findall_digits text);
    repeat match goal with
           | |- context [if ?b then _ else _] => destruct b
           end;
    repeat frame_step.
Qed.

Lemma preserves_calculate_roi solution scenario context :
  preserves f (_calculate_roi E solution scenario context).
Proof.
  unfold _calculate_roi, _get_customer_ltv_impact, _assess_brand_impact.
  repeat match goal with
         | |- context [if ?b then _ else _] => destruct b
         end;
    repeat frame_step.
Qed.

Lemma preserves_generate_solution_candidates scenario context :
  preserves f (_generate_solution_candidates E scenario context).
Proof.
  unfold _generate_solution_candidates, _generate_customer_solutions,
    _generate_traffic_solutions, _generate_driver_solutions,
    _generate_general_solutions.
  repeat match goal with
         | |- context [if ?b then _ else _] => destruct b
         end;
    repeat frame_step.
Qed.

Lemma preserves_optimize scenario context : preserves f (optimize E scenario context).
Proof.
  unfold optimize.
  apply preserves_bind; [apply preserves_time_time|]. intros start_time.
  apply preserves_bind; [apply preserves_generate_solution_candidates|].
  intros candidates.
  apply preserves_bind.
  { apply preserves_for_each. intros c.
    apply preserves_bind; [apply preserves_calculate_roi|]. intros r.
    apply preserves_ret. }
  intros evaluated.
  unfold _update_optimization_metrics, _record_optimization.
  repeat frame_step.
Qed.

Lemma preserves_execute_with_reasoning scenario solution context :
  preserves f (_execute_with_reasoning E scenario solution context).
Proof.
  unfold _execute_with_reasoning.
  apply preserves_bind; [|intros explained; repeat frame_step].
  apply preserves_try_except; [|intros e; apply preserves_ret].
  destruct (llm E); repeat frame_step.
Qed.
End PipelineFrame.

(** ** More on the orchestrator *)

Section ResolveMore.
Variable E : Env.
Implicit Types (w : World (Text E)) (key : string).

Lemma cache_get_preserves_metrics {Value} (codec : Codec Value (Text E)) key :
  preserves performance_metrics (cache_get E codec key).
Proof.
  intros w r w' H.
  destruct (cache_get_cases E codec w key) as (r0 & w0 & Hget & Hpm & _).
  rewrite Hget in H. injection H as _ <-. exact Hpm.
Qed.

Lemma _check_prediction_cache_preserves_metrics scenario :
  preserves performance_metrics (_check_prediction_cache E scenario).
Proof.
  unfold _check_prediction_cache.
  apply preserves_bind; [apply cache_get_preserves_metrics|].
  intros [[d|t]|]; [apply preserves_ret|apply preserves_raise|apply preserves_ret].
Qed.

(** The shape of what the explanation step returns. *)
Lemma _execute_with_reasoning_shape scenario solution context w sol w' :
  _execute_with_reasoning E scenario solution context w = (Returned sol, w') ->
  exists solution_id reasoning_text options,
    sol = mkSolution solution_id (id scenario)
            (default [] (actions solution))
            (default 0%Q (predicted_profit solution))
            (default (8 # 10)%Q (confidence solution))
            reasoning_text 0%Q false (Some options).
Proof.
  unfold _execute_with_reasoning. intros H.
  apply bind_inv in H as (explained & w1 & _ & H).
  rewrite (bind_returned _ _ _ _ _ (time_time_eq E w1)) in H.
  injection H as <- _. eauto.
Qed.

(** What a returning resolution did: it created the scenario, probed the
    cache, and then either returned the cached solution or ran the pipeline
    and stored its result. *)
Lemma solve_disruption_inv text w sol w' :
  solve_disruption E text w = (Returned sol, w') ->
  exists scenario w2 cached w3,
    _create_scenario E text (with_ticks (S (ticks w)) w) = (Returned scenario, w2) /\
    scenario_key scenario = text_key E text /\
    cache_manager w2 = cache_manager w /\
    performance_metrics w2 = performance_metrics w /\
    _check_prediction_cache E scenario w2 = (Returned cached, w3) /\
    match cached with
    | Some cached_solution =>
        exists now,
          sol = with_execution_time now (with_cache_hit true cached_solution) /\
          w' = snd (_update_metrics E sol true (with_ticks (S (ticks w3)) w3))
    | None =>
        exists w5,
          cache_hit sol = false /\
          is_Some (interactive_options sol) /\
          cache_manager w5 = cache_manager w3 /\
          performance_metrics w5 = performance_metrics w3 /\
          w' = snd (_update_metrics E sol false
                      (snd (cache_set E (solution_codec E) (scenario_key scenario)
                                      (to_dict sol) 3600 w5)))
    end.
Proof.
  intros H. unfold solve_disruption in H.
  rewrite (bind_returned _ _ _ _ _ (time_time_eq E w)) in H.
  destruct (_create_scenario_returns E text (with_ticks (S (ticks w)) w))
    as (sc & w2 & Hsc & Hkey & _ & Hcm & _).
  pose proof (preserves_create_scenario E performance_metrics
                (fun _ _ => eq_refl) (fun _ _ => eq_refl) text _ _ _ Hsc) as Hpm.
  rewrite (bind_returned _ _ _ _ _ Hsc) in H.
  apply bind_inv in H as (cached & w3 & Hchk & H).
  exists sc, w2, cached, w3.
  split; [exact Hsc|]. split; [exact Hkey|]. split; [exact Hcm|].
  split; [exact Hpm|]. split; [exact Hchk|].
  destruct cached as [cached|].
  - rewrite (bind_returned _ _ _ _ _ (time_time_eq E w3)) in H.
    unfold _update_metrics in H. rewrite bind_modify in H.
    injection H as <- <-. eexists. split; reflexivity.
  - cbv zeta in H.
    apply bind_inv in H as (best & w4 & Hopt & H).
    apply bind_inv in H as (final & w5 & Hex & H).
    rewrite (bind_returned _ _ _ _ _ (time_time_eq E w5)) in H.
    destruct (_execute_with_reasoning_shape _ _ _ _ _ _ Hex)
      as (sid & rt & opts & ->).
    unfold _cache_solution in H.
    match type of H with
    | context [bind (bind (cache_set E ?c ?k ?v ?ttl) _) _ ?w6] =>
        destruct (cache_set_result E c w6 k v ttl) as [now Hset];
        rewrite (bind_returned _ _ _ _ _ (bind_returned _ _ _ _ _ Hset)) in H
    end.
    unfold _update_metrics in H. rewrite bind_modify in H.
    injection H as <- <-.
    exists (with_ticks (S (ticks w5)) w5).
    split; [reflexivity|]. split; [simpl; eauto|].
    split.
    { simpl.
      rewrite (preserves_execute_with_reasoning E cache_manager
                 (fun _ _ => eq_refl) _ _ _ _ _ _ Hex).
      exact (preserves_optimize E cache_manager
               (fun _ _ => eq_refl) (fun _ _ => eq_refl)
               (fun _ _ => eq_refl) (fun _ _ => eq_refl) _ _ _ _ _ Hopt). }
    split.
    { simpl.
      rewrite (preserves_execute_with_reasoning E performance_metrics
                 (fun _ _ => eq_refl) _ _ _ _ _ _ Hex).
      exact (preserves_optimize E performance_metrics
               (fun _ _ => eq_refl) (fun _ _ => eq_refl)
               (fun _ _ => eq_refl) (fun _ _ => eq_refl) _ _ _ _ _ Hopt). }
    rewrite Hset. reflexivity.
Qed.
End ResolveMore.

Lemma Solution_of_dict_to_dict (s : Solution) :
  is_Some (interactive_options s) -> Solution_of_dict (to_dict s) = s.
Proof. intros [o Ho]. destruct s. simpl in *. rewrite Ho. reflexivity. Qed.

Section ResolveTheorems.
Variable E : Env.
Implicit Types (w : World (Text E)) (key : string).



(** X17: a resolution that returns has updated the agent's metrics once:
    [total_scenarios] has grown by one, [cache_hits] by one exactly when the
    returned solution is a cache hit, and [total_profit_generated] by the
    predicted profit of the returned solution. *)
Theorem resolve_updates_metrics text w sol w' :
  solve_disruption E text w = (Returned sol, w') ->
  total_scenarios (performance_metrics w')
  = (total_scenarios (performance_metrics w) + 1)%Z /\
  cache_hits (performance_metrics w')
  = (cache_hits (performance_metrics w) + if cache_hit sol then 1 else 0)%Z /\
  total_profit_generated (performance_metrics w')
  = (total_profit_generated (performance_metrics w) + sol_predicted_profit sol)%Q.
Proof.
  intros H.
  apply solve_disruption_inv in H
    as (sc & w2 & cached & w3 & _ & _ & _ & Hpm2 & Hchk & H).
  pose proof (_check_prediction_cache_preserves_metrics E sc _ _ _ Hchk) as Hpm3.
  destruct cached as [cs|].
  - destruct H as (now & -> & ->). simpl. rewrite Hpm3, Hpm2. auto.
  - destruct H as (w5 & Hhit & _ & _ & Hpm5 & ->).
    destruct (cache_set_result E (solution_codec E) w5 (scenario_key sc)
                (to_dict sol) 3600) as [now ->].
    simpl. rewrite Hhit, Hpm5, Hpm3, Hpm2. repeat split; lia.
Qed.

End ResolveTheorems.

Section ResolveTotality.
Variable E : Env.
Implicit Types (w : World (Text E)) (key : string).


(** Once the probe has returned, the resolution returns too. *)
Lemma solve_disruption_after_probe text w scenario w2 cached w3 :
  _create_scenario E text (with_ticks (S (ticks w)) w) = (Returned scenario, w2) ->
  _check_prediction_cache E scenario w2 = (Returned cached, w3) ->
  exists sol w',
    solve_disruption E text w = (Returned sol, w') /\
    match cached with
    | Some cached_solution =>
        exists now, sol = with_execution_time now (with_cache_hit true cached_solution)
    | None => cache_hit sol = false
    end.
Proof.
  intros Hsc Hchk. unfold solve_disruption.
  rewrite (bind_returned _ _ _ _ _ (time_time_eq E w)).
  rewrite (bind_returned _ _ _ _ _ Hsc).
  rewrite (bind_returned _ _ _ _ _ Hchk).
  destruct cached as [cs|].
  - rewrite (bind_returned _ _ _ _ _ (time_time_eq E w3)).
    unfold _update_metrics. rewrite bind_modify.
    eexists _, _. split; [reflexivity|]. eexists. reflexivity.
  - cbv zeta.
    destruct (returns_optimize E scenario (analyze_scenario E scenario) w3)
      as (best & w4 & Hopt).
    rewrite (bind_returned _ _ _ _ _ Hopt).
    destruct (_execute_with_reasoning_returns E scenario best
                (analyze_scenario E scenario) w4) as (final & w5 & Hex & Hhit).
    rewrite (bind_returned _ _ _ _ _ Hex).
    rewrite (bind_returned _ _ _ _ _ (time_time_eq E w5)).
    match goal with
    | |- context [_cache_solution E scenario ?final'] =>
        destruct (_cache_solution_stores E scenario final'
                    (with_ticks (S (ticks w5)) w5)) as (w7 & Hstore & _)
    end.
    rewrite (bind_returned _ _ _ _ _ Hstore).
    unfold _update_metrics. rewrite bind_modify.
    eexists _, _. split; [reflexivity|]. exact Hhit.
Qed.


(** X20: when there is no language-model client, or when one of its two
    calls raises, the solution carries the fixed default explanation and the
    fixed two-item list of options, whatever the other call returned; when
    both calls return, the solution carries what they returned. *)
Theorem reasoning_falls_back scenario solution context w :
  (llm E = None \/
   (exists client,
      llm E = Some client /\
      ((exists e, generate_concise_logistics_solution client
                    (sc_description scenario) solution = Raised e) \/
       (exists e, generate_interactive_options client
                    (sc_description scenario) solution = Raised e))) ->
   exists sol w',
     _execute_with_reasoning E scenario solution context w = (Returned sol, w') /\
     reasoning sol = default_reasoning /\
     interactive_options sol = Some default_interactive_options) /\
  (forall client text options,
      llm E = Some client ->
      generate_concise_logistics_solution client (sc_description scenario) solution
      = Returned text ->
      generate_interactive_options client (sc_description scenario) solution
      = Returned options ->
      exists sol w',
        _execute_with_reasoning E scenario solution context w = (Returned sol, w') /\
        reasoning sol = text /\
        interactive_options sol = Some options).
Proof.
  unfold _execute_with_reasoning, try_except, lift, bind, raise, ret, time_time.
  split.
  - intros [Hnone|(client & Hsome & Hfail)].
    + rewrite Hnone. eexists _, _. split; [reflexivity|]. split; reflexivity.
    + rewrite Hsome.
      destruct (generate_concise_logistics_solution client
                  (sc_description scenario) solution) as [text|e1] eqn:H1.
      * destruct Hfail as [[e He]|[e He]]; [discriminate He|].
        rewrite He. eexists _, _. split; [reflexivity|]. split; reflexivity.
      * eexists _, _. split; [reflexivity|]. split; reflexivity.
  - intros client text options Hsome H1 H2. rewrite Hsome, H1, H2.
    eexists _, _. split; [reflexivity|]. split; reflexivity.
Qed.

Lemma solve_disruption_hit_full text w t d :
  cache (cache_manager w) !! text_key E text = Some t ->
  json_loads (solution_codec E) t = Some d ->
  within_ttl E w (text_key E text) ->
  exists now w',
    solve_disruption E text w
    = (Returned (with_execution_time now (with_cache_hit true (Solution_of_dict d))), w').
Proof.
  intros Hc Hd Httl.
  destruct (_create_scenario_returns E text (with_ticks (S (ticks w)) w))
    as (sc & w2 & Hsc & Hkey & _ & Hcm & Htk).
  assert (Hc2 : cache (cache_manager w2) !! scenario_key sc = Some t)
    by (rewrite Hkey, Hcm; exact Hc).
  assert (Hfresh : forall e,
             expiry_times (cache_manager w2) !! scenario_key sc = Some (Some e) ->
             (clock E (ticks w2) <= e)%Q).
  { intros e He. rewrite Hkey, Hcm in He. rewrite Htk. exact (Httl e He). }
  destruct (_check_prediction_cache_hit E sc w2 t d Hc2 Hd Hfresh) as (w3 & Hchk).
  destruct (solve_disruption_after_probe text w sc w2 _ w3 Hsc Hchk)
    as (sol & w' & Hs & now & ->).
  eauto.
Qed.

(** X21: a cache hit returns the solution of the earlier resolution in
    every field but two: it equals the first solution with [cache_hit] set
    and its own execution time. *)
Theorem cache_hit_returns_stored_solution text w0 sol1 w1 w1' :
  codec_roundtrip (solution_codec E) ->
  solve_disruption E text w0 = (Returned sol1, w1) ->
  cache (cache_manager w1') !! text_key E text
  = cache (cache_manager w1) !! text_key E text ->
  within_ttl E w1' (text_key E text) ->
  exists sol2 w2,
    solve_disruption E text w1' = (Returned sol2, w2) /\
    sol2 = with_execution_time (sol_execution_time sol2) (with_cache_hit true sol1).
Proof.
  intros Hcodec Hfirst Hkept Httl.
  assert (Hentry : exists t d,
             cache (cache_manager w1) !! text_key E text = Some t /\
             json_loads (solution_codec E) t = Some d /\
             forall now, with_execution_time now (with_cache_hit true (Solution_of_dict d))
                         = with_execution_time now (with_cache_hit true sol1)).
  { apply solve_disruption_inv in Hfirst
      as (sc & w2 & cached & w3 & _ & Hkey & Hcm2 & _ & Hchk & H).
    destruct cached as [cs|].
    - destruct H as (now & -> & ->).
      apply _check_prediction_cache_inv in Hchk as (t & d & Hc & Hd & -> & Hsame).
      exists t, d. simpl. rewrite Hsame, <- Hkey. auto.
    - destruct H as (w5 & _ & Hopts & _ & _ & ->).
      destruct (cache_set_result E (solution_codec E) w5 (scenario_key sc)
                  (to_dict sol1) 3600) as [now ->].
      destruct (Hcodec (to_dict sol1)) as (t & Hdumps & Hloads).
      exists t, (to_dict sol1). simpl.
      rewrite <- Hkey, lookup_insert_eq.
      unfold _serialize_value. rewrite Hdumps.
      rewrite (Solution_of_dict_to_dict sol1 Hopts). auto. }
  destruct Hentry as (t & d & Hc & Hd & Hsame).
  rewrite <- Hkept in Hc.
  destruct (solve_disruption_hit_full text w1' t d Hc Hd Httl) as (now & w2 & Hsecond).
  eexists _, w2. split; [exact Hsecond|].
  simpl. rewrite Hsame. reflexivity.
Qed.
End ResolveTotality.

(** ** Instances in the concrete environment *)

Lemma demo_uniform_in_range : uniform_in_range demo_env.
Proof.
  intros n a b H. change (a <= (a + b) * (1 # 2) <= b)%Q. split; lra.
Qed.

Lemma demo_cached_world_consistent : cache_consistent (cache_manager demo_cached_world).
Proof. split; vm_compute; reflexivity. Qed.

Lemma set_then_get_returns_value_witness :
  exists w',
    cache_get demo_env identity_codec "k" demo_cached_world
    = (Returned (Some (Decoded (to_dict demo_first_solution))), w') /\
    hits (stats (cache_manager w'))
    = (hits (stats (cache_manager demo_cached_world)) + 1)%Z /\
    misses (stats (cache_manager w')) = misses (stats (cache_manager demo_cached_world)) /\
    cache (cache_manager w') !! "k" = Some (to_dict demo_first_solution).
Proof.
  apply (set_then_get_returns_value demo_env identity_codec initial_world "k"
           (to_dict demo_first_solution) 3600 demo_cached_world demo_cached_world
           (to_dict demo_first_solution));
    try reflexivity.
  right. vm_compute. discriminate.
Defined.

Lemma ttl_after_set_witness :
  exists r w',
    cache_ttl demo_env "k" demo_cached_world = (Returned r, w') /\
    ((3600 <= 0)%Z -> r = (-1)%Z) /\
    ((0 < 3600)%Z -> (0 <= r <= 3600)%Z).
Proof.
  apply (ttl_after_set demo_env identity_codec initial_world "k"
           (to_dict demo_first_solution) 3600 demo_cached_world demo_cached_world);
    try reflexivity.
  vm_compute. discriminate.
Defined.

Lemma ttl_codes_witness :
  exists r w',
    cache_ttl demo_env "k" demo_cached_world = (Returned r, w') /\
    (r = (-2)%Z <-> cache (cache_manager demo_cached_world) !! "k" = None) /\
    (r = (-1)%Z <->
     is_Some (cache (cache_manager demo_cached_world) !! "k") /\
     expiry_times (cache_manager demo_cached_world) !! "k" = Some None) /\
    (-2 <= r)%Z.
Proof.
  exact (ttl_codes demo_env demo_cached_world "k" demo_cached_world_consistent).
Defined.

Lemma cache_consistent_kept_witness :
  cache_consistent (cache_manager (snd (cache_delete demo_env "k" demo_cached_world))) /\
  cache_consistent (cache_manager (snd (cache_expire demo_env "k" 0 demo_cached_world))).
Proof.
  pose proof (cache_consistent_kept demo_env demo_cached_world
                demo_cached_world_consistent) as (_ & _ & Hdel & _ & Hexp & _).
  split; [apply Hdel|apply Hexp].
Defined.

Lemma delete_removes_entry_witness :
  exists b w',
    cache_delete demo_env "k" demo_cached_world = (Returned b, w') /\
    (b = true <-> is_Some (cache (cache_manager demo_cached_world) !! "k")) /\
    cache (cache_manager w') !! "k" = None /\
    expiry_times (cache_manager w') !! "k" = None /\
    access_times (cache_manager w') !! "k" = None /\
    (forall k, k <> "k" ->
       cache (cache_manager w') !! k = cache (cache_manager demo_cached_world) !! k /\
       expiry_times (cache_manager w') !! k
       = expiry_times (cache_manager demo_cached_world) !! k /\
       access_times (cache_manager w') !! k
       = access_times (cache_manager demo_cached_world) !! k) /\
    deletes (stats (cache_manager w'))
    = (deletes (stats (cache_manager demo_cached_world)) + if b then 1 else 0)%Z /\
    (b = false -> w' = demo_cached_world).
Proof.
  exact (delete_removes_entry demo_env demo_cached_world "k"
           demo_cached_world_consistent).
Defined.

Lemma severity_bands_witness :
  exists s w',
    _assess_severity demo_env "Major accident on Highway 1" initial_world
    = (Returned s, w') /\
    (1 # 10 <= s <= 1)%Q.
Proof.
  destruct (severity_bands demo_env "Major accident on Highway 1" initial_world
              demo_uniform_in_range) as (s & w' & Heq & Hrange & _).
  exists s, w'. split; assumption.
Defined.

Lemma affected_deliveries_bands_witness :
  exists n w',
    _estimate_affected_deliveries demo_env "A single parcel is late" initial_world
    = (Returned n, w') /\
    (forall word, In word ["single"; "one"; "individual"] ->
                  mentions "A single parcel is late" word ->
                  n = 1%Z /\ w' = initial_world).
Proof.
  destruct (affected_deliveries_bands demo_env "A single parcel is late" initial_world
              demo_randint_in_range eq_refl) as (n & w' & Heq & _ & Hone & _).
  exists n, w'. split; [exact Heq|]. apply Hone. reflexivity.
Defined.

Lemma update_metrics_accuracy_witness :
  exists w',
    _update_metrics demo_env demo_first_solution false initial_world = (Returned tt, w') /\
    total_scenarios (performance_metrics w') = 1%Z /\
    (85 # 100 < accuracy_rate (performance_metrics w'))%Q /\
    (accuracy_rate (performance_metrics w') <= 1)%Q.
Proof.
  destruct (update_metrics_accuracy demo_env demo_first_solution false initial_world)
    as (w' & Heq & Ht & _ & Hlo & Hhi & _); [simpl; lia | simpl; lia |].
  exists w'. auto.
Defined.


Lemma demo_first_resolution :
  solve_disruption demo_env "" initial_world
  = (Returned demo_first_solution, demo_first_world).
Proof. vm_compute. reflexivity. Qed.

Lemma resolve_updates_metrics_witness :
  total_scenarios (performance_metrics demo_first_world) = 1%Z /\
  cache_hits (performance_metrics demo_first_world) = 0%Z.
Proof.
  destruct (resolve_updates_metrics demo_env "" initial_world demo_first_solution
              demo_first_world demo_first_resolution) as (Ht & Hh & _).
  split; [exact Ht|exact Hh].
Defined.


Lemma demo_first_world_within_ttl :
  within_ttl demo_env demo_first_world (text_key demo_env "").
Proof.
  intros e He. vm_compute in He. injection He as <-. vm_compute. discriminate.
Qed.

Lemma cache_hit_returns_stored_solution_witness :
  exists sol2 w2,
    solve_disruption demo_env "" demo_first_world = (Returned sol2, w2) /\
    sol2 = with_execution_time (sol_execution_time sol2)
             (with_cache_hit true demo_first_solution).
Proof.
  exact (cache_hit_returns_stored_solution demo_env "" initial_world
           demo_first_solution demo_first_world demo_first_world
           identity_codec_roundtrip demo_first_resolution eq_refl
           demo_first_world_within_ttl).
Defined.

(** ** More on the optimizer *)

Lemma Qdiv_pos_iff (x t : Q) :
  (0 < t)%Q -> (0 < x / t * 100 <-> 0 < x)%Q.
Proof.
  intros Ht. split; intros H.
  - assert (Heq : (x == x / t * 100 * (t * (1 # 100)))%Q) by (field; lra).
    rewrite Heq. apply Qmult_lt_0_compat; [exact H|lra].
  - unfold Qdiv. apply Qinv_lt_0_compat in Ht.
    apply Qmult_lt_0_compat; [|reflexivity].
    apply Qmult_lt_0_compat; assumption.
Qed.

Lemma monthly_impact_nonneg (base multiplier : Q) :
  (0 <= base)%Q -> (1 <= multiplier)%Q ->
  (0 <= (base * multiplier - base) / 365 * 30)%Q.
Proof.
  intros Hb Hm.
  assert (Heq : ((base * multiplier - base) / 365 * 30
                 == base * (multiplier - 1) * (30 # 365))%Q) by (field).
  rewrite Heq. apply Qmult_le_0_compat; [|discriminate].
  apply Qmult_le_0_compat; [exact Hb|lra].
Qed.

(** X22: the operational cost of a solution does not decrease when more
    deliveries are affected, and a scenario with at most one affected
    delivery (zero and negative counts included) is charged as one delivery:
    the base cost 10 plus the fees of the actions. *)
Theorem operational_cost_monotone solution scenario1 scenario2 :
  ((affected_deliveries scenario1 <= affected_deliveries scenario2)%Z ->
   (_calculate_operational_costs solution scenario1
    <= _calculate_operational_costs solution scenario2)%Q) /\
  ((affected_deliveries scenario1 <= 1)%Z ->
   (_calculate_operational_costs solution scenario1
    == 10 + sum_fees (default [] (actions solution)))%Q).
Proof.
  rewrite !operational_costs_unfold. split.
  - intros Hle.
    apply Qplus_le_compat; [apply Qle_refl|].
    rewrite !(Qmult_comm (sum_fees _)).
    apply Qmult_le_compat_r; [|apply sum_fees_nonneg].
    rewrite <- Zle_Qle. lia.
  - intros Hle. replace (Z.max 1 (affected_deliveries scenario1)) with 1%Z by lia.
    ring.
Qed.

(** X23: the payback period is infinite ([None]) exactly when the monthly
    profit is not positive; otherwise it is at most 365 days, it is not
    negative when the cost is not negative, and it is the cost divided by the
    daily profit (the monthly profit over 30) whenever that quotient does not
    exceed 365. *)
Theorem payback_period_capped (total_cost monthly_profit : Q) :
  (_calculate_payback_period total_cost monthly_profit = None
   <-> (monthly_profit <= 0)%Q) /\
  (forall days,
      _calculate_payback_period total_cost monthly_profit = Some days ->
      (days <= 365)%Q /\
      ((0 <= total_cost)%Q -> (0 <= days)%Q) /\
      ((total_cost / (monthly_profit / 30) <= 365)%Q ->
       (days == total_cost / (monthly_profit / 30))%Q)).
Proof.
  unfold _calculate_payback_period.
  destruct (Qle_bool monthly_profit 0) eqn:Hle.
  - apply Qle_bool_iff in Hle. split; [split; auto|]. intros days H. discriminate H.
  - assert (Hpos : (0 < monthly_profit)%Q).
    { apply Qnot_le_lt. intros H. apply Qle_bool_iff in H. congruence. }
    assert (Hdaily : (0 < monthly_profit / 30)%Q).
    { unfold Qdiv. apply Qmult_lt_0_compat; [exact Hpos|reflexivity]. }
    pose proof Hdaily as Hb. apply Qlt_bool_iff in Hb. rewrite Hb.
    split.
    + split; [discriminate|]. intros H. exfalso. exact (Qlt_not_le _ _ Hpos H).
    + intros days H. injection H as <-. unfold py_min.
      destruct (Qlt_bool 365 (total_cost / (monthly_profit / 30))) eqn:Hcap.
      * apply Qlt_bool_iff in Hcap. split; [apply Qle_refl|].
        split; [intros _; discriminate|].
        intros H. exfalso. exact (Qlt_not_le _ _ Hcap H).
      * apply Qlt_bool_false in Hcap. split; [exact Hcap|].
        split; [|intros _; reflexivity].
        intros Hc. unfold Qdiv at 1. apply Qmult_le_0_compat; [exact Hc|].
        apply Qlt_le_weak, Qinv_lt_0_compat, Hdaily.
Qed.

Section Evaluation.
Variable E : Env.
Implicit Types (w : World (Text E)).

(** With draws inside their ranges, the two long-term impacts that
    [_calculate_roi] draws are not negative. *)
Lemma _calculate_roi_in_range solution scenario context w :
  uniform_in_range E ->
  exists customer_ltv brand_impact w',
    _calculate_roi E solution scenario context w =
    (Returned
       (let operational_costs := _calculate_operational_costs solution scenario in
        let immediate_profit := default 0%Q (predicted_profit solution) in
        let long_term_profit := (customer_ltv + brand_impact)%Q in
        let total_profit := (immediate_profit + long_term_profit)%Q in
        let roi :=
          if Qlt_bool 0 operational_costs
          then ((total_profit - operational_costs) / py_max operational_costs 1)%Q
          else total_profit in
        mkROI immediate_profit long_term_profit operational_costs brand_impact
              customer_ltv total_profit operational_costs (roi * 100)%Q
              (_calculate_payback_period operational_costs long_term_profit)),
     w') /\
    (0 <= customer_ltv)%Q /\ (0 <= brand_impact)%Q.
Proof.
  intros Hu.
  unfold _calculate_roi, _get_customer_ltv_impact, _assess_brand_impact,
    bind, random_uniform, ret.
  repeat match goal with
         | |- context [if ?b then _ else _] =>
             match b with
             | String.eqb _ _ => destruct b
             | existsb _ _ => destruct b
             end
         end;
    simpl; eexists _, _, _; (split; [reflexivity|]);
    split; apply monthly_impact_nonneg;
    match goal with
    | |- (_ <= uniform E ?n ?a ?b)%Q =>
        pose proof (Hu n a b ltac:(discriminate)) as [? ?]; lra
    end.
Qed.

(** X24: with every draw inside its range, the analysis returned by the
    evaluator has customer and brand impacts that are not negative, so its
    total profit is at least its immediate profit, and its ROI percentage is
    positive exactly when the total profit exceeds the total cost. *)
Theorem roi_sign solution scenario context w :
  uniform_in_range E ->
  exists r w',
    _calculate_roi E solution scenario context w = (Returned r, w') /\
    (0 <= customer_ltv_impact r)%Q /\
    (0 <= brand_impact r)%Q /\
    (immediate_profit r <= total_profit r)%Q /\
    (0 < roi_percentage r <-> total_cost r < total_profit r)%Q.
Proof.
  intros Hu.
  destruct (_calculate_roi_in_range solution scenario context w Hu)
    as (ltv & brand & w' & Heq & Hltv & Hbrand).
  eexists _, w'. split; [exact Heq|]. simpl.
  split; [exact Hltv|]. split; [exact Hbrand|]. split; [lra|].
  pose proof (operational_costs_at_least_base solution scenario) as Hbase.
  set (oc := _calculate_operational_costs solution scenario) in *.
  assert (Hpos : (0 < oc)%Q) by lra.
  pose proof Hpos as Hb. apply Qlt_bool_iff in Hb. rewrite Hb.
  assert (Hmax : py_max oc 1 = oc).
  { unfold py_max. destruct (Qlt_bool oc 1) eqn:Hlt; [|reflexivity].
    apply Qlt_bool_iff in Hlt. lra. }
  rewrite Hmax, (Qdiv_pos_iff _ oc Hpos). split; intros H; lra.
Qed.
End Evaluation.

Section Generation.
Variable E : Env.
Implicit Types (w : World (Text E)).

Ltac in_range Hu :=
  repeat match goal with
         | |- context [uniform E ?n ?a ?b] =>
             lazymatch goal with
             | _ : (a <= uniform E n a b)%Q |- _ => fail
             | _ => pose proof (Hu n a b ltac:(discriminate)) as [? ?]
             end
         end.

Ltac generated Hu :=
  unfold generated_candidate;
  cbn [approach actions roi_analysis predicted_profit confidence];
  repeat split;
  first [ eexists; split; [reflexivity|]; cbn [In]; tauto
        | eexists; split; [reflexivity|]; discriminate
        | reflexivity
        | eexists; split; [reflexivity|]; in_range Hu; split; lra
        | discriminate ].

Lemma generate_solution_candidates_spec scenario context w :
  uniform_in_range E ->
  exists candidates w',
    _generate_solution_candidates E scenario context w = (Returned candidates, w') /\
    candidates <> [] /\
    Forall (generated_candidate (scenario_type scenario)) candidates.
Proof.
  intros Hu.
  unfold _generate_solution_candidates, _generate_customer_solutions,
    _generate_traffic_solutions, _generate_driver_solutions,
    _generate_general_solutions, _generate_base_solution, dispatch_approaches,
    bind, random_uniform, ret.
  unfold generated_candidate, dispatch_approaches.
  destruct (String.eqb (scenario_type scenario) "customer_issue");
    [|destruct (String.eqb (scenario_type scenario) "traffic_disruption");
      [|destruct (String.eqb (scenario_type scenario) "driver_wellbeing")]];
    eexists _, _; (split; [reflexivity|]); (split; [discriminate|]);
    repeat (apply List.Forall_cons || apply List.Forall_nil); generated Hu.
Qed.

Lemma candidates_shape scenario context w :
  exists candidates w',
    _generate_solution_candidates E scenario context w = (Returned candidates, w') /\
    candidates <> [] /\
    Forall (fun c => exists a, approach c = Some a /\
                     In a (dispatch_approaches (scenario_type scenario)))
           candidates.
Proof.
  unfold _generate_solution_candidates, _generate_customer_solutions,
    _generate_traffic_solutions, _generate_driver_solutions,
    _generate_general_solutions, _generate_base_solution, dispatch_approaches,
    bind, random_uniform, ret.
  destruct (String.eqb (scenario_type scenario) "customer_issue");
    [|destruct (String.eqb (scenario_type scenario) "traffic_disruption");
      [|destruct (String.eqb (scenario_type scenario) "driver_wellbeing")]];
    eexists _, _; (split; [reflexivity|]); (split; [discriminate|]);
    repeat (apply List.Forall_cons || apply List.Forall_nil);
    eexists; (split; [reflexivity|]); cbn [In]; tauto.
Qed.

(** X25: the generator returns the baseline candidate first (approach
    [standard], predicted profit 0), followed by one or two variants: two for
    the scenario types [customer_issue], [traffic_disruption] and
    [driver_wellbeing], one for every other type.  With every draw inside its
    range each candidate has an approach of the set of its scenario type, at
    least one action, no analysis yet, a predicted profit between 0 and 120
    and a confidence between 0.7 and 0.9. *)
Theorem candidates_start_with_baseline scenario context w :
  exists more w',
    _generate_solution_candidates E scenario context w
    = (Returned (_generate_base_solution E scenario context :: more), w') /\
    approach (_generate_base_solution E scenario context) = Some "standard" /\
    predicted_profit (_generate_base_solution E scenario context) = Some 0%Q /\
    (1 <= length more <= 2)%nat /\
    (length more = 2%nat <->
     scenario_type scenario = "customer_issue" \/
     scenario_type scenario = "traffic_disruption" \/
     scenario_type scenario = "driver_wellbeing") /\
    (uniform_in_range E ->
     Forall (generated_candidate (scenario_type scenario))
            (_generate_base_solution E scenario context :: more)).
Proof.
  unfold _generate_solution_candidates, _generate_customer_solutions,
    _generate_traffic_solutions, _generate_driver_solutions,
    _generate_general_solutions, bind, random_uniform, ret.
  unfold generated_candidate, dispatch_approaches.
  destruct (String.eqb (scenario_type scenario) "customer_issue") eqn:H1;
    [|destruct (String.eqb (scenario_type scenario) "traffic_disruption") eqn:H2;
      [|destruct (String.eqb (scenario_type scenario) "driver_wellbeing") eqn:H3]];
    eexists _, _; (split; [reflexivity|]);
    (split; [reflexivity|]); (split; [reflexivity|]); (split; [simpl; lia|]).
  - apply String.eqb_eq in H1. split; [tauto|].
    intros Hu. repeat (apply List.Forall_cons || apply List.Forall_nil); generated Hu.
  - apply String.eqb_eq in H2. split; [tauto|].
    intros Hu. repeat (apply List.Forall_cons || apply List.Forall_nil); generated Hu.
  - apply String.eqb_eq in H3. split; [tauto|].
    intros Hu. repeat (apply List.Forall_cons || apply List.Forall_nil); generated Hu.
  - apply String.eqb_neq in H1, H2, H3. split.
    + split; [discriminate|]. intros [H|[H|H]]; congruence.
    + intros Hu. repeat (apply List.Forall_cons || apply List.Forall_nil); generated Hu.
Qed.
End Generation.

(** ** The optimizer as a whole *)

Section Optimize.
Variable E : Env.
Implicit Types (w : World (Text E)).

Lemma for_each_Forall2 {A B} (f : A -> Prog E B) (P : A -> B -> Prop)
    (l : list A) w :
  (forall x w1, exists y w2, f x w1 = (Returned y, w2) /\ P x y) ->
  exists ys w', for_each E f l w = (Returned ys, w') /\ Forall2 P l ys.
Proof.
  intros Hf. revert w. induction l as [|x l IH]; intros w; simpl.
  - eexists _, _. split; [reflexivity|constructor].
  - destruct (Hf x w) as (y & w1 & Hy & HP).
    destruct (IH w1) as (ys & w2 & Hys & HPs).
    rewrite (bind_returned _ _ _ _ _ Hy), (bind_returned _ _ _ _ _ Hys).
    eexists _, _. split; [reflexivity|]. constructor; assumption.
Qed.

Lemma evaluate_candidate scenario context c w :
  exists e w',
    bind (_calculate_roi E c scenario context)
         (fun roi_analysis => ret (with_roi_analysis roi_analysis c)) w
    = (Returned e, w') /\
    evaluates scenario c e.
Proof.
  destruct (_calculate_roi_returns E c scenario context w)
    as (ltv & brand & w' & Heq & _).
  rewrite (bind_returned _ _ _ _ _ Heq).
  eexists _, _. split; [reflexivity|].
  eexists. split; [reflexivity|]. split; reflexivity.
Qed.

(** The steps of [optimize], with the world after each of them. *)
Lemma optimize_steps scenario context w :
  exists candidates w1 evaluated best w2,
    _generate_solution_candidates E scenario context (with_ticks (S (ticks w)) w)
    = (Returned candidates, w1) /\
    candidates <> [] /\
    Forall (fun c => exists a, approach c = Some a /\
                     In a (dispatch_approaches (scenario_type scenario)))
           candidates /\
    Forall2 (evaluates scenario) candidates evaluated /\
    In best evaluated /\
    Forall (fun x => roi_key x <= roi_key best)%Q evaluated /\
    profit_metrics w2 = profit_metrics w /\
    optimization_history w2 = optimization_history w /\
    cache_manager w2 = cache_manager w /\
    performance_metrics w2 = performance_metrics w /\
    optimize E scenario context w =
    (Returned best,
     snd (bind (_update_optimization_metrics E best)
               (fun _ => bind (time_time E)
                  (fun end_time =>
                     _record_optimization E scenario best
                       (end_time - clock E (ticks w))%Q)) w2)).
Proof.
  unfold optimize.
  rewrite (bind_returned _ _ _ _ _ (time_time_eq E w)).
  set (w0 := with_ticks (S (ticks w)) w).
  destruct (candidates_shape E scenario context w0)
    as (candidates & w1 & Hgen & Hne & Happ).
  rewrite (bind_returned _ _ _ _ _ Hgen).
  destruct (for_each_Forall2
              (fun candidate =>
                 bind (_calculate_roi E candidate scenario context)
                      (fun roi_analysis => ret (with_roi_analysis roi_analysis candidate)))
              (evaluates scenario) candidates w1
              (fun c w => evaluate_candidate scenario context c w))
    as (evaluated & w2 & Heval & Hall).
  rewrite (bind_returned _ _ _ _ _ Heval).
  assert (Hne2 : evaluated <> []).
  { intros ->. inversion Hall; subst. congruence. }
  destruct (sorted_reverse_head roi_key evaluated Hne2)
    as (l1 & best & l2 & rest & Hl & Hs & H1 & H2).
  assert (Hsel : _select_best_solution evaluated = Returned best).
  { unfold _select_best_solution. rewrite Hs.
    destruct evaluated; [congruence|reflexivity]. }
  rewrite Hsel. simpl lift. rewrite bind_ret.
  assert (Hframe : forall X (f : World (Text E) -> X),
             (forall n w, f (with_ticks n w) = f w) ->
             (forall n w, f (with_draws n w) = f w) ->
             f w2 = f w).
  { intros X f Ht Hd.
    transitivity (f w1).
    - eapply (preserves_for_each E f); [|exact Heval].
      intros c. apply preserves_bind.
      + apply preserves_calculate_roi. exact Hd.
      + intros r. apply preserves_ret.
    - transitivity (f w0).
      + eapply (preserves_generate_solution_candidates E f); [exact Hd|exact Hgen].
      + apply Ht. }
  exists candidates, w1, evaluated, best, w2.
  split; [exact Hgen|]. split; [exact Hne|]. split; [exact Happ|]. split; [exact Hall|].
  split; [rewrite Hl; apply in_or_app; right; left; reflexivity|].
  split.
  { rewrite Hl. apply Forall_app. split.
    - eapply Forall_impl; [exact H1|]. intros a Ha. apply Qlt_le_weak, Ha.
    - constructor; [apply Qle_refl|exact H2]. }
  split; [apply Hframe; reflexivity|].
  split; [apply Hframe; reflexivity|].
  split; [apply Hframe; reflexivity|].
  split; [apply Hframe; reflexivity|].
  unfold _update_optimization_metrics, _record_optimization.
  unfold bind, modify, time_time, gets, ret. simpl. reflexivity.
Qed.

Lemma Forall2_In_r {A B} (P : A -> B -> Prop) (l : list A) (l' : list B) (y : B) :
  Forall2 P l l' -> In y l' -> exists x, In x l /\ P x y.
Proof.
  induction 1 as [|x y' l l' Hxy _ IH]; intros Hin; [destruct Hin|].
  destruct Hin as [->|Hin].
  - exists x. split; [left; reflexivity|exact Hxy].
  - destruct (IH Hin) as (x' & Hx' & HP). exists x'. split; [right; exact Hx'|exact HP].
Qed.

(** X26: the optimizer always returns, and never the empty dict: the
    solution it returns has an approach among those of the scenario's type
    and carries an analysis whose total cost is the operational cost of that
    same solution and whose immediate profit is its predicted profit. *)
Theorem optimize_returns_evaluated_candidate scenario context w :
  exists best w' r a,
    optimize E scenario context w = (Returned best, w') /\
    best <> empty_dict /\
    approach best = Some a /\
    In a (dispatch_approaches (scenario_type scenario)) /\
    roi_analysis best = Some r /\
    total_cost r = _calculate_operational_costs best scenario /\
    immediate_profit r = default 0%Q (predicted_profit best).
Proof.
  destruct (optimize_steps scenario context w)
    as (candidates & w1 & evaluated & best & w2 & Hgen & Hne & Happ & Hall & Hin & _ & _ & _ & _ & _ & Hopt).
  destruct (Forall2_In_r _ _ _ _ Hall Hin) as (c & Hc & r & -> & Hcost & Himm).
  rewrite List.Forall_forall in Happ.
  destruct (Happ c Hc) as (a & Ha & Hdisp).
  eexists _, _, r, a. split; [exact Hopt|].
  split; [intros H; apply (f_equal approach) in H; simpl in H; congruence|].
  split; [exact Ha|]. split; [exact Hdisp|]. split; [reflexivity|].
  split; [exact Hcost|exact Himm].
Qed.

(** X27: one run of the optimizer adds one to [total_optimizations], adds
    one to [successful_optimizations] exactly when the ROI percentage of the
    returned solution is positive, and appends one record to the history -
    the scenario's id, type and affected deliveries, the approach and the ROI
    percentage of the returned solution - of which the newest 1000 entries
    are kept.  The cache and the agent's performance metrics are not
    touched. *)
Theorem optimize_keeps_books scenario context w :
  exists best w' record,
    optimize E scenario context w = (Returned best, w') /\
    total_optimizations (profit_metrics w')
    = (total_optimizations (profit_metrics w) + 1)%Z /\
    successful_optimizations (profit_metrics w')
    = (successful_optimizations (profit_metrics w)
       + (if Qlt_bool 0 (roi_key best) then 1 else 0))%Z /\
    rec_scenario_id record = id scenario /\
    rec_scenario_type record = scenario_type scenario /\
    Some (rec_approach record) = approach best /\
    rec_roi_percentage record = roi_key best /\
    rec_affected_deliveries record = affected_deliveries scenario /\
    (exists dropped,
        (optimization_history w ++ [record])%list
        = (dropped ++ optimization_history w')%list /\
        length (optimization_history w')
        = Nat.min 1000 (S (length (optimization_history w)))) /\
    cache_manager w' = cache_manager w /\
    performance_metrics w' = performance_metrics w.
Proof.
  destruct (optimize_steps scenario context w)
    as (candidates & w1 & evaluated & best & w2 & Hgen & Hne & Happ & Hall & Hin & _
        & Hpm & Hh & Hcm & Hperf & Hopt).
  destruct (Forall2_In_r _ _ _ _ Hall Hin) as (c & Hc & r & -> & Hcost & Himm).
  rewrite List.Forall_forall in Happ.
  destruct (Happ c Hc) as (a & Ha & Hdisp).
  exists (with_roi_analysis r c). eexists.
  exists (mkRecord (clock E (S (ticks w2))) (id scenario) (scenario_type scenario)
                   (default "unknown" (approach (with_roi_analysis r c)))
                   (roi_key (with_roi_analysis r c))
                   (clock E (ticks w2) - clock E (ticks w))%Q
                   (affected_deliveries scenario)).
  split; [exact Hopt|].
  unfold _update_optimization_metrics, _record_optimization.
  unfold bind, modify, time_time, gets, ret.
  cbn [snd fst ticks draws profit_metrics optimization_history cache_manager performance_metrics
       with_profit_metrics with_optimization_history with_ticks
       total_optimizations successful_optimizations].
  rewrite Hpm, Hh, Hcm, Hperf.
  split; [reflexivity|].
  split; [destruct (Qlt_bool 0 (roi_key (with_roi_analysis r c))); lia|].
  split; [reflexivity|]. split; [reflexivity|].
  split; [cbn; rewrite Ha; reflexivity|].
  split; [reflexivity|]. split; [reflexivity|].
  split; [|split; reflexivity].
  match goal with
  | |- context [(optimization_history w ++ [?rcd])%list] => set (record := rcd)
  end.
  set (history := (optimization_history w ++ [record])%list).
  assert (Hlen : length history = S (length (optimization_history w))).
  { unfold history. rewrite length_app. simpl. lia. }
  destruct (1000 <? length history)%nat eqn:Hb.
  - apply Nat.ltb_lt in Hb.
    exists (firstn (length history - 1000) history). split.
    + unfold last_n. symmetry. apply firstn_skipn.
    + unfold last_n. rewrite length_skipn. lia.
  - apply Nat.ltb_ge in Hb. exists []. split; [reflexivity|]. lia.
Qed.
End Optimize.

(** ** Reading the optimizer's history *)

Section History.
Variable E : Env.
Implicit Types (w : World (Text E)).

(** X28: [get_optimization_history] returns a suffix of the history and
    leaves the state alone.  For a positive limit it is the newest [limit]
    records (all of them when there are fewer); for the limit 0 it is the
    whole history, not the empty list; for a negative limit the oldest
    [-limit] records are dropped. *)
Theorem history_is_sliced_from_the_end limit w :
  exists dropped recent,
    get_optimization_history E limit w = (Returned recent, w) /\
    optimization_history w = (dropped ++ recent)%list /\
    ((0 < limit)%Z ->
     length recent = Nat.min (Z.to_nat limit) (length (optimization_history w))) /\
    (limit = 0%Z -> recent = optimization_history w) /\
    ((limit < 0)%Z ->
     length dropped = Nat.min (Z.to_nat (- limit)) (length (optimization_history w))).
Proof.
  unfold get_optimization_history. rewrite bind_gets.
  destruct (optimization_history w) as [|x l] eqn:Hh.
  - exists [], []. split; [reflexivity|]. split; [reflexivity|].
    split; [intros _; simpl; lia|]. split; [reflexivity|]. intros _. simpl. lia.
  - set (history := x :: l).
    exists (firstn (length history - length (py_slice_from (- limit) history)) history),
           (py_slice_from (- limit) history).
    split; [reflexivity|].
    unfold py_slice_from.
    destruct (- limit <? 0)%Z eqn:Hneg.
    + apply Z.ltb_lt in Hneg.
      rewrite length_skipn.
      replace (length history - (length history
                 - Z.to_nat (Z.max 0 (Z.of_nat (length history) + - limit))))%nat
        with (Z.to_nat (Z.max 0 (Z.of_nat (length history) + - limit))) by lia.
      split; [symmetry; apply firstn_skipn|].
      split; [intros _; lia|]. split; intros; lia.
    + apply Z.ltb_ge in Hneg.
      rewrite length_skipn.
      replace (length history - (length history
                 - Z.to_nat (Z.min (- limit) (Z.of_nat (length history)))))%nat
        with (Z.to_nat (Z.min (- limit) (Z.of_nat (length history)))) by lia.
      split; [symmetry; apply firstn_skipn|].
      split; [intros; lia|]. split.
      * intros ->. reflexivity.
      * intros Hl. rewrite length_firstn. lia.
Qed.
End History.

(** ** Ranking the approaches *)

Lemma sum_roi_app (l1 l2 : list OptimizationRecord) :
  (sum_roi (l1 ++ l2) == sum_roi l1 + sum_roi l2)%Q.
Proof.
  induction l1 as [|x l1 IH]; simpl.
  - ring.
  - rewrite IH. ring.
Qed.

Lemma records_of_app (a : string) (l1 l2 : list OptimizationRecord) :
  records_of a (l1 ++ l2) = (records_of a l1 ++ records_of a l2)%list.
Proof. unfold records_of. apply List.filter_app. Qed.

Lemma records_of_nil (a : string) (l : list OptimizationRecord) :
  (forall record, In record l -> rec_approach record <> a) -> records_of a l = [].
Proof.
  induction l as [|x l IH]; intros H; simpl; [reflexivity|].
  destruct (String.eqb (rec_approach x) a) eqn:Hx.
  - apply String.eqb_eq in Hx. exfalso. apply (H x); [left; reflexivity|exact Hx].
  - apply IH. intros record Hr. apply H. right. exact Hr.
Qed.

Lemma add_to_approach_stats_keys (a : string) (roi : Q) (stats : list (string * (Q * Z))) :
  map fst (add_to_approach_stats a roi stats)
  = if existsb (String.eqb a) (map fst stats)
    then map fst stats else (map fst stats ++ [a])%list.
Proof.
  induction stats as [|[b [t c]] stats IH]; simpl; [reflexivity|].
  rewrite (String.eqb_sym a b).
  destruct (String.eqb b a) eqn:Hb; simpl; [reflexivity|].
  rewrite IH. destruct (existsb (String.eqb a) (map fst stats)); reflexivity.
Qed.

Lemma add_to_approach_stats_entries (a : string) (roi : Q)
    (stats : list (string * (Q * Z))) (b : string) (t : Q) (c : Z) :
  List.NoDup (map fst stats) ->
  In (b, (t, c)) (add_to_approach_stats a roi stats) ->
  (b <> a /\ In (b, (t, c)) stats) \/
  (b = a /\
   ((exists t0 c0, In (a, (t0, c0)) stats /\ t = (t0 + roi)%Q /\ c = (c0 + 1)%Z) \/
    (~ In a (map fst stats) /\ t = (0 + roi)%Q /\ c = (0 + 1)%Z))).
Proof.
  induction stats as [|[b0 [t0 c0]] stats IH]; simpl; intros Hnd.
  - intros [H|[]]. injection H as <- <- <-. right. split; [reflexivity|].
    right. split; [tauto|]. split; reflexivity.
  - inversion Hnd as [|? ? Hnotin Hnd']; subst.
    destruct (String.eqb b0 a) eqn:Hb.
    + apply String.eqb_eq in Hb. subst b0. intros [H|H].
      * injection H as <- <- <-. right. split; [reflexivity|].
        left. exists t0, c0. split; [left; reflexivity|]. split; reflexivity.
      * left. split; [|right; exact H].
        intros ->. apply Hnotin. apply (in_map fst) in H. exact H.
    + apply String.eqb_neq in Hb. intros [H|H].
      * injection H as <- <- <-. left. split; [exact Hb|left; reflexivity].
      * destruct (IH Hnd' H) as [[Hne Hin]|[-> [(t1 & c1 & Hin & Ht & Hc)|(Hnot & Ht & Hc)]]].
        -- left. split; [exact Hne|right; exact Hin].
        -- right. split; [reflexivity|]. left. exists t1, c1.
           split; [right; exact Hin|]. split; assumption.
        -- right. split; [reflexivity|]. right.
           split; [|split; assumption].
           intros [Heq|Hin]; [apply Hb; exact Heq|apply Hnot; exact Hin].
Qed.

Lemma existsb_eqb_In (a : string) (l : list string) :
  existsb (String.eqb a) l = true <-> In a l.
Proof.
  rewrite existsb_exists. split.
  - intros (x & Hx & Heq). apply String.eqb_eq in Heq. subst. exact Hx.
  - intros H. exists a. split; [exact H|apply String.eqb_refl].
Qed.

Lemma counts_step (history : list OptimizationRecord)
    (stats : list (string * (Q * Z))) (x : OptimizationRecord) :
  counts history stats ->
  counts (history ++ [x])
         (add_to_approach_stats (rec_approach x) (rec_roi_percentage x) stats).
Proof.
  intros (Hnd & Hcov & Hent).
  assert (Hkeys := add_to_approach_stats_keys (rec_approach x) (rec_roi_percentage x) stats).
  split; [|split].
  - rewrite Hkeys.
    destruct (existsb (String.eqb (rec_approach x)) (map fst stats)) eqn:Hex; [exact Hnd|].
    eapply Permutation_NoDup; [apply Permutation_cons_append|].
    constructor; [|exact Hnd].
    intros Ha. apply existsb_eqb_In in Ha. congruence.
  - intros record Hin. rewrite Hkeys.
    apply in_app_or in Hin.
    destruct (existsb (String.eqb (rec_approach x)) (map fst stats)) eqn:Hex.
    + destruct Hin as [Hin|[<-|[]]]; [apply Hcov, Hin|].
      apply existsb_eqb_In, Hex.
    + apply in_or_app. destruct Hin as [Hin|[<-|[]]]; [left; apply Hcov, Hin|].
      right. left. reflexivity.
  - intros a t c Hin.
    rewrite records_of_app, length_app, sum_roi_app.
    destruct (add_to_approach_stats_entries _ _ _ _ _ _ Hnd Hin)
      as [[Hne Hold]|[-> [(t0 & c0 & Hold & -> & ->)|(Hnot & -> & ->)]]].
    + destruct (Hent _ _ _ Hold) as (Hc & Hpos & Ht).
      assert (Hx : records_of a [x] = []).
      { apply records_of_nil. intros record [<-|[]]. congruence. }
      rewrite Hx. split; [simpl; lia|]. split; [exact Hpos|].
      rewrite Ht. change (sum_roi []) with 0%Q. ring.
    + destruct (Hent _ _ _ Hold) as (Hc & Hpos & Ht).
      assert (Hx : records_of (rec_approach x) [x] = [x]).
      { unfold records_of. simpl. rewrite String.eqb_refl. reflexivity. }
      rewrite Hx. split; [simpl; lia|]. split; [lia|].
      rewrite Ht. change (sum_roi [x]) with (rec_roi_percentage x + 0)%Q. ring.
    + assert (Hx : records_of (rec_approach x) [x] = [x]).
      { unfold records_of. simpl. rewrite String.eqb_refl. reflexivity. }
      assert (Hnone : records_of (rec_approach x) history = []).
      { apply records_of_nil. intros record Hr Heq. apply Hnot.
        rewrite <- Heq. apply Hcov, Hr. }
      rewrite Hx, Hnone. split; [simpl; lia|]. split; [lia|].
      change (sum_roi []) with 0%Q.
      change (sum_roi [x]) with (rec_roi_percentage x + 0)%Q. ring.
Qed.

Lemma counts_fold (rest history : list OptimizationRecord)
    (stats : list (string * (Q * Z))) :
  counts history stats ->
  counts (history ++ rest)
         (fold_left (fun approach_stats record =>
                       add_to_approach_stats (rec_approach record)
                         (rec_roi_percentage record) approach_stats)
                    rest stats).
Proof.
  revert history stats. induction rest as [|x rest IH]; intros history stats H; simpl.
  - rewrite app_nil_r. exact H.
  - replace (history ++ x :: rest)%list with ((history ++ [x]) ++ rest)%list
      by (rewrite <- app_assoc; reflexivity).
    apply IH, counts_step, H.
Qed.

Lemma group_by_approach_counts (history : list OptimizationRecord) :
  counts history (group_by_approach history).
Proof.
  unfold group_by_approach.
  apply (counts_fold history [] []).
  split; [constructor|]. split; [intros record []|intros a t c []].
Qed.

Lemma Sorted_firstn {A} (R : A -> A -> Prop) (n : nat) (l : list A) :
  Sorted R l -> Sorted R (firstn n l).
Proof.
  revert l. induction n as [|n IH]; intros l Hs; simpl; [constructor|].
  destruct l as [|x l]; [constructor|].
  inversion Hs as [|? ? Hs' Hhd]; subst.
  constructor; [apply IH, Hs'|].
  destruct n; simpl; [constructor|].
  destruct l as [|y l]; [constructor|].
  inversion Hhd; subst. constructor. assumption.
Qed.

Section Ranking.
Variable E : Env.
Implicit Types (w : World (Text E)).

(** X29: [get_top_performing_approaches] returns one entry per approach,
    in descending order of average ROI.  The usage count of an entry is the
    number of records of the history with that approach, it is positive, and
    the average is the sum of their ROI percentages over that count.  For a
    limit that is not negative at most [limit] entries are returned, and when
    fewer than [limit] are returned every approach of the history is among
    them.  The state is left alone. *)
Theorem top_approaches_are_ranked_averages limit w :
  exists top,
    get_top_performing_approaches E limit w = (Returned top, w) /\
    Sorted (descending avg_average_roi) top /\
    List.NoDup (map avg_approach top) /\
    (forall a, In a top ->
       usage_count a
       = Z.of_nat (length (records_of (avg_approach a) (optimization_history w))) /\
       (0 < usage_count a)%Z /\
       (avg_average_roi a
        == sum_roi (records_of (avg_approach a) (optimization_history w))
           / inject_Z (usage_count a))%Q) /\
    ((0 <= limit)%Z -> (Z.of_nat (length top) <= limit)%Z) /\
    ((Z.of_nat (length top) < limit)%Z ->
     forall record, In record (optimization_history w) ->
                    In (rec_approach record) (map avg_approach top)).
Proof.
  unfold get_top_performing_approaches. rewrite bind_gets.
  destruct (optimization_history w) as [|x l] eqn:Hh.
  - exists []. split; [reflexivity|]. split; [constructor|]. split; [constructor|].
    split; [intros a []|]. split; [simpl; lia|]. intros _ record [].
  - set (history := x :: l).
    destruct (group_by_approach_counts history) as (Hnd & Hcov & Hent).
    set (averages := map approach_average (group_by_approach history)) in *.
    set (ranked := sorted_reverse avg_average_roi averages).
    assert (Hperm : Permutation ranked averages)
      by apply sorted_reverse_Permutation.
    assert (Hkeys : map avg_approach averages = map fst (group_by_approach history)).
    { unfold averages. rewrite map_map. apply map_ext.
      intros [a [t c]]. reflexivity. }
    assert (Hsplit : ranked = (py_slice_to limit ranked
                               ++ skipn (length (py_slice_to limit ranked)) ranked)%list).
    { unfold py_slice_to. rewrite length_firstn.
      match goal with
      | |- context [firstn ?n ranked] =>
          replace (Nat.min n (length ranked)) with n; [symmetry; apply firstn_skipn|]
      end.
      destruct (limit <? 0)%Z eqn:Hneg; [apply Z.ltb_lt in Hneg|]; lia. }
    exists (py_slice_to limit ranked). split; [reflexivity|].
    split; [apply Sorted_firstn, sorted_reverse_Sorted|].
    split.
    { assert (Hall : List.NoDup (map avg_approach ranked)).
      { eapply Permutation_NoDup; [|rewrite <- Hkeys in Hnd; exact Hnd].
        apply Permutation_map. symmetry. exact Hperm. }
      rewrite Hsplit, map_app in Hall.
      eapply List.NoDup_app_remove_r. exact Hall. }
    split.
    { intros a Ha.
      assert (Hin : In a averages).
      { eapply Permutation_in; [exact Hperm|].
        rewrite Hsplit. apply in_or_app. left. exact Ha. }
      unfold averages in Hin. apply in_map_iff in Hin.
      destruct Hin as ([b [t c]] & <- & Hin).
      destruct (Hent _ _ _ Hin) as (Hc & Hpos & Ht).
      simpl. split; [exact Hc|]. split; [exact Hpos|].
      rewrite Ht. reflexivity. }
    split.
    { intros Hl. unfold py_slice_to. rewrite length_firstn.
      destruct (limit <? 0)%Z eqn:Hneg; [apply Z.ltb_lt in Hneg; lia|]. lia. }
    intros Hlt record Hr.
    assert (Hwhole : py_slice_to limit ranked = ranked).
    { unfold py_slice_to in *. rewrite length_firstn in Hlt.
      apply firstn_all2.
      destruct (limit <? 0)%Z eqn:Hneg;
        [apply Z.ltb_lt in Hneg|apply Z.ltb_ge in Hneg]; lia. }
    rewrite Hwhole.
    eapply Permutation_in.
    + apply Permutation_map. symmetry. exact Hperm.
    + rewrite Hkeys. apply Hcov, Hr.
Qed.
End Ranking.

(** ** A fresh resolution *)

Section Fresh.
Variable E : Env.
Implicit Types (w : World (Text E)).

(** Under draws within their ranges the optimizer returns a generated
    candidate with its analysis attached. *)
Lemma optimize_best_generated scenario context w :
  uniform_in_range E ->
  exists c r w',
    optimize E scenario context w = (Returned (with_roi_analysis r c), w') /\
    generated_candidate (scenario_type scenario) c.
Proof.
  intros Hu.
  destruct (optimize_steps E scenario context w)
    as (candidates & w1 & evaluated & best & w2 & Hgen & _ & _ & Hall & Hin & _ & _ & _
        & _ & _ & Hopt).
  destruct (generate_solution_candidates_spec E scenario context
              (with_ticks (S (ticks w)) w) Hu) as (cs & w1' & Hgen' & _ & Hgood).
  rewrite Hgen in Hgen'. injection Hgen' as <- <-.
  destruct (Forall2_In_r _ _ _ _ Hall Hin) as (c & Hc & r & -> & _).
  rewrite List.Forall_forall in Hgood.
  exists c, r. eexists. split; [exact Hopt|]. apply Hgood, Hc.
Qed.

(** X30: a resolution that finds no entry for its text returns a fresh
    solution: it is not marked as a cache hit, it has at least one action,
    and, with every draw inside its range, its predicted profit lies between
    0 and 120 and its confidence between 0.7 and 0.9. *)
Theorem fresh_solution_within_generator_ranges text w :
  uniform_in_range E ->
  cache (cache_manager w) !! text_key E text = None ->
  exists sol w',
    solve_disruption E text w = (Returned sol, w') /\
    cache_hit sol = false /\
    sol_actions sol <> [] /\
    (0 <= sol_predicted_profit sol <= 120)%Q /\
    (7 # 10 <= sol_confidence sol <= 9 # 10)%Q.
Proof.
  intros Hu Hnone. unfold solve_disruption.
  rewrite (bind_returned _ _ _ _ _ (time_time_eq E w)).
  destruct (_create_scenario_returns E text (with_ticks (S (ticks w)) w))
    as (sc & w2 & Hsc & Hkey & _ & Hcm & _).
  rewrite (bind_returned _ _ _ _ _ Hsc).
  assert (Hc2 : cache (cache_manager w2) !! scenario_key sc = None)
    by (rewrite Hkey, Hcm; exact Hnone).
  destruct (_check_prediction_cache_miss E sc w2 Hc2) as (w3 & Hchk).
  rewrite (bind_returned _ _ _ _ _ Hchk). cbv zeta.
  destruct (optimize_best_generated sc (analyze_scenario E sc) w3 Hu)
    as (c & r & w4 & Hopt & Hgood).
  rewrite (bind_returned _ _ _ _ _ Hopt).
  destruct (_execute_with_reasoning_returns E sc (with_roi_analysis r c)
              (analyze_scenario E sc) w4) as (final & w5 & Hex & Hhit).
  destruct (_execute_with_reasoning_shape E _ _ _ _ _ _ Hex) as (sid & rt & opts & ->).
  rewrite (bind_returned _ _ _ _ _ Hex).
  rewrite (bind_returned _ _ _ _ _ (time_time_eq E w5)).
  match goal with
  | |- context [_cache_solution E sc ?final'] =>
      destruct (_cache_solution_stores E sc final' (with_ticks (S (ticks w5)) w5))
        as (w7 & Hstore & Hlook)
  end.
  rewrite (bind_returned _ _ _ _ _ Hstore).
  unfold _update_metrics. rewrite bind_modify.
  eexists _, _. split; [reflexivity|].
  destruct Hgood as (_ & (l & Hl & Hne) & _ & (p & Hp & Hpr) & (k & Hk & Hkr)).
  cbn [cache_hit sol_actions sol_predicted_profit sol_confidence
       with_execution_time with_roi_analysis actions predicted_profit confidence].
  rewrite Hl, Hp, Hk. cbn [default].
  split; [reflexivity|]. split; [exact Hne|]. split; assumption.
Qed.
End Fresh.

(** ** More instances in the concrete environment *)

Lemma roi_sign_witness :
  exists r w',
    _calculate_roi demo_env demo_premium (demo_scenario 5) tt initial_world
    = (Returned r, w') /\
    (0 <= customer_ltv_impact r)%Q /\
    (0 <= brand_impact r)%Q /\
    (immediate_profit r <= total_profit r)%Q /\
    (0 < roi_percentage r <-> total_cost r < total_profit r)%Q.
Proof.
  exact (roi_sign demo_env demo_premium (demo_scenario 5) tt initial_world
           demo_uniform_in_range).
Defined.

Lemma fresh_solution_within_generator_ranges_witness :
  exists sol w',
    solve_disruption demo_env "" initial_world = (Returned sol, w') /\
    cache_hit sol = false /\
    sol_actions sol <> [] /\
    (0 <= sol_predicted_profit sol <= 120)%Q /\
    (7 # 10 <= sol_confidence sol <= 9 # 10)%Q.
Proof.
  exact (fresh_solution_within_generator_ranges demo_env "" initial_world
           demo_uniform_in_range eq_refl).
Defined.
